(** * WebSphere marketplace: the Application / Negotiation / Award pipeline

    A shallow embedding of
    - the application routes, [backend/routes/applications.js];
    - the chat routes (mounted on [/api/chats]; in the sources they follow the
      badge routes in [backend/routes/badges.js]) and the chat and message
      schemas of [models/Chat.js];
    - the feature route of the badge routes, [backend/routes/badges.js];
    - [isFreelancerProfileComplete] of [backend/models/User.js];
    - of the chat window of the client application (the [ChatInterface]
      component, among the components of [ReviewModal.jsx]):
      [handleSendOffer], [handleSendMessage], the price-lock flag of
      [fetchChatDetails] and the update of [handleRespondToOffer];
    - the presence, typing and call handlers of [backend/server.js];
    with the properties the specification states about them, and further
    properties of the same code.

    Conventions of the embedding.
    - A MongoDB collection is a list of documents; the [_id] of a document is
      its position in the list.  [findById] is list lookup, [save] of a new
      document appends, [save] of a loaded document overwrites its slot and
      [updateMany] maps over the collection.  No modelled route deletes a
      document.
    - A JavaScript number is an IEEE 754 binary64 value ([float]); a field
      that may be [undefined] or [null] is an [option].
    - A string is a sequence of one-byte characters: [length] counts them
      and [trim] strips the one-byte white space.  Text outside ASCII, where
      JavaScript counts UTF-16 units and strips further white space, is
      outside the embedding.
    - [new Date()] is the [now] argument of a handler.
    - A handler returns its HTTP outcome and the store it leaves behind.  An
      exception reaches the [catch] of the route, which answers 500; writes
      made before the exception stay in the store.
    - [populate] of a reference yields [null] when the document is missing,
      and reading a field of [null] throws.
    - A JavaScript [Map] is the list of its entries in insertion order.

    Outside the embedding.
    - The schemas of Project, Application, Workspace and Notification are not
      among the sources: their documents hold the fields the routes read and
      write, and their [save] succeeds.  The message schema is, and its
      validation of [content] and [messageType] is modelled.
    - The [GET] routes, which only mark messages as read and applications as
      viewed; the Socket.IO events the routes emit; the AI summary the
      send route may attach to a stored text message; the other badge
      routes; and the handlers of the hub that only forward a message. *)

From Stdlib Require Import ZArith Floats Lia Bool.
#[local] Set Warnings "-inexact-float,-clear-no-such-hyp".
From stdpp Require Import base option list strings.

(** ** JavaScript numbers *)

Module Js.

Definition number := float.

(** [a > b] on numbers. *)
Definition gt (a b : number) : bool := PrimFloat.ltb b a.

(** Truthiness of a number: everything but [0], [-0] and [NaN]. *)
Definition truthy (x : number) : bool :=
  negb (PrimFloat.is_zero x || PrimFloat.is_nan x).

(** Truthiness of a numeric field that may be missing. *)
Definition truthy_opt (x : option number) : bool :=
  match x with Some v => truthy v | None => false end.

(** [a || b] on possibly missing numbers. *)
Definition or_else (a b : option number) : option number :=
  if truthy_opt a then a else b.

(** [ToNumber]: [undefined] becomes [NaN]. *)
Definition to_number (x : option number) : number :=
  match x with Some v => v | None => PrimFloat.nan end.

(** [Math.max] of two numbers. *)
Definition max (a b : number) : number :=
  if PrimFloat.is_nan a || PrimFloat.is_nan b then PrimFloat.nan
  else if PrimFloat.ltb a b then b
  else if PrimFloat.ltb b a then a
  else match PrimFloat.classify a with
       | NZero => b
       | _ => a
       end.

(** Truthiness of a string: the empty string (like [undefined]) is falsy. *)
Definition nonempty (s : string) : bool :=
  match s with EmptyString => false | _ => true end.

Definition is_space (c : Ascii.ascii) : bool :=
  let n := Ascii.nat_of_ascii c in
  (Nat.eqb n 32 || (Nat.leb 9 n && Nat.leb n 13))%bool.

Fixpoint trim_start (s : string) : string :=
  match s with
  | String c r => if is_space c then trim_start r else s
  | EmptyString => EmptyString
  end.

Fixpoint rev_onto (s acc : string) : string :=
  match s with
  | String c r => rev_onto r (String c acc)
  | EmptyString => acc
  end.

Definition rev (s : string) : string := rev_onto s EmptyString.

(** [String.prototype.trim] on the one-byte white space characters. *)
Definition trim (s : string) : string :=
  rev (trim_start (rev (trim_start s))).

End Js.

(** ** Identifiers, time, enumerations *)

Abbreviation ObjectId := nat.
Abbreviation UserId := nat.
Abbreviation Time := Z.

Inductive Role := RClient | RFreelancer | RAdmin.

Inductive ProjectStatus :=
  PsOpen | PsAwarded | PsInProgress | PsCompleted | PsCancelled.

Inductive AppStatus :=
  AsPending | AsAccepted | AsAwarded | AsRejected | AsWithdrawn.

Inductive ChatStatus := CsActive | CsClosed | CsArchived.

Inductive MessageType := MtText | MtFile | MtSystem | MtOffer.

Inductive OfferStatus := OsPending | OsAccepted | OsDeclined.

#[global] Instance Role_eq_dec : EqDecision Role.
Proof. solve_decision. Defined.
#[global] Instance ProjectStatus_eq_dec : EqDecision ProjectStatus.
Proof. solve_decision. Defined.
#[global] Instance AppStatus_eq_dec : EqDecision AppStatus.
Proof. solve_decision. Defined.
#[global] Instance ChatStatus_eq_dec : EqDecision ChatStatus.
Proof. solve_decision. Defined.
#[global] Instance MessageType_eq_dec : EqDecision MessageType.
Proof. solve_decision. Defined.
#[global] Instance OfferStatus_eq_dec : EqDecision OfferStatus.
Proof. solve_decision. Defined.

(** A timeline as the client sends it: the text, and the instant
    [new Date(text).getTime()] it denotes ([None] for an invalid date). *)
Record Timeline := { tl_text : string; tl_date : option Z }.

(** ** Documents *)

Record User := {
  u_role : Role;
  u_bio : string;
  u_skills : list string;
}.

Record NegotiationEntry := {
  ne_offeredBy : UserId;
  ne_offeredByRole : option Role;
  ne_amount : option Js.number;
  ne_timeline : option Timeline;
  ne_status : OfferStatus;
  ne_respondedBy : UserId;
  ne_respondedAt : Time;
}.

Record Project := {
  p_client : UserId;
  p_title : string;
  p_status : ProjectStatus;
  p_budgetAmount : option Js.number;
  p_deadline : option Z;
  p_agreedPrice : option Js.number;
  p_finalRate : option Js.number;
  p_finalTimeline : option Timeline;
  p_awardedTo : option UserId;
  p_awardedApplication : option ObjectId;
  p_awardedAt : option Time;
  p_priceLockedAt : option Time;
  p_priceLockedBy : option string;
  p_negotiationHistory : list NegotiationEntry;
  p_serviceChargePercentage : option Js.number;
  p_serviceCharge : option Js.number;
  p_totalProjectValue : option Js.number;
}.

Record Application := {
  a_project : ObjectId;
  a_freelancer : UserId;
  a_client : UserId;
  a_coverLetter : string;
  a_proposedRate : option Js.number;
  a_proposedTimeline : option Timeline;
  a_status : AppStatus;
  a_respondedAt : option Time;
  a_negotiatedAt : option Time;
}.

Record Participant := {
  pt_user : UserId;
  pt_role : Role;
  pt_joinedAt : Time;
}.

Record Chat := {
  c_project : ObjectId;
  c_application : ObjectId;
  c_participants : list Participant;
  c_status : ChatStatus;
  c_lastMessage : option ObjectId;
  c_lastActivity : Time;
}.

Record OfferDetails := {
  od_proposedRate : option Js.number;
  od_timeline : option Timeline;
  od_description : string;
}.

(** The text of a message: what a user typed, or one of the texts the routes
    compose, kept with the values they interpolate. *)
Inductive Content :=
| Typed (text : string)
| AwardNotice (title : string) (finalAmount : option Js.number)
              (timeline : option Timeline)
| ChatAwardNotice (finalRate : option Js.number) (finalTimeline : option Timeline)
| ChatStarted (title : string)
| ChatClosedNotice
| OfferAcceptedNotice (rate : option Js.number) (timeline : option Timeline)
| OfferDeclinedNotice.

Record Message := {
  m_chat : ObjectId;
  m_sender : UserId;
  m_content : Content;
  m_messageType : MessageType;
  m_offerDetails : option OfferDetails;
  m_offerStatus : option OfferStatus;
  m_createdAt : Time;
}.

Record Workspace := {
  w_project : ObjectId;
  w_client : UserId;
  w_freelancer : UserId;
  w_application : ObjectId;
}.

Inductive NotificationKind :=
  NkNewApplication | NkProjectAwarded | NkApplicationRejected.

Record Notification := {
  n_userId : UserId;
  n_userRole : Role;
  n_kind : NotificationKind;
  n_projectId : ObjectId;
  n_applicationId : ObjectId;
}.

(** The store: one list per collection. *)
Record State := {
  users : list User;
  projects : list Project;
  applications : list Application;
  chats : list Chat;
  messages : list Message;
  workspaces : list Workspace;
  notifications : list Notification;
}.

(** ** Requests and replies *)

(** [req.user], as the authentication middleware leaves it. *)
Record AuthUser := { userId : UserId; role : Role }.

(** Why a request was turned down: one constructor per [message] the routes
    send, with the values the message interpolates. *)
Inductive Reason :=
| RoleNotAllowed
| UserNotFound
| ProfileIncomplete
| MissingFields
| ProjectNotFound
| NotAcceptingApplications
| RateExceedsCap (maxAllowedRate : Js.number) (budgetAmount : option Js.number)
| TimelineExceedsDeadline (deadline : Z)
| AlreadyApplied
| TooManyOngoing (ongoingProjectsCount : nat)
| InvalidAction
| InvalidStatus
| ApplicationNotFound
| NotYourProject
| AlreadyRespondedTo
| NotYourApplication
| CannotWithdraw
| OnlyClientCanAward
| MustBePendingOrAccepted
| ProjectAlreadyAwarded
| ContentRequired
| MessageTooLong (len : nat)
| ChatNotFound
| NotAParticipant
| ChatIsClosed
| PriceAlreadyLocked (agreedPrice : Js.number)
| OfferExceedsMaximum (maxAllowed clientBudget : Js.number)
| OnlyClientCanClose
| ProjectAlreadyCompleted
| NotInvolved
| MessageNotFound
| NotAnOffer
| OfferAlreadyResponded (offerStatus : option OfferStatus)
| OwnOffer
| InternalError.

(** What a success reply carries. *)
Record Payload := {
  r_application : option ObjectId;
  r_chatId : option ObjectId;
  r_workspaceId : option ObjectId;
  r_message : option ObjectId;
}.

Definition no_payload : Payload :=
  {| r_application := None; r_chatId := None; r_workspaceId := None;
     r_message := None |}.

Inductive Outcome :=
| Success (code : nat) (data : Payload)
| Failure (code : nat) (why : Reason).

Definition http_code (o : Outcome) : nat :=
  match o with Success c _ => c | Failure c _ => c end.

Definition Result : Type := Outcome * State.

(** The reply of the [catch] block of a route. *)
Definition crash (s : State) : Result := (Failure 500 InternalError, s).

(** Modelled from the spec: the [auth(roles)] middleware of
    [middlewares/auth.js] is not part of the sources; section 6 says every
    route is role-scoped and section 7 that a role mismatch is a
    [ForbiddenError], answered 403. *)
Definition auth (allowed : list Role) (u : AuthUser) : bool :=
  bool_decide (role u ∈ allowed).

(** ** Store primitives *)

Section Collections.
Context {A : Type}.

(** [findOne(query)]: the first document that matches, with its [_id]. *)
Definition findOne (P : A → Prop) `{∀ x, Decision (P x)} (l : list A)
  : option (nat * A) := list_find P l.

(** [countDocuments(query)]. *)
Definition countDocuments (P : A → Prop) `{∀ x, Decision (P x)} (l : list A)
  : nat := length (filter P l).

(** [updateMany(query, update)]; the query may mention the [_id]. *)
Definition updateMany (P : nat → A → Prop) `{∀ i x, Decision (P i x)}
    (f : A → A) (l : list A) : list A :=
  imap (λ i x, if decide (P i x) then f x else x) l.

(** [save()] of a new document: it gets the next free [_id]. *)
Definition insertOne (x : A) (l : list A) : nat * list A :=
  (length l, l ++ [x]).

(** [save()] of a loaded document. *)
Definition saveAt (i : nat) (x : A) (l : list A) : list A := <[i:=x]> l.
End Collections.

(** Replacing one collection of the store. *)
Definition set_projects v s := {| users := users s; projects := v;
  applications := applications s; chats := chats s; messages := messages s;
  workspaces := workspaces s; notifications := notifications s |}.
Definition set_applications v s := {| users := users s; projects := projects s;
  applications := v; chats := chats s; messages := messages s;
  workspaces := workspaces s; notifications := notifications s |}.
Definition set_chats v s := {| users := users s; projects := projects s;
  applications := applications s; chats := v; messages := messages s;
  workspaces := workspaces s; notifications := notifications s |}.
Definition set_messages v s := {| users := users s; projects := projects s;
  applications := applications s; chats := chats s; messages := v;
  workspaces := workspaces s; notifications := notifications s |}.
Definition set_workspaces v s := {| users := users s; projects := projects s;
  applications := applications s; chats := chats s; messages := messages s;
  workspaces := v; notifications := notifications s |}.
Definition set_notifications v s := {| users := users s; projects := projects s;
  applications := applications s; chats := chats s; messages := messages s;
  workspaces := workspaces s; notifications := v |}.

(** [Notification.create(...)] inside [try { } catch { }]: the notification
    is stored; a failure would only be logged. *)
Definition notify (n : Notification) (s : State) : State :=
  set_notifications (notifications s ++ [n]) s.

(** ** [models/User.js] *)

(** [userSchema.methods.isFreelancerProfileComplete]. *)
Definition isFreelancerProfileComplete (u : User) : bool :=
  if decide (u_role u ≠ RFreelancer) then true
  else Js.nonempty (u_bio u)
       && (50 <=? String.length (Js.trim (u_bio u)))%nat
       && (3 <=? length (u_skills u))%nat.

(** ** [models/Chat.js] *)

Module ChatModel.

(** [offerDetails] is a nested path of [messageSchema]: a document built
    without it reads back as an object whose fields are missing. *)
Definition emptyOffer : OfferDetails :=
  {| od_proposedRate := None; od_timeline := None; od_description := "" |}.

(** [new Message({...})], with the defaults of the schema: [offerStatus]
    defaults to ['pending'] on an offer and stays undefined otherwise. *)
Definition newMessage (chat : ObjectId) (sender : UserId) (content : Content)
    (messageType : MessageType) (offerDetails : option OfferDetails)
    (offerStatus : option OfferStatus) (now : Time) : Message :=
  {| m_chat := chat; m_sender := sender; m_content := content;
     m_messageType := messageType;
     m_offerDetails := Some (default emptyOffer offerDetails);
     m_offerStatus :=
       match offerStatus with
       | Some st => Some st
       | None => if decide (messageType = MtOffer) then Some OsPending else None
       end;
     m_createdAt := now |}.

(** [content] is [required]: validation refuses the empty text. *)
Definition validContent (c : Content) : bool :=
  match c with Typed text => Js.nonempty text | _ => true end.

(** [new Chat({project, application, participants})]: [status] defaults to
    ['active'], [lastActivity] and [joinedAt] to the current time. *)
Definition newChat (project application : ObjectId) (client freelancer : UserId)
    (now : Time) : Chat :=
  {| c_project := project; c_application := application;
     c_participants :=
       [ {| pt_user := client; pt_role := RClient; pt_joinedAt := now |};
         {| pt_user := freelancer; pt_role := RFreelancer; pt_joinedAt := now |} ];
     c_status := CsActive; c_lastMessage := None; c_lastActivity := now |}.

(** [chat.lastMessage = id; chat.lastActivity = new Date()]. *)
Definition touch (lastMessage : ObjectId) (now : Time) (c : Chat) : Chat :=
  {| c_project := c_project c; c_application := c_application c;
     c_participants := c_participants c; c_status := c_status c;
     c_lastMessage := Some lastMessage; c_lastActivity := now |}.

Definition with_lastMessage (lastMessage : ObjectId) (c : Chat) : Chat :=
  {| c_project := c_project c; c_application := c_application c;
     c_participants := c_participants c; c_status := c_status c;
     c_lastMessage := Some lastMessage; c_lastActivity := c_lastActivity c |}.

Definition with_status (st : ChatStatus) (c : Chat) : Chat :=
  {| c_project := c_project c; c_application := c_application c;
     c_participants := c_participants c; c_status := st;
     c_lastMessage := c_lastMessage c; c_lastActivity := c_lastActivity c |}.

(** [chat.participants.some(p => p.user.toString() === userId)]. *)
Definition isParticipant (c : Chat) (uid : UserId) : bool :=
  existsb (λ p, bool_decide (pt_user p = uid)) (c_participants c).

(** [chat.participants.find(p => p.user.toString() === userId)]. *)
Definition findParticipant (c : Chat) (uid : UserId) : option Participant :=
  find (λ p, bool_decide (pt_user p = uid)) (c_participants c).

(** [Chat.findOne({application})], creating the chat when there is none. *)
Definition findOrCreate (project application : ObjectId)
    (client freelancer : UserId) (now : Time) (s : State)
  : ObjectId * Chat * State :=
  match findOne (λ c, c_application c = application) (chats s) with
  | Some (cid, chat) => (cid, chat, s)
  | None =>
    let chat := newChat project application client freelancer now in
    let '(cid, cs) := insertOne chat (chats s) in
    (cid, chat, set_chats cs s)
  end.

(** A system message is saved and becomes the chat's last message. *)
Definition postSystemMessage (cid : ObjectId) (chat : Chat) (sender : UserId)
    (content : Content) (now : Time) (s : State) : ObjectId * State :=
  let '(mid, ms) :=
    insertOne (newMessage cid sender content MtSystem None None now)
              (messages s) in
  let s1 := set_messages ms s in
  (mid, set_chats (saveAt cid (touch mid now chat) (chats s1)) s1).

End ChatModel.

(** ** [routes/applications.js] *)

Module Applications.

Record SubmitBody := {
  sb_projectId : option ObjectId;
  sb_coverLetter : string;
  sb_proposedRate : option Js.number;
  sb_proposedTimeline : Timeline;
}.

(** [parseFloat] of a JSON number: the number is printed and read back,
    which returns it. *)
Definition parseFloat (x : Js.number) : Js.number := x.

(** [maxAllowedRate = project.budgetAmount * 1.20]. *)
Definition maxAllowedRate (project : Project) : Js.number :=
  PrimFloat.mul (Js.to_number (p_budgetAmount project)) 1.20%float.

(** The deadline test of the submission: both dates present and valid, and
    the proposed one later. *)
Definition exceedsDeadline (project : Project) (t : Timeline) : bool :=
  match p_deadline project, tl_date t with
  | Some deadlineDate, Some proposedDate =>
      Js.nonempty (tl_text t) && (deadlineDate <? proposedDate)%Z
  | _, _ => false
  end.

Definition ongoing (a : Application) : Prop :=
  a_status a = AsAccepted ∨ a_status a = AsAwarded.

Definition newApplicationNotification (project : Project) (pid aid : ObjectId)
  : Notification :=
  {| n_userId := p_client project; n_userRole := RClient;
     n_kind := NkNewApplication; n_projectId := pid; n_applicationId := aid |}.

(** [POST /api/applications]. *)
Definition submit (u : AuthUser) (body : SubmitBody) (s : State) : Result :=
  if negb (auth [RFreelancer] u) then (Failure 403 RoleNotAllowed, s) else
  match users s !! userId u with
  | None => (Failure 404 UserNotFound, s)
  | Some freelancer =>
    if negb (isFreelancerProfileComplete freelancer)
    then (Failure 400 ProfileIncomplete, s) else
    match sb_projectId body, sb_proposedRate body with
    | Some projectId, Some proposedRate =>
      if negb (Js.nonempty (sb_coverLetter body))
         || negb (Js.truthy proposedRate)
         || negb (Js.nonempty (tl_text (sb_proposedTimeline body)))
      then (Failure 400 MissingFields, s) else
      match projects s !! projectId with
      | None => (Failure 404 ProjectNotFound, s)
      | Some project =>
        if decide (p_status project ≠ PsOpen)
        then (Failure 400 NotAcceptingApplications, s) else
        if Js.gt (parseFloat proposedRate) (maxAllowedRate project)
        then (Failure 400
                (RateExceedsCap (maxAllowedRate project) (p_budgetAmount project)), s)
        else
        if exceedsDeadline project (sb_proposedTimeline body)
        then (Failure 400 (TimelineExceedsDeadline (default 0%Z (p_deadline project))), s)
        else
        match findOne (λ a, a_project a = projectId ∧ a_freelancer a = userId u)
                      (applications s) with
        | Some _ => (Failure 400 AlreadyApplied, s)
        | None =>
          let ongoingProjectsCount :=
            countDocuments (λ a, a_freelancer a = userId u ∧ ongoing a)
                           (applications s) in
          if (5 <=? ongoingProjectsCount)%nat
          then (Failure 400 (TooManyOngoing ongoingProjectsCount), s) else
          match users s !! p_client project with
          | None => crash s            (* [project.client._id] of [null] *)
          | Some _ =>
            let application :=
              {| a_project := projectId; a_freelancer := userId u;
                 a_client := p_client project;
                 a_coverLetter := sb_coverLetter body;
                 a_proposedRate := Some (parseFloat proposedRate);
                 a_proposedTimeline := Some (sb_proposedTimeline body);
                 a_status := AsPending;
                 a_respondedAt := None; a_negotiatedAt := None |} in
            let '(aid, apps) := insertOne application (applications s) in
            let s1 := set_applications apps s in
            let s2 := notify (newApplicationNotification project projectId aid) s1 in
            (Success 201 {| r_application := Some aid; r_chatId := None;
                            r_workspaceId := None; r_message := None |}, s2)
          end
        end
      end
    | _, _ => (Failure 400 MissingFields, s)
    end
  end.

Definition with_status (st : AppStatus) (a : Application) : Application :=
  {| a_project := a_project a; a_freelancer := a_freelancer a;
     a_client := a_client a; a_coverLetter := a_coverLetter a;
     a_proposedRate := a_proposedRate a;
     a_proposedTimeline := a_proposedTimeline a;
     a_status := st;
     a_respondedAt := a_respondedAt a; a_negotiatedAt := a_negotiatedAt a |}.

Definition with_respondedAt (now : Time) (a : Application) : Application :=
  {| a_project := a_project a; a_freelancer := a_freelancer a;
     a_client := a_client a; a_coverLetter := a_coverLetter a;
     a_proposedRate := a_proposedRate a;
     a_proposedTimeline := a_proposedTimeline a;
     a_status := a_status a;
     a_respondedAt := Some now; a_negotiatedAt := a_negotiatedAt a |}.

(** [DELETE /api/applications/:applicationId]. *)
Definition withdraw (u : AuthUser) (applicationId : ObjectId) (s : State)
  : Result :=
  if negb (auth [RFreelancer] u) then (Failure 403 RoleNotAllowed, s) else
  match applications s !! applicationId with
  | None => (Failure 404 ApplicationNotFound, s)
  | Some application =>
    if decide (a_freelancer application ≠ userId u)
    then (Failure 403 NotYourApplication, s) else
    if decide (a_status application ≠ AsPending)
    then (Failure 400 CannotWithdraw, s) else
    (Success 200 no_payload,
     set_applications
       (saveAt applicationId (with_status AsWithdrawn application)
               (applications s)) s)
  end.

(** The assignments that award [project] to the sender of [application];
    the three award routes make the same ones. *)
Definition awardProject (project : Project) (application : Application)
    (applicationId : ObjectId) (now : Time) : Project :=
  {| p_client := p_client project;
     p_title := p_title project;
     p_status := PsAwarded;
     p_budgetAmount :=
       match p_agreedPrice project with
       | Some agreed =>
           if Js.truthy agreed then Some agreed else p_budgetAmount project
       | None => p_budgetAmount project
       end;
     p_deadline := p_deadline project;
     p_agreedPrice := p_agreedPrice project;
     p_finalRate := Js.or_else (p_agreedPrice project) (a_proposedRate application);
     p_finalTimeline := a_proposedTimeline application;
     p_awardedTo := Some (a_freelancer application);
     p_awardedApplication := Some applicationId;
     p_awardedAt := Some now;
     p_priceLockedAt := p_priceLockedAt project;
     p_priceLockedBy := p_priceLockedBy project;
     p_negotiationHistory := p_negotiationHistory project;
     p_serviceChargePercentage := p_serviceChargePercentage project;
     p_serviceCharge := p_serviceCharge project;
     p_totalProjectValue := p_totalProjectValue project |}.

Definition open_for_decision (a : Application) : Prop :=
  a_status a = AsPending ∨ a_status a = AsAccepted.

(** [Application.updateMany({project, _id: {$ne: id}, status: {$in:
    ['pending', 'accepted']}}, {status: 'rejected'})]. *)
Definition rejectOthers (projectId applicationId : ObjectId)
    (apps : list Application) : list Application :=
  updateMany
    (λ i a, a_project a = projectId ∧ i ≠ applicationId ∧ open_for_decision a)
    (with_status AsRejected) apps.

Definition awardNotice (project : Project) (application : Application) : Content :=
  AwardNotice (p_title project)
              (Js.or_else (p_agreedPrice project) (a_proposedRate application))
              (a_proposedTimeline application).

Definition statusNotification (application : Application) (aid : ObjectId)
    (accepted : bool) : Notification :=
  {| n_userId := a_freelancer application; n_userRole := RFreelancer;
     n_kind := if accepted then NkProjectAwarded else NkApplicationRejected;
     n_projectId := a_project application; n_applicationId := aid |}.

(** The notification block of the two respond routes: building the payload
    reads [application.freelancer._id] inside the [try]. *)
Definition notifyStatus (application : Application) (aid : ObjectId)
    (accepted : bool) (s : State) : State :=
  match users s !! a_freelancer application with
  | Some _ => notify (statusNotification application aid accepted) s
  | None => s
  end.

(** [PUT /api/applications/:applicationId/respond]. *)
Definition respond (u : AuthUser) (applicationId : ObjectId) (action : string)
    (now : Time) (s : State) : Result :=
  if negb (auth [RClient] u) then (Failure 403 RoleNotAllowed, s) else
  if negb (bool_decide (action = "accept") || bool_decide (action = "reject"))
  then (Failure 400 InvalidAction, s) else
  match applications s !! applicationId with
  | None => (Failure 404 ApplicationNotFound, s)
  | Some loaded =>
    match projects s !! a_project loaded with
    | None => crash s                 (* [application.project.client] of [null] *)
    | Some populated =>
      if decide (p_client populated ≠ userId u)
      then (Failure 403 NotYourProject, s) else
      if negb (bool_decide (open_for_decision loaded))
      then (Failure 400 AlreadyRespondedTo, s) else
      let accept := bool_decide (action = "accept") in
      let application :=
        with_respondedAt now
          (with_status (if accept then AsAwarded else AsRejected) loaded) in
      if accept then
        match users s !! a_freelancer loaded with
        | None => crash s             (* [application.freelancer._id] of [null] *)
        | Some _ =>
          let projectId := a_project loaded in
          let project := awardProject populated application applicationId now in
          let s1 := set_projects (saveAt projectId project (projects s)) s in
          let s2 := set_applications
                      (rejectOthers projectId applicationId (applications s1)) s1 in
          let '(chatId, chat, s3) :=
            ChatModel.findOrCreate projectId applicationId (a_client loaded)
                                   (a_freelancer loaded) now s2 in
          let '(_, s4) :=
            ChatModel.postSystemMessage chatId chat (userId u)
              (awardNotice project application) now s3 in
          let s5 := set_applications
                      (saveAt applicationId application (applications s4)) s4 in
          let s6 := notifyStatus application applicationId true s5 in
          (Success 200 {| r_application := Some applicationId; r_chatId := None;
                          r_workspaceId := None; r_message := None |}, s6)
        end
      else
        let s1 := set_applications
                    (saveAt applicationId application (applications s)) s in
        let s2 := notifyStatus application applicationId false s1 in
        (Success 200 {| r_application := Some applicationId; r_chatId := None;
                        r_workspaceId := None; r_message := None |}, s2)
    end
  end.

(** The workspace block of the status route: [Workspace.findOne({project})],
    creating the workspace when there is none. *)
Definition findOrCreateWorkspace (projectId applicationId : ObjectId)
    (client freelancer : UserId) (s : State) : ObjectId * State :=
  match findOne (λ w, w_project w = projectId) (workspaces s) with
  | Some (wid, _) => (wid, s)
  | None =>
    let '(wid, ws) :=
      insertOne {| w_project := projectId; w_client := client;
                   w_freelancer := freelancer; w_application := applicationId |}
                (workspaces s) in
    (wid, set_workspaces ws s)
  end.

(** [PUT /api/applications/:applicationId/status]. *)
Definition updateStatus (u : AuthUser) (applicationId : ObjectId)
    (status : string) (now : Time) (s : State) : Result :=
  if negb (auth [RClient] u) then (Failure 403 RoleNotAllowed, s) else
  if negb (bool_decide (status = "accepted") || bool_decide (status = "rejected"))
  then (Failure 400 InvalidStatus, s) else
  match applications s !! applicationId with
  | None => (Failure 404 ApplicationNotFound, s)
  | Some loaded =>
    match projects s !! a_project loaded with
    | None => crash s                 (* [application.project.client] of [null] *)
    | Some populated =>
      if decide (p_client populated ≠ userId u)
      then (Failure 403 NotYourProject, s) else
      if negb (bool_decide (open_for_decision loaded))
      then (Failure 400 AlreadyRespondedTo, s) else
      let accepted := bool_decide (status = "accepted") in
      let application :=
        with_respondedAt now
          (with_status (if accepted then AsAwarded else AsRejected) loaded) in
      if accepted then
        match users s !! a_freelancer loaded with
        | None => crash s             (* [application.freelancer._id] of [null] *)
        | Some _ =>
          let projectId := a_project loaded in
          let project := awardProject populated application applicationId now in
          let s1 := set_projects (saveAt projectId project (projects s)) s in
          let s2 := set_applications
                      (rejectOthers projectId applicationId (applications s1)) s1 in
          let '(chatId, chat, s3) :=
            ChatModel.findOrCreate projectId applicationId (p_client populated)
                                   (a_freelancer loaded) now s2 in
          let '(_, s4) :=
            ChatModel.postSystemMessage chatId chat (userId u)
              (awardNotice project application) now s3 in
          let '(workspaceId, s5) :=
            findOrCreateWorkspace projectId applicationId (p_client populated)
                                  (a_freelancer loaded) s4 in
          let s6 := set_applications
                      (saveAt applicationId application (applications s5)) s5 in
          let s7 := notifyStatus application applicationId true s6 in
          (Success 200 {| r_application := Some applicationId;
                          r_chatId := Some chatId;
                          r_workspaceId := Some workspaceId;
                          r_message := None |}, s7)
        end
      else
        let s1 := set_applications
                    (saveAt applicationId application (applications s)) s in
        let s2 := notifyStatus application applicationId false s1 in
        (Success 200 {| r_application := Some applicationId; r_chatId := None;
                        r_workspaceId := None; r_message := None |}, s2)
    end
  end.

(** [PUT /api/applications/:applicationId/award]. *)
Definition award (u : AuthUser) (applicationId : ObjectId) (now : Time)
    (s : State) : Result :=
  if negb (auth [RClient] u) then (Failure 403 RoleNotAllowed, s) else
  match applications s !! applicationId with
  | None => (Failure 404 ApplicationNotFound, s)
  | Some loaded =>
    match users s !! a_client loaded with
    | None => crash s                 (* [application.client._id] of [null] *)
    | Some _ =>
      if decide (a_client loaded ≠ userId u)
      then (Failure 403 OnlyClientCanAward, s) else
      if negb (bool_decide (open_for_decision loaded))
      then (Failure 400 MustBePendingOrAccepted, s) else
      match projects s !! a_project loaded with
      | None => crash s               (* [application.project.status] of [null] *)
      | Some populated =>
        if bool_decide (p_status populated = PsAwarded)
           || bool_decide (p_status populated = PsInProgress)
        then (Failure 400 ProjectAlreadyAwarded, s) else
        let application := with_status AsAwarded loaded in
        let s1 := set_applications
                    (saveAt applicationId application (applications s)) s in
        match users s1 !! a_freelancer loaded with
        | None => crash s1            (* [application.freelancer._id] of [null] *)
        | Some _ =>
          let projectId := a_project loaded in
          let project := awardProject populated application applicationId now in
          let s2 := set_projects (saveAt projectId project (projects s1)) s1 in
          let s3 := set_applications
                      (rejectOthers projectId applicationId (applications s2)) s2 in
          let '(chatId, chat, s4) :=
            ChatModel.findOrCreate projectId applicationId (a_client loaded)
                                   (a_freelancer loaded) now s3 in
          let '(_, s5) :=
            ChatModel.postSystemMessage chatId chat (userId u)
              (awardNotice project application) now s4 in
          (Success 200 {| r_application := Some applicationId;
                          r_chatId := Some chatId;
                          r_workspaceId := None; r_message := None |}, s5)
        end
      end
    end
  end.

End Applications.

(** ** The chat routes ([routes/chats.js]) *)

Module Chats.

Record MessageBody := {
  mb_content : string;
  mb_messageType : option string;
  mb_offerDetails : option OfferDetails;
}.

(** The [enum] of [messageType]; validation refuses any other text. *)
Definition parseMessageType (t : string) : option MessageType :=
  if bool_decide (t = "text") then Some MtText
  else if bool_decide (t = "file") then Some MtFile
  else if bool_decide (t = "system") then Some MtSystem
  else if bool_decide (t = "offer") then Some MtOffer
  else None.

(** [offerDetails?.proposedRate]. *)
Definition offeredRate (od : option OfferDetails) : option Js.number :=
  od ≫= od_proposedRate.

(** [maxAllowed = project.budgetAmount * 1.20]. *)
Definition maxAllowed (budgetAmount : Js.number) : Js.number :=
  PrimFloat.mul budgetAmount 1.20%float.

(** The offer block of the send route: [Some why] when the offer is turned
    down, [None] when the message may be created. *)
Definition offerGuard (u : AuthUser) (chat : Chat) (messageType : string)
    (od : option OfferDetails) (s : State) : option Reason :=
  match offeredRate od with
  | Some proposedRate =>
    if bool_decide (messageType = "offer") && Js.truthy proposedRate then
      let project := projects s !! c_project chat in
      if Js.truthy_opt (project ≫= p_agreedPrice)
      then Some (PriceAlreadyLocked (Js.to_number (project ≫= p_agreedPrice)))
      else
        let senderParticipant := ChatModel.findParticipant chat (userId u) in
        match pt_role <$> senderParticipant, project ≫= p_budgetAmount with
        | Some RFreelancer, Some budgetAmount =>
            if Js.truthy budgetAmount
               && Js.gt proposedRate (maxAllowed budgetAmount)
            then Some (OfferExceedsMaximum (maxAllowed budgetAmount) budgetAmount)
            else None
        | _, _ => None
        end
    else None
  | None => None
  end.

(** [POST /api/chats/:chatId/messages]. *)
Definition sendMessage (u : AuthUser) (chatId : ObjectId) (body : MessageBody)
    (now : Time) (s : State) : Result :=
  if negb (auth [RClient; RFreelancer] u) then (Failure 403 RoleNotAllowed, s) else
  let content := mb_content body in
  let messageType := default "text" (mb_messageType body) in
  if negb (Js.nonempty content) && bool_decide (messageType = "text")
  then (Failure 400 ContentRequired, s) else
  if Js.nonempty content && (10000 <? Z.of_nat (String.length content))%Z
  then (Failure 400 (MessageTooLong (String.length content)), s) else
  match chats s !! chatId with
  | None => (Failure 404 ChatNotFound, s)
  | Some chat =>
    if negb (ChatModel.isParticipant chat (userId u))
    then (Failure 403 NotAParticipant, s) else
    if decide (c_status chat = CsClosed)
    then (Failure 400 ChatIsClosed, s) else
    match offerGuard u chat messageType (mb_offerDetails body) s with
    | Some why => (Failure 400 why, s)
    | None =>
      match parseMessageType messageType with
      | None => crash s               (* validation of [messageType] on save *)
      | Some mt =>
        if negb (ChatModel.validContent (Typed content))
        then crash s                  (* validation of [content] on save *)
        else
          let message :=
            ChatModel.newMessage chatId (userId u) (Typed content) mt
              (mb_offerDetails body)
              (if decide (mt = MtOffer) then Some OsPending else None) now in
          let '(mid, ms) := insertOne message (messages s) in
          let s1 := set_messages ms s in
          let s2 := set_chats
                      (saveAt chatId (ChatModel.touch mid now chat) (chats s1)) s1 in
          (Success 201 {| r_application := None; r_chatId := Some chatId;
                          r_workspaceId := None; r_message := Some mid |}, s2)
      end
    end
  end.

Definition with_pstatus (st : ProjectStatus) (p : Project) : Project :=
  {| p_client := p_client p; p_title := p_title p; p_status := st;
     p_budgetAmount := p_budgetAmount p; p_deadline := p_deadline p;
     p_agreedPrice := p_agreedPrice p; p_finalRate := p_finalRate p;
     p_finalTimeline := p_finalTimeline p; p_awardedTo := p_awardedTo p;
     p_awardedApplication := p_awardedApplication p;
     p_awardedAt := p_awardedAt p; p_priceLockedAt := p_priceLockedAt p;
     p_priceLockedBy := p_priceLockedBy p;
     p_negotiationHistory := p_negotiationHistory p;
     p_serviceChargePercentage := p_serviceChargePercentage p;
     p_serviceCharge := p_serviceCharge p;
     p_totalProjectValue := p_totalProjectValue p |}.

(** [PUT /api/chats/:chatId/close]. *)
Definition close (u : AuthUser) (chatId : ObjectId) (now : Time) (s : State)
  : Result :=
  if negb (auth [RClient] u) then (Failure 403 RoleNotAllowed, s) else
  match chats s !! chatId with
  | None => (Failure 404 ChatNotFound, s)
  | Some chat =>
    match projects s !! c_project chat with
    | None => crash s                 (* [chat.project.client] of [null] *)
    | Some project =>
      if decide (p_client project ≠ userId u)
      then (Failure 403 OnlyClientCanClose, s) else
      let s1 := set_chats
                  (saveAt chatId (ChatModel.with_status CsClosed chat) (chats s)) s in
      let '(_, ms) :=
        insertOne (ChatModel.newMessage chatId (userId u) ChatClosedNotice
                     MtSystem None None now) (messages s1) in
      (Success 200 no_payload, set_messages ms s1)
    end
  end.

Record AwardBody := {
  ab_finalRate : option Js.number;
  ab_finalTimeline : option Timeline;
  ab_terms : string;
}.

(** [POST /api/chats/:chatId/award]. *)
Definition award (u : AuthUser) (chatId : ObjectId) (body : AwardBody)
    (now : Time) (s : State) : Result :=
  if negb (auth [RClient] u) then (Failure 403 RoleNotAllowed, s) else
  match chats s !! chatId with
  | None => (Failure 404 ChatNotFound, s)
  | Some chat =>
    match projects s !! c_project chat with
    | None => crash s                 (* [chat.project.client] of [null] *)
    | Some project =>
      if decide (p_client project ≠ userId u)
      then (Failure 403 OnlyClientCanAward, s) else
      if decide (p_status project = PsCompleted)
      then (Failure 400 ProjectAlreadyCompleted, s) else
      let s1 := set_projects
                  (saveAt (c_project chat) (with_pstatus PsInProgress project)
                          (projects s)) s in
      let systemMessage :=
        ChatModel.newMessage chatId (userId u)
          (ChatAwardNotice (ab_finalRate body) (ab_finalTimeline body))
          MtSystem
          (Some {| od_proposedRate := ab_finalRate body;
                   od_timeline := ab_finalTimeline body;
                   od_description := ab_terms body |})
          None now in
      let '(mid, ms) := insertOne systemMessage (messages s1) in
      let s2 := set_messages ms s1 in
      let s3 := set_chats
                  (saveAt chatId (ChatModel.touch mid now chat) (chats s2)) s2 in
      (Success 200 no_payload, s3)
    end
  end.

(** [POST /api/chats/application/:applicationId]. *)
Definition createForApplication (u : AuthUser) (applicationId : ObjectId)
    (now : Time) (s : State) : Result :=
  if negb (auth [RClient; RFreelancer] u) then (Failure 403 RoleNotAllowed, s) else
  match applications s !! applicationId with
  | None => (Failure 404 ApplicationNotFound, s)
  | Some application =>
    match users s !! a_client application, users s !! a_freelancer application with
    | Some _, Some _ =>
      let isClient := bool_decide (a_client application = userId u) in
      let isFreelancer := bool_decide (a_freelancer application = userId u) in
      if negb isClient && negb isFreelancer
      then (Failure 403 NotInvolved, s) else
      match findOne (λ c, c_application c = applicationId) (chats s) with
      | Some (cid, _) =>
          (Success 200 {| r_application := None; r_chatId := Some cid;
                          r_workspaceId := None; r_message := None |}, s)
      | None =>
        match projects s !! a_project application with
        | None => crash s             (* [application.project._id] of [null] *)
        | Some project =>
          let chat := ChatModel.newChat (a_project application) applicationId
                        (a_client application) (a_freelancer application) now in
          let '(cid, cs) := insertOne chat (chats s) in
          let s1 := set_chats cs s in
          let '(mid, ms) :=
            insertOne (ChatModel.newMessage cid (userId u)
                         (ChatStarted (p_title project)) MtSystem None None now)
                      (messages s1) in
          let s2 := set_messages ms s1 in
          let s3 := set_chats
                      (saveAt cid (ChatModel.with_lastMessage mid chat) (chats s2))
                      s2 in
          (Success 201 {| r_application := None; r_chatId := Some cid;
                          r_workspaceId := None; r_message := None |}, s3)
        end
      end
    | _, _ => crash s                 (* [._id] of a [null] user *)
    end
  end.

Definition with_offerStatus (st : OfferStatus) (m : Message) : Message :=
  {| m_chat := m_chat m; m_sender := m_sender m; m_content := m_content m;
     m_messageType := m_messageType m; m_offerDetails := m_offerDetails m;
     m_offerStatus := Some st; m_createdAt := m_createdAt m |}.

(** The entry pushed on [project.negotiationHistory]. *)
Definition historyEntry (chat : Chat) (message : Message) (od : OfferDetails)
    (st : OfferStatus) (responder : UserId) (now : Time) : NegotiationEntry :=
  {| ne_offeredBy := m_sender message;
     ne_offeredByRole := pt_role <$> ChatModel.findParticipant chat (m_sender message);
     ne_amount := od_proposedRate od;
     ne_timeline := od_timeline od;
     ne_status := st;
     ne_respondedBy := responder;
     ne_respondedAt := now |}.

(** [agreedAmount + Math.max(fixedServiceCharge, (agreedAmount *
    serviceChargePercentage) / 100)], with the defaults 5 and 35. *)
Definition totalProjectValue (project : Project) (agreedAmount : option Js.number)
  : Js.number :=
  let serviceChargePercentage :=
    Js.to_number (Js.or_else (p_serviceChargePercentage project) (Some 5%float)) in
  let fixedServiceCharge :=
    Js.to_number (Js.or_else (p_serviceCharge project) (Some 35%float)) in
  let amount := Js.to_number agreedAmount in
  PrimFloat.add amount
    (Js.max fixedServiceCharge
       (PrimFloat.div (PrimFloat.mul amount serviceChargePercentage) 100%float)).

(** The price lock written on the project when an offer is accepted. *)
Definition lockPrice (project : Project) (entry : NegotiationEntry)
    (od : OfferDetails) (now : Time) : Project :=
  {| p_client := p_client project;
     p_title := p_title project;
     p_status := p_status project;
     p_budgetAmount := od_proposedRate od;
     p_deadline := p_deadline project;
     p_agreedPrice := od_proposedRate od;
     p_finalRate := od_proposedRate od;
     p_finalTimeline := od_timeline od;
     p_awardedTo := p_awardedTo project;
     p_awardedApplication := p_awardedApplication project;
     p_awardedAt := p_awardedAt project;
     p_priceLockedAt := Some now;
     p_priceLockedBy := Some "offer_accepted";
     p_negotiationHistory := p_negotiationHistory project ++ [entry];
     p_serviceChargePercentage := p_serviceChargePercentage project;
     p_serviceCharge := p_serviceCharge project;
     p_totalProjectValue := Some (totalProjectValue project (od_proposedRate od)) |}.

Definition pushHistory (project : Project) (entry : NegotiationEntry) : Project :=
  {| p_client := p_client project;
     p_title := p_title project;
     p_status := p_status project;
     p_budgetAmount := p_budgetAmount project;
     p_deadline := p_deadline project;
     p_agreedPrice := p_agreedPrice project;
     p_finalRate := p_finalRate project;
     p_finalTimeline := p_finalTimeline project;
     p_awardedTo := p_awardedTo project;
     p_awardedApplication := p_awardedApplication project;
     p_awardedAt := p_awardedAt project;
     p_priceLockedAt := p_priceLockedAt project;
     p_priceLockedBy := p_priceLockedBy project;
     p_negotiationHistory := p_negotiationHistory project ++ [entry];
     p_serviceChargePercentage := p_serviceChargePercentage project;
     p_serviceCharge := p_serviceCharge project;
     p_totalProjectValue := p_totalProjectValue project |}.

(** The negotiated terms written on the application; it is promoted from
    pending to accepted, never to awarded. *)
Definition negotiated (a : Application) (od : OfferDetails) (now : Time)
  : Application :=
  {| a_project := a_project a; a_freelancer := a_freelancer a;
     a_client := a_client a; a_coverLetter := a_coverLetter a;
     a_proposedRate := od_proposedRate od;
     a_proposedTimeline := od_timeline od;
     a_status := if decide (a_status a = AsPending) then AsAccepted else a_status a;
     a_respondedAt := Some now; a_negotiatedAt := Some now |}.

(** [Message.updateMany({chat, messageType: 'offer', offerStatus: 'pending',
    _id: {$ne: id}}, {offerStatus: 'declined'})]. *)
Definition isPendingOffer (chatId : ObjectId) (m : Message) : Prop :=
  m_chat m = chatId ∧ m_messageType m = MtOffer ∧ m_offerStatus m = Some OsPending.

Definition declineOthers (chatId messageId : ObjectId) (ms : list Message)
  : list Message :=
  updateMany (λ i m, isPendingOffer chatId m ∧ i ≠ messageId)
             (with_offerStatus OsDeclined) ms.

(** The query [{project: chat.project, $or: [{freelancer:
    chat.participants[0].user}, {freelancer: chat.participants[1].user}]}]
    that matches an application to a chat. *)
Definition negotiatedBy (chat : Chat) (p0 p1 : Participant) (a : Application)
  : Prop :=
  a_project a = c_project chat
  ∧ (a_freelancer a = pt_user p0 ∨ a_freelancer a = pt_user p1).

#[global] Instance negotiatedBy_dec chat p0 p1 a :
  Decision (negotiatedBy chat p0 p1 a).
Proof. unfold negotiatedBy. apply _. Defined.

(** The block run when an offer with details is accepted. *)
Definition acceptOffer (u : AuthUser) (chat : Chat) (messageId : ObjectId)
    (message : Message) (od : OfferDetails) (now : Time) (s : State)
  : option State :=
  match c_participants chat with
  | p0 :: p1 :: _ =>
    let s1 :=
      match findOne (negotiatedBy chat p0 p1) (applications s) with
      | Some (aid, application) =>
          set_applications
            (saveAt aid (negotiated application od now) (applications s)) s
      | None => s
      end in
    let s2 :=
      match projects s1 !! c_project chat with
      | Some project =>
          let entry := historyEntry chat message od OsAccepted (userId u) now in
          set_projects
            (saveAt (c_project chat) (lockPrice project entry od now)
                    (projects s1)) s1
      | None => s1
      end in
    Some (set_messages (declineOthers (m_chat message) messageId (messages s2)) s2)
  | _ => None                         (* [chat.participants[i].user] of [undefined] *)
  end.

(** The block run when an offer with details is declined. *)
Definition declineOffer (u : AuthUser) (chat : Chat) (message : Message)
    (od : OfferDetails) (now : Time) (s : State) : State :=
  match projects s !! c_project chat with
  | Some project =>
      let entry := historyEntry chat message od OsDeclined (userId u) now in
      set_projects
        (saveAt (c_project chat) (pushHistory project entry) (projects s)) s
  | None => s
  end.

(** [PUT /api/chats/messages/:messageId/respond-to-offer]. *)
Definition respondToOffer (u : AuthUser) (messageId : ObjectId) (action : string)
    (now : Time) (s : State) : Result :=
  if negb (auth [RClient; RFreelancer] u) then (Failure 403 RoleNotAllowed, s) else
  if negb (bool_decide (action = "accept") || bool_decide (action = "decline"))
  then (Failure 400 InvalidAction, s) else
  match messages s !! messageId with
  | None => (Failure 404 MessageNotFound, s)
  | Some loaded =>
    if decide (m_messageType loaded ≠ MtOffer)
    then (Failure 400 NotAnOffer, s) else
    if decide (m_offerStatus loaded ≠ Some OsPending)
    then (Failure 400 (OfferAlreadyResponded (m_offerStatus loaded)), s) else
    match chats s !! m_chat loaded with
    | None => crash s                 (* [message.chat._id] of [null] *)
    | Some chat =>
      if negb (ChatModel.isParticipant chat (userId u))
      then (Failure 403 NotAParticipant, s) else
      match users s !! m_sender loaded with
      | None => crash s               (* [message.sender._id] of [null] *)
      | Some _ =>
        if decide (m_sender loaded = userId u)
        then (Failure 400 OwnOffer, s) else
        let accept := bool_decide (action = "accept") in
        let message :=
          with_offerStatus (if accept then OsAccepted else OsDeclined) loaded in
        let s1 := set_messages (saveAt messageId message (messages s)) s in
        let after :=
          match m_offerDetails message with
          | Some od =>
              if accept then acceptOffer u chat messageId message od now s1
              else Some (declineOffer u chat message od now s1)
          | None => Some s1
          end in
        match after with
        | None => crash s1
        | Some s2 =>
          match accept, m_offerDetails message with
          | true, None => crash s2    (* [message.offerDetails.proposedRate] *)
          | _, _ =>
            let content :=
              match accept, m_offerDetails message with
              | true, Some od =>
                  OfferAcceptedNotice (od_proposedRate od) (od_timeline od)
              | _, _ => OfferDeclinedNotice
              end in
            let '(rid, ms) :=
              insertOne (ChatModel.newMessage (m_chat message) (userId u) content
                           MtSystem None None now) (messages s2) in
            (Success 200 {| r_application := None;
                            r_chatId := Some (m_chat message);
                            r_workspaceId := None; r_message := Some rid |},
             set_messages ms s2)
          end
        end
      end
    end
  end.

End Chats.

(** ** The chat window of the client application ([ChatInterface]) *)

Module ChatInterface.

(** The offer form: each field as typed; the rate comes with the number
    [parseFloat] reads from it, and the completion date with the text
    [new Date(timeline).toLocaleDateString()] renders it as. *)
Record OfferForm := {
  of_rateText : string;
  of_rate : Js.number;
  of_timeline : Timeline;
  of_timelineDisplay : string;
  of_description : string;
}.

Inductive Toast :=
| FillInRateAndDate
| PriceIsLocked
| OfferAboveCap (maxAllowed clientBudget : Js.number)
| DateExceedsDeadline (deadline : Z).

(** [handleSendOffer]: the checks the window makes before it posts an offer
    to the send route.  [project] is [chat?.project]. *)
Definition handleSendOffer (userRole : Role) (priceLocked : bool)
    (project : option Project) (form : OfferForm)
  : Toast + Chats.MessageBody :=
  if negb (Js.nonempty (of_rateText form))
     || negb (Js.nonempty (tl_text (of_timeline form)))
  then inl FillInRateAndDate else
  if priceLocked then inl PriceIsLocked else
  let rate := of_rate form in
  let clientBudget := project ≫= p_budgetAmount in
  let aboveCap :=
    match clientBudget with
    | Some budget =>
        if bool_decide (userRole = RFreelancer) && Js.truthy budget
           && Js.gt rate (PrimFloat.mul budget 1.20%float)
        then Some (OfferAboveCap (PrimFloat.mul budget 1.20%float) budget)
        else None
    | None => None
    end in
  match aboveCap with
  | Some toast => inl toast
  | None =>
    let pastDeadline :=
      match project ≫= p_deadline, tl_date (of_timeline form) with
      | Some deadline, Some proposedDate =>
          if (deadline <? proposedDate)%Z then Some (DateExceedsDeadline deadline)
          else None
      | _, _ => None
      end in
    match pastDeadline with
    | Some toast => inl toast
    | None =>
      inr {| Chats.mb_content :=
               "New offer: Rs." +:+ of_rateText form +:+ " - by "
               +:+ of_timelineDisplay form;
             Chats.mb_messageType := Some "offer";
             Chats.mb_offerDetails :=
               Some {| od_proposedRate := Some rate;
                       od_timeline := Some (of_timeline form);
                       od_description := of_description form |} |}
    end
  end.

End ChatInterface.

(** ** The REST surface as one transition function *)

Inductive Request :=
| Submit (u : AuthUser) (body : Applications.SubmitBody)
| Respond (u : AuthUser) (applicationId : ObjectId) (action : string) (now : Time)
| UpdateStatus (u : AuthUser) (applicationId : ObjectId) (status : string) (now : Time)
| Withdraw (u : AuthUser) (applicationId : ObjectId)
| Award (u : AuthUser) (applicationId : ObjectId) (now : Time)
| SendMessage (u : AuthUser) (chatId : ObjectId) (body : Chats.MessageBody) (now : Time)
| CloseChat (u : AuthUser) (chatId : ObjectId) (now : Time)
| ChatAward (u : AuthUser) (chatId : ObjectId) (body : Chats.AwardBody) (now : Time)
| CreateChat (u : AuthUser) (applicationId : ObjectId) (now : Time)
| RespondToOffer (u : AuthUser) (messageId : ObjectId) (action : string) (now : Time).

Definition handle (r : Request) (s : State) : Result :=
  match r with
  | Submit u body => Applications.submit u body s
  | Respond u aid action now => Applications.respond u aid action now s
  | UpdateStatus u aid status now => Applications.updateStatus u aid status now s
  | Withdraw u aid => Applications.withdraw u aid s
  | Award u aid now => Applications.award u aid now s
  | SendMessage u cid body now => Chats.sendMessage u cid body now s
  | CloseChat u cid now => Chats.close u cid now s
  | ChatAward u cid body now => Chats.award u cid body now s
  | CreateChat u aid now => Chats.createForApplication u aid now s
  | RespondToOffer u mid action now => Chats.respondToOffer u mid action now s
  end.

(** The store after a sequence of requests, served one after the other. *)
Definition run (rs : list Request) (s : State) : State :=
  foldl (λ st r, (handle r st).2) s rs.

(** ** Presence ([server.js]) *)

Module Presence.

Record UserData := {
  socketId : string;
  ud_userId : string;
  lastSeen : Time;
}.

(** [onlineUsers], a JavaScript [Map]: the entries in insertion order. *)
Abbreviation OnlineUsers := (list (string * UserData)).

Definition keys (m : OnlineUsers) : list string := m.*1.

Definition get (k : string) (m : OnlineUsers) : option UserData :=
  (λ r, r.2.2) <$> list_find (λ e, e.1 = k) m.

Definition has (k : string) (m : OnlineUsers) : bool :=
  bool_decide (is_Some (get k m)).

(** [Map.prototype.delete]. *)
Definition delete (k : string) (m : OnlineUsers) : OnlineUsers :=
  filter (λ e, e.1 ≠ k) m.

(** [Map.prototype.set]: an existing key keeps its place, a new one goes
    last. *)
Fixpoint set (k : string) (v : UserData) (m : OnlineUsers) : OnlineUsers :=
  match m with
  | [] => [(k, v)]
  | (k', v') :: rest =>
      if decide (k' = k) then (k, v) :: rest else (k', v') :: set k v rest
  end.

(** What a handler sends: the [online-users] snapshots, in order. *)
Definition Broadcast := list (list string).

(** The loop of [user-online] over [onlineUsers.entries()], which drops the
    user's entry when it belongs to another socket. *)
Definition dropStale (socket userId : string) (m : OnlineUsers) : OnlineUsers :=
  foldl (λ acc e,
           if bool_decide (e.1 = userId)
              && negb (bool_decide (socketId e.2 = socket))
           then delete e.1 acc else acc)
        m m.

(** [socket.on('user-online', userId)]. *)
Definition userOnline (socket userId : string) (now : Time) (m : OnlineUsers)
  : OnlineUsers * Broadcast :=
  if Js.nonempty userId then
    let m1 := dropStale socket userId m in
    let m2 := set userId {| socketId := socket; ud_userId := userId;
                            lastSeen := now |} m1 in
    (m2, [keys m2])
  else (m, []).

(** [socket.on('user-offline', userId)]. *)
Definition userOffline (userId : string) (m : OnlineUsers) : OnlineUsers :=
  if has userId m then delete userId m else m.

(** [socket.on('disconnect')]: the first entry of this socket is removed. *)
Definition disconnect (socket : string) (m : OnlineUsers)
  : OnlineUsers * Broadcast :=
  match list_find (λ e, socketId e.2 = socket) m with
  | Some (_, (removedUserId, _)) =>
      let m1 := delete removedUserId m in (m1, [keys m1])
  | None => (m, [])
  end.

Inductive Event :=
| UserOnline (socket userId : string) (now : Time)
| UserOffline (userId : string)
| Disconnect (socket : string).

Definition step (m : OnlineUsers) (e : Event) : OnlineUsers :=
  match e with
  | UserOnline socket userId now => (userOnline socket userId now m).1
  | UserOffline userId => userOffline userId m
  | Disconnect socket => (disconnect socket m).1
  end.

(** The map after the events, starting from the [new Map()] of start-up. *)
Definition after (es : list Event) : OnlineUsers := foldl step [] es.

End Presence.

(** ** More of the chat window ([ChatInterface]) *)

Module ChatWindow.

(** The price-lock flag [fetchChatDetails] sets from the chat it loads:
    locked when the project has an agreed price or is awarded or in
    progress. *)
Definition priceLocked (project : option Project) : bool :=
  match project with
  | Some p =>
      Js.truthy_opt (p_agreedPrice p)
      || bool_decide (p_status p = PsAwarded)
      || bool_decide (p_status p = PsInProgress)
  | None => false
  end.

Definition MAX_MESSAGE_LENGTH : Z := 10000.

Inductive Feedback :=
| Ignored
| MessageIsTooLong (len : nat).

(** [handleSendMessage]: the text typed is trimmed; an empty one is
    ignored, a long one reported, any other posted to the send route. *)
Definition handleSendMessage (newMessage : string)
  : Feedback + Chats.MessageBody :=
  let text := Js.trim newMessage in
  if negb (Js.nonempty text) then inl Ignored else
  if (MAX_MESSAGE_LENGTH <? Z.of_nat (String.length text))%Z
  then inl (MessageIsTooLong (String.length text)) else
  inr {| Chats.mb_content := text;
         Chats.mb_messageType := Some "text";
         Chats.mb_offerDetails := None |}.

(** The update [handleRespondToOffer] makes to a message of the window
    after the route has answered with success: the answered offer takes its
    new status and, after an acceptance, every other pending offer shown is
    declined. *)
Definition answered (messageId : ObjectId) (action : string)
    (id : ObjectId) (msg : Message) : Message :=
  if decide (id = messageId) then
    Chats.with_offerStatus
      (if bool_decide (action = "accept") then OsAccepted else OsDeclined) msg
  else if bool_decide (action = "accept")
          && bool_decide (m_messageType msg = MtOffer)
          && bool_decide (m_offerStatus msg = Some OsPending)
  then Chats.with_offerStatus OsDeclined msg
  else msg.

End ChatWindow.

(** ** The real-time hub ([server.js]): typing markers and calls *)

Module Realtime.

(** A JavaScript [Map] with string keys: the entries in insertion order. *)
Section JsMap.
Context {V : Type}.
Implicit Types (m : list (string * V)) (k : string) (v : V).

Definition mkeys m : list string := m.*1.

Definition mget k m : option V := (λ r, r.2.2) <$> list_find (λ e, e.1 = k) m.

Definition mhas k m : bool := bool_decide (is_Some (mget k m)).

Definition mdelete k m : list (string * V) := filter (λ e, e.1 ≠ k) m.

Fixpoint mset k v m : list (string * V) :=
  match m with
  | [] => [(k, v)]
  | (k', v') :: rest =>
      if decide (k' = k) then (k, v) :: rest else (k', v') :: mset k v rest
  end.
End JsMap.

Record TypingData := {
  td_userId : string;
  td_chatId : string;
  td_socketId : string;
  td_timestamp : Time;
}.

Record CallData := {
  cd_caller : string;
  cd_callee : string;
  cd_workspaceId : string;
  cd_startTime : Time;
}.

(** The three maps of the server. *)
Record Hub := {
  onlineUsers : list (string * Presence.UserData);
  typingUsers : list (string * TypingData);
  activeCalls : list (string * CallData);
}.

Definition start : Hub :=
  {| onlineUsers := []; typingUsers := []; activeCalls := [] |}.

(** Whom an event is sent to: every socket ([io.emit]), every socket but
    the sender ([socket.broadcast.emit]), the sockets of a room but the
    sender ([socket.to(room).emit]), one socket ([io.to(id).emit]), or the
    sender ([socket.emit]). *)
Inductive Target :=
| ToAll
| ToOthers
| ToRoom (room : string)
| ToSocket (socket : string)
| ToSender.

Inductive Signal :=
| OnlineUsersList (ids : list string)
| UserStatusChange (userId : string) (online : bool)
| UserTyping (userId chatId : string) (isTyping : bool)
| IncomingVideoCall (fromUser workspaceId : string)
| CallRequestSent (toUser : string)
| CallRequestFailed (toUser : string)
| CallError
| CallResponseReceived (callId : string) (accepted : bool)
| CallEnded (callId endedBy workspaceId : string).

Definition Emit : Type := Target * Signal.

(** The key of a typing marker, [`${chatId}-${userId}`]. *)
Definition typingKey (chatId userId : string) : string :=
  chatId +:+ "-" +:+ userId.

(** The loops [for (const [userId, userData] of onlineUsers.entries())]
    that look for one user and stop at it. *)
Definition socketOf (userId : string) (m : list (string * Presence.UserData))
  : option string :=
  (λ r, Presence.socketId r.2.2) <$> list_find (λ e, e.1 = userId) m.

Definition with_onlineUsers v (h : Hub) : Hub :=
  {| onlineUsers := v; typingUsers := typingUsers h;
     activeCalls := activeCalls h |}.
Definition with_typingUsers v (h : Hub) : Hub :=
  {| onlineUsers := onlineUsers h; typingUsers := v;
     activeCalls := activeCalls h |}.
Definition with_activeCalls v (h : Hub) : Hub :=
  {| onlineUsers := onlineUsers h; typingUsers := typingUsers h;
     activeCalls := v |}.

(** [socket.on('user-online', userId)]. *)
Definition userOnline (socket userId : string) (now : Time) (h : Hub)
  : Hub * list Emit :=
  if Js.nonempty userId then
    let m := (Presence.userOnline socket userId now (onlineUsers h)).1 in
    (with_onlineUsers m h,
     [ (ToAll, OnlineUsersList (Presence.keys m));
       (ToOthers, UserStatusChange userId true) ])
  else (h, []).

(** [socket.on('user-offline', userId)]. *)
Definition userOffline (userId : string) (h : Hub) : Hub * list Emit :=
  if Presence.has userId (onlineUsers h) then
    (with_onlineUsers (Presence.delete userId (onlineUsers h)) h,
     [ (ToOthers, UserStatusChange userId false) ])
  else (h, []).

(** [socket.on('typing-start', {userId, chatId})]. *)
Definition typingStart (socket userId chatId : string) (now : Time) (h : Hub)
  : Hub * list Emit :=
  (with_typingUsers
     (mset (typingKey chatId userId)
           {| td_userId := userId; td_chatId := chatId; td_socketId := socket;
              td_timestamp := now |}
           (typingUsers h)) h,
   [ (ToRoom chatId, UserTyping userId chatId true) ]).

(** [socket.on('typing-stop', {userId, chatId})]. *)
Definition typingStop (userId chatId : string) (h : Hub) : Hub * list Emit :=
  (with_typingUsers (mdelete (typingKey chatId userId) (typingUsers h)) h,
   [ (ToRoom chatId, UserTyping userId chatId false) ]).

(** [socket.on('video-call-request', callData)]. *)
Definition videoCallRequest (fromUser toUser workspaceId : string) (h : Hub)
  : Hub * list Emit :=
  if bool_decide (fromUser = toUser) then (h, [ (ToSender, CallError) ]) else
  match socketOf toUser (onlineUsers h) with
  | Some target =>
      (h, [ (ToSocket target, IncomingVideoCall fromUser workspaceId);
            (ToSender, CallRequestSent toUser) ])
  | None => (h, [ (ToSender, CallRequestFailed toUser) ])
  end.

(** [socket.on('video-call-response', responseData)]: an accepted call is
    tracked; the caller, when online, is told. *)
Definition videoCallResponse (callId callerId responderId workspaceId : string)
    (accepted : bool) (now : Time) (h : Hub) : Hub * list Emit :=
  let h1 :=
    if accepted then
      with_activeCalls
        (mset callId {| cd_caller := callerId; cd_callee := responderId;
                        cd_workspaceId := workspaceId; cd_startTime := now |}
              (activeCalls h)) h
    else h in
  (h1,
   match socketOf callerId (onlineUsers h1) with
   | Some target => [ (ToSocket target, CallResponseReceived callId accepted) ]
   | None => []
   end).

(** [socket.on('video-call-ended', data)]. *)
Definition videoCallEnded (callId targetUserId endedBy workspaceId : string)
    (h : Hub) : Hub * list Emit :=
  let h1 :=
    if mhas callId (activeCalls h)
    then with_activeCalls (mdelete callId (activeCalls h)) h else h in
  (h1,
   match socketOf targetUserId (onlineUsers h1) with
   | Some target => [ (ToSocket target, CallEnded callId endedBy workspaceId) ]
   | None => []
   end).

(** A call involves a user as its caller or its callee. *)
Definition involves (userId : string) (c : CallData) : bool :=
  bool_decide (cd_caller c = userId) || bool_decide (cd_callee c = userId).

(** The loop of [disconnect] over [activeCalls.entries()]: every call of
    the user who left is removed, and its other party, when online, is
    told. *)
Definition endCallsOf (removedUserId : string)
    (online : list (string * Presence.UserData))
    (calls : list (string * CallData)) : list (string * CallData) * list Emit :=
  foldl (λ acc e,
           if involves removedUserId e.2 then
             let otherUserId :=
               if bool_decide (cd_caller e.2 = removedUserId)
               then cd_callee e.2 else cd_caller e.2 in
             (mdelete e.1 acc.1,
              acc.2 ++
              match socketOf otherUserId online with
              | Some target =>
                  [ (ToSocket target,
                     CallEnded e.1 "disconnect" (cd_workspaceId e.2)) ]
              | None => []
              end)
           else acc)
        (calls, []) calls.

(** The loop of [disconnect] over [typingUsers.entries()]: every marker of
    the socket is removed and the others are told that the typing
    stopped. *)
Definition stopTypingOf (socket : string) (typing : list (string * TypingData))
  : list (string * TypingData) * list Emit :=
  foldl (λ acc e,
           if bool_decide (td_socketId e.2 = socket) then
             (mdelete e.1 acc.1,
              acc.2 ++ [ (ToOthers,
                          UserTyping (td_userId e.2) (td_chatId e.2) false) ])
           else acc)
        (typing, []) typing.

(** [socket.on('disconnect')]. *)
Definition disconnect (socket : string) (h : Hub) : Hub * list Emit :=
  let removed :=
    (λ r, r.2.1) <$> list_find (λ e, Presence.socketId e.2 = socket)
                               (onlineUsers h) in
  let online := (Presence.disconnect socket (onlineUsers h)).1 in
  let '(calls, emits1) :=
    match removed with
    | Some removedUserId =>
        if Js.nonempty removedUserId then
          let '(calls, ended) := endCallsOf removedUserId online (activeCalls h) in
          (calls,
           ended ++
           [ (ToOthers, OnlineUsersList (Presence.keys online));
             (ToOthers, UserStatusChange removedUserId false) ])
        else (activeCalls h, [])
    | None => (activeCalls h, [])
    end in
  let '(typing, emits2) := stopTypingOf socket (typingUsers h) in
  ({| onlineUsers := online; typingUsers := typing; activeCalls := calls |},
   emits1 ++ emits2).

(** [GET /api/users/online]. *)
Definition getOnlineUsers (h : Hub) : list string * nat :=
  (Presence.keys (onlineUsers h), length (onlineUsers h)).

Inductive Event :=
| UserOnline (socket userId : string) (now : Time)
| UserOffline (userId : string)
| TypingStart (socket userId chatId : string) (now : Time)
| TypingStop (userId chatId : string)
| VideoCallRequest (fromUser toUser workspaceId : string)
| VideoCallResponse (callId callerId responderId workspaceId : string)
                    (accepted : bool) (now : Time)
| VideoCallEnded (callId targetUserId endedBy workspaceId : string)
| Disconnect (socket : string).

Definition on (e : Event) (h : Hub) : Hub * list Emit :=
  match e with
  | UserOnline socket userId now => userOnline socket userId now h
  | UserOffline userId => userOffline userId h
  | TypingStart socket userId chatId now => typingStart socket userId chatId now h
  | TypingStop userId chatId => typingStop userId chatId h
  | VideoCallRequest fromUser toUser workspaceId =>
      videoCallRequest fromUser toUser workspaceId h
  | VideoCallResponse callId callerId responderId workspaceId accepted now =>
      videoCallResponse callId callerId responderId workspaceId accepted now h
  | VideoCallEnded callId targetUserId endedBy workspaceId =>
      videoCallEnded callId targetUserId endedBy workspaceId h
  | Disconnect socket => disconnect socket h
  end.

(** The hub after the events, from the empty maps of start-up. *)
Definition after (es : list Event) : Hub := foldl (λ h e, (on e h).1) start es.

End Realtime.

(** ** Featured badges ([routes/badges.js], [models/Badge.js]) *)

Module Badges.

(** A [UserBadge] document: the fields the feature route reads and
    writes. *)
Record UserBadge := {
  ub_user : UserId;
  ub_badge : ObjectId;
  ub_isFeatured : bool;
  ub_featuredOrder : Js.number;
}.

(** The body of the feature request: [featured], a JSON boolean, and
    [order], a JSON number that may be missing. *)
Record FeatureBody := {
  fb_featured : bool;
  fb_order : option Js.number;
}.

Inductive Refusal :=
| NotAFreelancer
| BadgeNotFound
| NotYourBadge
| TooManyFeatured.

Inductive Reply :=
| Updated (featured : bool)
| Refused (code : nat) (why : Refusal).

Definition featuredBy (userId : UserId) (b : UserBadge) : Prop :=
  ub_user b = userId ∧ ub_isFeatured b = true.

#[global] Instance featuredBy_dec userId b : Decision (featuredBy userId b).
Proof. unfold featuredBy. apply _. Defined.

(** [PUT /api/badges/feature/:userBadgeId]. *)
Definition feature (u : AuthUser) (userBadgeId : ObjectId) (body : FeatureBody)
    (badges : list UserBadge) : Reply * list UserBadge :=
  if negb (auth [RFreelancer] u) then (Refused 403 NotAFreelancer, badges) else
  match badges !! userBadgeId with
  | None => (Refused 404 BadgeNotFound, badges)
  | Some userBadge =>
    if decide (ub_user userBadge ≠ userId u)
    then (Refused 403 NotYourBadge, badges) else
    let featuredCount := countDocuments (featuredBy (userId u)) badges in
    if fb_featured body && (5 <=? featuredCount)%nat
       && negb (ub_isFeatured userBadge)
    then (Refused 400 TooManyFeatured, badges) else
    let saved :=
      {| ub_user := ub_user userBadge; ub_badge := ub_badge userBadge;
         ub_isFeatured := fb_featured body;
         ub_featuredOrder := default (ub_featuredOrder userBadge) (fb_order body) |} in
    (Updated (fb_featured body), saveAt userBadgeId saved badges)
  end.

(** The badges after a sequence of feature requests. *)
Definition featureAll (rs : list (AuthUser * ObjectId * FeatureBody))
    (badges : list UserBadge) : list UserBadge :=
  foldl (λ bs r, (feature r.1.1 r.1.2 r.2 bs).2) badges rs.

End Badges.

(** * The vocabulary of the properties *)

(** ** What a request does to users, projects and applications *)

(** The part of the store the award invariant speaks about is untouched. *)
Definition same_core (s s' : State) : Prop :=
  users s' = users s ∧ projects s' = projects s
  ∧ applications s' = applications s.

(** How the status of one application may move in a request that awards
    nothing: it stays, or an undecided application is accepted, rejected or
    withdrawn. *)
Definition quiet (b b' : Application) : Prop :=
  a_project b' = a_project b ∧ a_freelancer b' = a_freelancer b
  ∧ a_client b' = a_client b
  ∧ (a_status b' = a_status b
     ∨ (Applications.open_for_decision b
        ∧ (a_status b' = AsAccepted ∨ a_status b' = AsRejected
           ∨ a_status b' = AsWithdrawn))).

(** A request that awards nothing and creates no application. *)
Record benign (s s' : State) : Prop := {
  benign_users : users s' = users s;
  benign_projects : ∀ i p', projects s' !! i = Some p' →
    ∃ p, projects s !! i = Some p
         ∧ (p_status p' = PsOpen → p_status p = PsOpen)
         ∧ p_client p' = p_client p;
  benign_applications : ∀ j b', applications s' !! j = Some b' →
    ∃ b, applications s !! j = Some b ∧ quiet b b';
}.

(** A request that stores a new, pending application for an open project. *)
Record submitted (s s' : State) : Prop := {
  submitted_users : users s' = users s;
  submitted_projects : projects s' = projects s;
  submitted_application : ∃ a p,
    applications s' = applications s ++ [a]
    ∧ a_status a = AsPending
    ∧ is_Some (users s !! a_freelancer a)
    ∧ projects s !! a_project a = Some p ∧ p_status p = PsOpen;
}.

(** A request that awards the project of application [aid] to its sender:
    the project becomes awarded, the application awarded, and every other
    undecided application of the project rejected. *)
Record awarding (aid : ObjectId) (s s' : State) : Prop := {
  awarding_users : users s' = users s;
  awarding_loaded : ∃ loaded p, applications s !! aid = Some loaded
    ∧ Applications.open_for_decision loaded
    ∧ projects s !! a_project loaded = Some p;
  awarding_projects : ∀ i p', projects s' !! i = Some p' →
    ∃ p, projects s !! i = Some p ∧ p_client p' = p_client p
      ∧ ((∃ loaded, applications s !! aid = Some loaded ∧ i = a_project loaded
                    ∧ p_status p' = PsAwarded)
         ∨ ((∀ loaded, applications s !! aid = Some loaded → i ≠ a_project loaded)
            ∧ p' = p));
  awarding_kept : ∀ j b, applications s !! j = Some b →
    is_Some (applications s' !! j);
  awarding_project_kept : ∀ i p, projects s !! i = Some p →
    is_Some (projects s' !! i);
  awarding_applications : ∀ j b', applications s' !! j = Some b' →
    ∃ b loaded, applications s !! j = Some b
      ∧ applications s !! aid = Some loaded
      ∧ a_project b' = a_project b ∧ a_freelancer b' = a_freelancer b
      ∧ a_client b' = a_client b
      ∧ (if decide (j = aid) then a_status b' = AsAwarded
         else if decide (a_project b = a_project loaded
                         ∧ Applications.open_for_decision b)
              then a_status b' = AsRejected
              else b' = b);
}.

(** The applications after an award, slot by slot. *)
Definition afterAward (projectId aid : ObjectId) (application : Application)
    (l : list Application) (j : nat) : option Application :=
  if decide (j = aid) then Some application
  else (λ a, if decide (a_project a = projectId ∧ Applications.open_for_decision a)
             then Applications.with_status AsRejected a else a) <$> l !! j.

(** What an award route writes on the projects: nothing, or the award of
    one stored project. *)
Definition awardWrite (s s' : State) : Prop :=
  projects s' = projects s
  ∨ ∃ pid populated a aid now,
      projects s !! pid = Some populated
      ∧ projects s' = saveAt pid (Applications.awardProject populated a aid now)
                             (projects s).

(** ** The award invariant *)

(** An application that lost: rejected or withdrawn. *)
Definition decided_against (b : Application) : Prop :=
  a_status b = AsRejected ∨ a_status b = AsWithdrawn.

(** In every store the routes build: an awarded application belongs to a
    project that is no longer open, every other application of that project
    is rejected or withdrawn, and the sender of every application is a
    stored user. *)
Record Inv (s : State) : Prop := {
  inv_closed : ∀ i a p, applications s !! i = Some a → a_status a = AsAwarded →
    projects s !! a_project a = Some p → p_status p ≠ PsOpen;
  inv_siblings : ∀ i a j b, applications s !! i = Some a →
    a_status a = AsAwarded → applications s !! j = Some b → j ≠ i →
    a_project b = a_project a → decided_against b;
  inv_freelancer : ∀ i a, applications s !! i = Some a →
    is_Some (users s !! a_freelancer a);
}.

(** The awarded applications of a project. *)
Definition awardedFor (projectId : ObjectId) (a : Application) : Prop :=
  a_project a = projectId ∧ a_status a = AsAwarded.

Definition awardedCount (s : State) (projectId : ObjectId) : nat :=
  countDocuments (awardedFor projectId) (applications s).

(** ** The terms of the claims *)

(** The requests that award a project: the award route, and the two respond
    routes when the client accepts. *)
Definition awards (r : Request) : Prop :=
  match r with
  | Award _ _ _ => True
  | UpdateStatus _ _ status _ => status = "accepted"
  | Respond _ _ action _ => action = "accept"
  | _ => False
  end.

(** The same call, made again at another time. *)
Definition again (now' : Time) (r : Request) : Request :=
  match r with
  | Award u aid _ => Award u aid now'
  | UpdateStatus u aid status _ => UpdateStatus u aid status now'
  | Respond u aid action _ => Respond u aid action now'
  | _ => r
  end.

(** The conflict each route reports on an application that is already
    decided. *)
Definition conflict (r : Request) : Reason :=
  match r with
  | Award _ _ _ => MustBePendingOrAccepted
  | _ => AlreadyRespondedTo
  end.


(** The timeline of the offer in [body] is a date after the deadline of the
    project of chat [cid]. *)
Definition timelineExceedsDeadline (s : State) (cid : ObjectId)
    (body : Chats.MessageBody) : Prop :=
  ∃ chat p od t deadline date,
    chats s !! cid = Some chat ∧ projects s !! c_project chat = Some p
    ∧ p_deadline p = Some deadline
    ∧ Chats.mb_offerDetails body = Some od ∧ od_timeline od = Some t
    ∧ tl_date t = Some date ∧ (deadline < date)%Z.

(** Every check of the submit route other than the rate cap passes. *)
Record submittable (u : AuthUser) (body : Applications.SubmitBody)
    (projectId : ObjectId) (project : Project) (s : State) : Prop := {
  sub_role : role u = RFreelancer;
  sub_profile : ∃ freelancer, users s !! userId u = Some freelancer
                  ∧ isFreelancerProfileComplete freelancer = true;
  sub_projectId : Applications.sb_projectId body = Some projectId;
  sub_coverLetter : Js.nonempty (Applications.sb_coverLetter body) = true;
  sub_timeline :
    Js.nonempty (tl_text (Applications.sb_proposedTimeline body)) = true;
  sub_project : projects s !! projectId = Some project;
  sub_open : p_status project = PsOpen;
  sub_deadline :
    Applications.exceedsDeadline project (Applications.sb_proposedTimeline body)
    = false;
  sub_first : findOne (λ a, a_project a = projectId ∧ a_freelancer a = userId u)
                (applications s) = None;
  sub_capacity :
    countDocuments (λ a, a_freelancer a = userId u ∧ Applications.ongoing a)
      (applications s) < 5;
  sub_client : is_Some (users s !! p_client project);
}.

Definition withRate (rate : Js.number) (body : Applications.SubmitBody)
  : Applications.SubmitBody :=
  {| Applications.sb_projectId := Applications.sb_projectId body;
     Applications.sb_coverLetter := Applications.sb_coverLetter body;
     Applications.sb_proposedRate := Some rate;
     Applications.sb_proposedTimeline := Applications.sb_proposedTimeline body |}.



(** The value of a finite number in units of 2^-1074, the smallest positive
    double: a whole number.  The infinities and [NaN] have none. *)
Definition scaled (x : Js.number) : option Z :=
  match Prim2SF x with
  | S754_zero _ => Some 0%Z
  | S754_finite s m e =>
      Some ((if s then Z.neg m else Z.pos m) * 2 ^ (e + 1074))%Z
  | _ => None
  end.

(** 120% of the budget as the specification has it, in exact arithmetic:
    [r] is exactly 120% of [B] when [5 r = 6 B]. *)
Definition exactly120 (B r : Js.number) : bool :=
  match scaled B, scaled r with
  | Some b, Some v => (5 * v =? 6 * b)%Z
  | _, _ => false
  end.

(** How often a user id occurs in the presence list. *)
Definition occurrences (userId : string) (m : list (string * Presence.UserData))
  : nat :=
  length (filter (λ k, k = userId) (Presence.keys m)).

(** ** Sample stores *)

Module Sample.

Definition bio : string :=
  "I build reliable web back ends and love clean, tested code!!".

Definition clientUser : User :=
  {| u_role := RClient; u_bio := ""; u_skills := [] |}.

Definition freelancerUser : User :=
  {| u_role := RFreelancer; u_bio := bio; u_skills := ["js"; "node"; "mongo"] |}.

(** An open project of user 0 with the given budget and a deadline at
    instant 1000. *)
Definition project (budget : Js.number) : Project :=
  {| p_client := 0; p_title := "Site"; p_status := PsOpen;
     p_budgetAmount := Some budget; p_deadline := Some 1000%Z;
     p_agreedPrice := None; p_finalRate := None; p_finalTimeline := None;
     p_awardedTo := None; p_awardedApplication := None; p_awardedAt := None;
     p_priceLockedAt := None; p_priceLockedBy := None;
     p_negotiationHistory := []; p_serviceChargePercentage := None;
     p_serviceCharge := None; p_totalProjectValue := None |}.

(** User 0 is a client, users 1 and 2 are freelancers; one project, no
    application yet. *)
Definition store (budget : Js.number) : State :=
  {| users := [clientUser; freelancerUser; freelancerUser];
     projects := [project budget];
     applications := []; chats := []; messages := []; workspaces := [];
     notifications := [] |}.

Definition client : AuthUser := {| userId := 0; role := RClient |}.
Definition alice : AuthUser := {| userId := 1; role := RFreelancer |}.
Definition bob : AuthUser := {| userId := 2; role := RFreelancer |}.

Definition weeks : Timeline := {| tl_text := "2 weeks"; tl_date := None |}.
Definition late : Timeline := {| tl_text := "2031-01-01"; tl_date := Some 5000%Z |}.

Definition proposal (rate : Js.number) : Applications.SubmitBody :=
  {| Applications.sb_projectId := Some 0;
     Applications.sb_coverLetter := "I can do this";
     Applications.sb_proposedRate := Some rate;
     Applications.sb_proposedTimeline := weeks |}.

Definition offer (rate : Js.number) (timeline : Timeline) : Chats.MessageBody :=
  {| Chats.mb_content := "My offer";
     Chats.mb_messageType := Some "offer";
     Chats.mb_offerDetails :=
       Some {| od_proposedRate := Some rate; od_timeline := Some timeline;
               od_description := "" |} |}.

End Sample.

Module SampleChat.
Import Sample.

(** Alice applies, opens the chat and offers 800; the client offers 900 in
    the same chat.  Message 0 is the opening notice, 1 and 2 the offers. *)
Definition twoOffers : list Request :=
  [ Submit alice (proposal 900%float);
    CreateChat alice 0 1%Z;
    SendMessage alice 0 (offer 800%float weeks) 2%Z;
    SendMessage client 0 (offer 900%float weeks) 3%Z ].

Definition negotiating : State := run twoOffers (store 1000%float).
End SampleChat.

Module SampleOffer.
Import Sample.

(** Alice has applied to a project of budget 10000 and opened the chat. *)
Definition chatting : State :=
  run [Submit alice (proposal 9000%float); CreateChat alice 0 1%Z]
      (store 10000%float).

Definition offer5000 : Chats.MessageBody :=
  {| Chats.mb_content := "My offer";
     Chats.mb_messageType := Some "offer";
     Chats.mb_offerDetails :=
       Some {| od_proposedRate := Some 5000%float;
               od_timeline := Some weeks; od_description := "" |} |}.

(** The offer form filled with 5000 and a completion date (instant 5000)
    after the deadline of the project (instant 1000). *)
Definition lateForm : ChatInterface.OfferForm :=
  {| ChatInterface.of_rateText := "5000";
     ChatInterface.of_rate := 5000%float;
     ChatInterface.of_timeline := late;
     ChatInterface.of_timelineDisplay := "1/1/2031";
     ChatInterface.of_description := "" |}.
End SampleOffer.

Module SampleClosed.
Import Sample.

(** Alice's chat with the client, closed by the client. *)
Definition closed : State :=
  run [Submit alice (proposal 900%float); CreateChat alice 0 1%Z;
       CloseChat client 0 2%Z]
      (store 1000%float).

Definition hello : Chats.MessageBody :=
  {| Chats.mb_content := "hello"; Chats.mb_messageType := None;
     Chats.mb_offerDetails := None |}.
End SampleClosed.

Module SampleCap.
(** Alice's open chat with the client, on a project of the given budget. *)
Definition negotiation (budget : Js.number) : State :=
  set_projects [Sample.project budget] SampleOffer.chatting.

Definition huge : Js.number := 1e17%float.
End SampleCap.

Module SampleStarted.
Import Sample.

(** Alice and Bob have applied and Alice has opened her chat with the
    client, who has awarded the project in that chat: the project is in
    progress and both applications are still pending. *)
Definition started : State :=
  run [ Submit alice (proposal 900%float);
        Submit bob (proposal 950%float);
        CreateChat alice 0 1%Z;
        ChatAward client 0
          {| Chats.ab_finalRate := Some 900%float;
             Chats.ab_finalTimeline := Some weeks; Chats.ab_terms := "" |} 2%Z ]
      (store 1000%float).

Definition status (s : State) (aid : ObjectId) : option AppStatus :=
  a_status <$> applications s !! aid.

(** The status of the project and the freelancer it is awarded to. *)
Definition awarded (s : State) : option (ProjectStatus * option ObjectId) :=
  (λ p, (p_status p, p_awardedTo p)) <$> projects s !! 0.
End SampleStarted.

Module SamplePrice.
Import Sample.

(** Alice and Bob apply to the same project and each opens a chat with the
    client.  Alice offers 800 in chat 0 and Bob 900 in chat 1 (messages 2
    and 3); the client accepts Alice's offer. *)
Definition locked : State :=
  run [ Submit alice (proposal 900%float);
        Submit bob (proposal 950%float);
        CreateChat alice 0 1%Z;
        CreateChat bob 1 2%Z;
        SendMessage alice 0 (offer 800%float weeks) 3%Z;
        SendMessage bob 1 (offer 900%float weeks) 4%Z;
        RespondToOffer client 2 "accept" 5%Z ]
      (store 1000%float).

Definition agreedPrice (s : State) : option (option Js.number) :=
  p_agreedPrice <$> projects s !! 0.
End SamplePrice.

(** ** The writes of the routes *)

(** How a route may move the status of an application: a pending one to
    any other status, an accepted one to awarded or rejected; a decided one
    (awarded, rejected, withdrawn) stays. *)
Definition app_moves (st st' : AppStatus) : Prop :=
  st' = st
  ∨ (st = AsPending ∧ st' ≠ AsPending)
  ∨ (st = AsAccepted ∧ (st' = AsAwarded ∨ st' = AsRejected)).

(** What a route may change on a stored application: the negotiated terms,
    the time stamps and, along [app_moves], the status. *)
Record app_step (b b' : Application) : Prop := {
  app_project : a_project b' = a_project b;
  app_freelancer : a_freelancer b' = a_freelancer b;
  app_client : a_client b' = a_client b;
  app_coverLetter : a_coverLetter b' = a_coverLetter b;
  app_status : app_moves (a_status b) (a_status b');
}.

(** What a route may change on a stored project: the award and price
    fields; the status only towards awarded or in progress; the negotiation
    history only by appending. *)
Record project_step (p p' : Project) : Prop := {
  prj_client : p_client p' = p_client p;
  prj_title : p_title p' = p_title p;
  prj_deadline : p_deadline p' = p_deadline p;
  prj_status : p_status p' = p_status p ∨ p_status p' = PsAwarded
               ∨ p_status p' = PsInProgress;
  prj_history : p_negotiationHistory p `prefix_of` p_negotiationHistory p';
}.

(** What a route may change on a stored chat: the last message and
    activity, and the status towards closed. *)
Record chat_step (c c' : Chat) : Prop := {
  cht_project : c_project c' = c_project c;
  cht_application : c_application c' = c_application c;
  cht_participants : c_participants c' = c_participants c;
  cht_status : c_status c' = c_status c ∨ c_status c' = CsClosed;
}.

(** What a route may change on a stored message: nothing, but for a pending
    offer, which may become accepted or declined. *)
Definition message_step (m m' : Message) : Prop :=
  m' = m
  ∨ (m_messageType m = MtOffer ∧ m_offerStatus m = Some OsPending
     ∧ (m' = Chats.with_offerStatus OsAccepted m
        ∨ m' = Chats.with_offerStatus OsDeclined m)).

(** One write of a route to the store. *)
Inductive Write (s : State) : State → Prop :=
| W_project i p p' :
    projects s !! i = Some p → project_step p p' →
    Write s (set_projects (saveAt i p' (projects s)) s)
| W_application i b b' :
    applications s !! i = Some b → app_step b b' →
    Write s (set_applications (saveAt i b' (applications s)) s)
| W_rejectOthers projectId applicationId :
    Write s (set_applications
               (Applications.rejectOthers projectId applicationId (applications s)) s)
| W_newApplication a :
    a_status a = AsPending →
    findOne (λ b, a_project b = a_project a ∧ a_freelancer b = a_freelancer a)
            (applications s) = None →
    Write s (set_applications (applications s ++ [a]) s)
| W_chat i c c' :
    chats s !! i = Some c → chat_step c c' →
    Write s (set_chats (saveAt i c' (chats s)) s)
| W_newChat c :
    findOne (λ c0, c_application c0 = c_application c) (chats s) = None →
    Write s (set_chats (chats s ++ [c]) s)
| W_message i m m' :
    messages s !! i = Some m → message_step m m' →
    Write s (set_messages (saveAt i m' (messages s)) s)
| W_declineOthers chatId messageId :
    Write s (set_messages (Chats.declineOthers chatId messageId (messages s)) s)
| W_newMessage m :
    Write s (set_messages (messages s ++ [m]) s)
| W_newWorkspace w :
    findOne (λ w0, w_project w0 = w_project w) (workspaces s) = None →
    Write s (set_workspaces (workspaces s ++ [w]) s)
| W_notify n :
    Write s (notify n s).

(** A sequence of writes. *)
Inductive Writes : State → State → Prop :=
| Writes_nil s : Writes s s
| Writes_snoc s1 s2 s3 : Writes s1 s2 → Write s2 s3 → Writes s1 s3.

(** What any sequence of writes keeps: no document is deleted or replaced
    by another one, and stored documents change only along the steps above;
    workspaces and notifications are only added. *)
Record evolves (s s' : State) : Prop := {
  ev_users : users s' = users s;
  ev_projects : ∀ i p, projects s !! i = Some p →
    ∃ p', projects s' !! i = Some p' ∧ project_step p p';
  ev_applications : ∀ i b, applications s !! i = Some b →
    ∃ b', applications s' !! i = Some b' ∧ app_step b b';
  ev_chats : ∀ i c, chats s !! i = Some c →
    ∃ c', chats s' !! i = Some c' ∧ chat_step c c';
  ev_messages : ∀ i m, messages s !! i = Some m →
    ∃ m', messages s' !! i = Some m' ∧ message_step m m';
  ev_workspaces : workspaces s `prefix_of` workspaces s';
  ev_notifications : notifications s `prefix_of` notifications s';
}.

(** The keys under which the routes look documents up before they create
    one: an application by project and freelancer, a chat by application, a
    workspace by project. *)
Definition applicationKeys (s : State) : list (ObjectId * UserId) :=
  (λ a, (a_project a, a_freelancer a)) <$> applications s.

Definition chatKeys (s : State) : list ObjectId := c_application <$> chats s.

Definition workspaceKeys (s : State) : list ObjectId :=
  w_project <$> workspaces s.

(** No two applications of one freelancer for one project, no two chats of
    one application, no two workspaces of one project. *)
Record Unique (s : State) : Prop := {
  unique_applications : NoDup (applicationKeys s);
  unique_chats : NoDup (chatKeys s);
  unique_workspaces : NoDup (workspaceKeys s);
}.

Module SampleAward.
Import Sample.

(** Alice and Bob have applied; the client accepted Alice's application
    through the status route, which rejected Bob's (application 1). *)
Definition decided : State :=
  run [ Submit alice (proposal 900%float);
        Submit bob (proposal 950%float);
        UpdateStatus client 0 "accepted" 10%Z ]
      (store 1000%float).

(** Attempts to decide Bob's application again, by every route. *)
Definition retries : list Request :=
  [ Award client 1 11%Z;
    UpdateStatus client 1 "accepted" 12%Z;
    Withdraw bob 1;
    Respond client 1 "accept" 13%Z ].
End SampleAward.

Module SampleHistory.
Import Sample.

(** In Alice's chat with the client, Alice's offer of 800 (message 1) has
    been declined and the client's offer of 900 (message 2) is pending. *)
Definition declined : State :=
  run [RespondToOffer client 1 "decline" 5%Z] SampleChat.negotiating.

(** The client awards the project in the chat, Alice accepts the pending
    offer, and the client closes the chat. *)
Definition closing : list Request :=
  [ ChatAward client 0
      {| Chats.ab_finalRate := Some 900%float;
         Chats.ab_finalTimeline := Some weeks; Chats.ab_terms := "" |} 6%Z;
    RespondToOffer alice 2 "accept" 7%Z;
    CloseChat client 0 8%Z ].
End SampleHistory.

Module SampleUnique.
Import Sample.

(** Two open projects of the client. *)
Definition twoProjects : State :=
  set_projects [project 1000%float; project 2000%float] (store 1000%float).

Definition proposalFor (projectId : ObjectId) (rate : Js.number)
  : Applications.SubmitBody :=
  {| Applications.sb_projectId := Some projectId;
     Applications.sb_coverLetter := "I can do this";
     Applications.sb_proposedRate := Some rate;
     Applications.sb_proposedTimeline := weeks |}.

(** Alice applies to the first project and Bob to the second; Alice
    applies to the first again and then to the second; each application
    gets its chat, Alice's first one on two requests; the client accepts
    Alice's first application and Bob's through the status route, tries
    Alice's second one, and asks for Bob's chat. *)
Definition requests : list Request :=
  [ Submit alice (proposalFor 0 900%float);
    Submit bob (proposalFor 1 1900%float);
    CreateChat alice 0 1%Z;
    CreateChat alice 0 2%Z;
    Submit alice (proposalFor 0 800%float);
    Submit alice (proposalFor 1 1800%float);
    CreateChat bob 1 3%Z;
    CreateChat alice 2 4%Z;
    UpdateStatus client 0 "accepted" 5%Z;
    UpdateStatus client 1 "accepted" 6%Z;
    UpdateStatus client 2 "accepted" 7%Z;
    CreateChat client 1 8%Z ].
End SampleUnique.

Module SampleCapacity.
Import Sample.

(** Six open projects of the client. *)
Definition sixProjects : State :=
  set_projects (replicate 6 (project 1000%float)) (store 1000%float).

(** Alice applies to the first five projects and the client awards each of
    them to her. *)
Definition busy : State :=
  run (flat_map (λ i, [ Submit alice (SampleUnique.proposalFor i 900%float);
                        UpdateStatus client i "accepted" 1%Z ])
                (seq 0 5))
      sixProjects.
End SampleCapacity.

Module SampleWithdrawn.
Import Sample.

(** Alice has applied and withdrawn her application. *)
Definition withdrawn : State :=
  run [Submit alice (proposal 900%float); Withdraw alice 0] (store 1000%float).
End SampleWithdrawn.

(** ** Who may ask for what *)

(** The caller of a request is entitled to it: the role fits the route, and
    the caller is the party the route serves (the sender of the application,
    the client of the project or of the application, a participant of the
    chat and, for an answer to an offer, not its sender). *)
Definition authorised (r : Request) (s : State) : Prop :=
  match r with
  | Submit u _ =>
      auth [RFreelancer] u = true ∧ is_Some (users s !! userId u)
  | Respond u aid _ _ | UpdateStatus u aid _ _ =>
      auth [RClient] u = true
      ∧ ∃ a p, applications s !! aid = Some a
          ∧ projects s !! a_project a = Some p ∧ p_client p = userId u
  | Withdraw u aid =>
      auth [RFreelancer] u = true
      ∧ ∃ a, applications s !! aid = Some a ∧ a_freelancer a = userId u
  | Award u aid _ =>
      auth [RClient] u = true
      ∧ ∃ a, applications s !! aid = Some a ∧ a_client a = userId u
  | SendMessage u cid _ _ =>
      auth [RClient; RFreelancer] u = true
      ∧ ∃ c, chats s !! cid = Some c
          ∧ ChatModel.isParticipant c (userId u) = true
  | CloseChat u cid _ | ChatAward u cid _ _ =>
      auth [RClient] u = true
      ∧ ∃ c p, chats s !! cid = Some c
          ∧ projects s !! c_project c = Some p ∧ p_client p = userId u
  | CreateChat u aid _ =>
      auth [RClient; RFreelancer] u = true
      ∧ ∃ a, applications s !! aid = Some a
          ∧ (a_client a = userId u ∨ a_freelancer a = userId u)
  | RespondToOffer u mid _ _ =>
      auth [RClient; RFreelancer] u = true
      ∧ ∃ m c, messages s !! mid = Some m ∧ chats s !! m_chat m = Some c
          ∧ ChatModel.isParticipant c (userId u) = true
          ∧ m_sender m ≠ userId u
  end.

Module SampleWindow.
Import Sample.

(** The offer form filled with 5000 and a completion date before the
    deadline of the project. *)
Definition form : ChatInterface.OfferForm :=
  {| ChatInterface.of_rateText := "5000";
     ChatInterface.of_rate := 5000%float;
     ChatInterface.of_timeline :=
       {| tl_text := "2030-01-01"; tl_date := Some 900%Z |};
     ChatInterface.of_timelineDisplay := "1/1/2030";
     ChatInterface.of_description := "" |}.

(** Alice's chat on the project of budget 10000, as it is stored once she
    has opened it. *)
Definition chat : Chat :=
  ChatModel.with_lastMessage 0 (ChatModel.newChat 0 0 0 1 1%Z).

Definition hello : Chats.MessageBody :=
  {| Chats.mb_content := "hello"; Chats.mb_messageType := Some "text";
     Chats.mb_offerDetails := None |}.
End SampleWindow.

(** ** The terms of the presence properties *)

(** How many users a socket is registered for in the presence list. *)
Definition registrations (socket : string)
    (m : list (string * Presence.UserData)) : nat :=
  length (filter (λ e, Presence.socketId e.2 = socket) m).

(** The typing markers a socket owns, and those it does not. *)
Definition markersOf (socket : string)
    (t : list (string * Realtime.TypingData)) : list (string * Realtime.TypingData) :=
  filter (λ e, Realtime.td_socketId e.2 = socket) t.

Definition markersOfOthers (socket : string)
    (t : list (string * Realtime.TypingData)) : list (string * Realtime.TypingData) :=
  filter (λ e, Realtime.td_socketId e.2 ≠ socket) t.

(** The calls that do not involve a user. *)
Definition callsWithout (userId : string)
    (c : list (string * Realtime.CallData)) : list (string * Realtime.CallData) :=
  filter (λ e, Realtime.involves userId e.2 = false) c.

(** The maps of the hub are maps, no key twice; and no user is online
    under the empty id. *)
Record wellFormed (h : Realtime.Hub) : Prop := {
  wf_online : NoDup (Presence.keys (Realtime.onlineUsers h));
  wf_nonempty : ∀ k, k ∈ Presence.keys (Realtime.onlineUsers h) →
                     Js.nonempty k = true;
  wf_typing : NoDup (Realtime.mkeys (Realtime.typingUsers h));
  wf_calls : NoDup (Realtime.mkeys (Realtime.activeCalls h));
}.

Module SampleHub.
Import Realtime.

(** Two users come online, each on a socket, and start a call; the second
    one starts typing in a chat. *)
Definition calling : list Event :=
  [ UserOnline "socketA" "u1" 1%Z;
    UserOnline "socketB" "u2" 2%Z;
    VideoCallRequest "u1" "u2" "w1";
    VideoCallResponse "call_1" "u1" "u2" "w1" true 3%Z;
    TypingStart "socketB" "u2" "chat1" 4%Z ].
End SampleHub.

(** ** The terms of the profile gate *)

(** A text of white space only. *)
Fixpoint blank (s : string) : bool :=
  match s with
  | String c r => Js.is_space c && blank r
  | EmptyString => true
  end.

Definition withBio (bio : string) (u : User) : User :=
  {| u_role := u_role u; u_bio := bio; u_skills := u_skills u |}.

(** ** The terms of the badge property *)

(** How many badges a user features. *)
Definition featuredCount (userId : UserId) (badges : list Badges.UserBadge) : nat :=
  countDocuments (Badges.featuredBy userId) badges.

Module SampleBadges.
(** Alice holds six badges and features none. *)
Definition six : list Badges.UserBadge :=
  (λ b, {| Badges.ub_user := 1; Badges.ub_badge := b;
           Badges.ub_isFeatured := false;
           Badges.ub_featuredOrder := 0%float |}) <$> seq 0 6.

(** She asks to feature each of them. *)
Definition featureEach : list (AuthUser * ObjectId * Badges.FeatureBody) :=
  (λ i, (Sample.alice, i,
         {| Badges.fb_featured := true; Badges.fb_order := None |})) <$> seq 0 6.
End SampleBadges.

(** * Properties *)

(** ** Lists as collections *)

Section CollectionFacts.
Context {A : Type}.
Implicit Types (l : list A) (x : A).

Lemma updateMany_lookup (P : nat → A → Prop) `{∀ i x, Decision (P i x)}
    (f : A → A) l i :
  updateMany P f l !! i = (λ x, if decide (P i x) then f x else x) <$> l !! i.
Proof. unfold updateMany. by rewrite list_lookup_imap. Qed.

Lemma updateMany_length (P : nat → A → Prop) `{∀ i x, Decision (P i x)}
    (f : A → A) l :
  length (updateMany P f l) = length l.
Proof. unfold updateMany. by rewrite length_imap. Qed.

Lemma saveAt_lookup_eq l i x y :
  l !! i = Some y → saveAt i x l !! i = Some x.
Proof.
  intros Hi. apply list_lookup_insert_eq. by eapply lookup_lt_Some.
Qed.

Lemma saveAt_lookup_ne l i j x : i ≠ j → saveAt i x l !! j = l !! j.
Proof. apply list_lookup_insert_ne. Qed.

Lemma saveAt_length l i x : length (saveAt i x l) = length l.
Proof. apply length_insert. Qed.

Lemma filter_none (P : A → Prop) `{∀ x, Decision (P x)} l :
  (∀ i x, l !! i = Some x → ¬ P x) → filter P l = [].
Proof.
  induction l as [|a l IH]; intros Hno; [done|].
  rewrite filter_cons_False; [|by apply (Hno 0)].
  apply IH. intros i x Hi. by apply (Hno (S i)).
Qed.

(** A query that at most one index can satisfy counts at most one
    document. *)
Lemma count_le_1 (P : A → Prop) `{∀ x, Decision (P x)} l :
  (∀ i j x y, l !! i = Some x → l !! j = Some y → P x → P y → i = j) →
  countDocuments P l ≤ 1.
Proof.
  unfold countDocuments. induction l as [|a l IH]; intros Huniq; [simpl; lia|].
  rewrite filter_cons. destruct (decide (P a)) as [Ha|Ha].
  - assert (filter P l = []) as ->; [|simpl; lia].
    apply filter_none. intros j y Hj Py.
    specialize (Huniq 0 (S j) a y eq_refl Hj Ha Py). lia.
  - apply IH. intros i j x y Hi Hj. intros Px Py.
    specialize (Huniq (S i) (S j) x y Hi Hj Px Py). lia.
Qed.

Lemma count_0 (P : A → Prop) `{∀ x, Decision (P x)} l :
  (∀ i x, l !! i = Some x → ¬ P x) → countDocuments P l = 0.
Proof.
  intros Hno. unfold countDocuments. by rewrite filter_none.
Qed.
End CollectionFacts.

(** ** Requests that leave users, projects and applications alone *)

Lemma same_core_refl s : same_core s s.
Proof. by repeat split. Qed.

Lemma findOrCreate_core pid aid c f now s :
  same_core s (ChatModel.findOrCreate pid aid c f now s).2.
Proof.
  unfold ChatModel.findOrCreate.
  destruct (findOne _ _) as [[cid chat]|]; simpl; by repeat split.
Qed.

Lemma postSystemMessage_core cid chat sender content now s :
  same_core s (ChatModel.postSystemMessage cid chat sender content now s).2.
Proof. by repeat split. Qed.

Lemma findOrCreateWorkspace_core pid aid c f s :
  same_core s (Applications.findOrCreateWorkspace pid aid c f s).2.
Proof.
  unfold Applications.findOrCreateWorkspace.
  destruct (findOne _ _) as [[wid w]|]; simpl; by repeat split.
Qed.

Lemma notifyStatus_core a aid b s :
  same_core s (Applications.notifyStatus a aid b s).
Proof.
  unfold Applications.notifyStatus. destruct (users s !! _); by repeat split.
Qed.

Lemma quiet_refl b : quiet b b.
Proof. repeat split; by left. Qed.

(** ** The award invariant is kept by every request *)

Lemma open_not_decided b :
  Applications.open_for_decision b → decided_against b → False.
Proof. intros [?|?] [?|?]; congruence. Qed.

Lemma Inv_benign s s' : benign s s' → Inv s → Inv s'.
Proof.
  intros [Hu Hp Ha] [H1 H2 H3]. split.
  - intros i a' p' Hi Hst Hp'.
    destruct (Ha _ _ Hi) as (a & Hia & Hpr & _ & _ & Hq).
    destruct (Hp _ _ Hp') as (p & Hip & Hps & _).
    intros Hop. apply Hps in Hop. revert Hop. rewrite Hpr in Hip.
    apply (H1 i a p); [done| |done].
    destruct Hq as [Hq|[_ Hq]]; [congruence|]. destruct Hq as [?|[?|?]]; congruence.
  - intros i a' j b' Hi Hst Hj Hne Hpr.
    destruct (Ha _ _ Hi) as (a & Hia & Hpa & _ & _ & Hqa).
    destruct (Ha _ _ Hj) as (b & Hjb & Hpb & _ & _ & Hqb).
    assert (a_status a = AsAwarded) as Hsa.
    { destruct Hqa as [Hq|[_ Hq]]; [congruence|]. destruct Hq as [?|[?|?]]; congruence. }
    assert (decided_against b) as Hdb.
    { apply (H2 i a j b); auto. congruence. }
    destruct Hqb as [Hq|[Hopen _]].
    + unfold decided_against. by rewrite Hq.
    + by destruct (open_not_decided b).
  - intros j b' Hj. destruct (Ha _ _ Hj) as (b & Hjb & _ & Hf & _).
    rewrite Hu, Hf. eauto.
Qed.

Lemma Inv_submitted s s' : submitted s s' → Inv s → Inv s'.
Proof.
  intros [Hu Hp (a0 & p0 & Ha & Hst0 & Hfr0 & Hp0 & Hopen0)] [H1 H2 H3].
  assert (∀ i a, applications s' !! i = Some a → a_status a = AsAwarded →
            applications s !! i = Some a) as Hold.
  { intros i a Hi Hst. rewrite Ha in Hi.
    apply lookup_app_Some in Hi as [Hi|[_ Hi]]; [done|].
    apply list_lookup_singleton_Some in Hi as [_ <-]. congruence. }
  split.
  - intros i a p Hi Hst. rewrite Hp. eauto.
  - intros i a j b Hi Hst Hj Hne Hpr.
    pose proof (Hold _ _ Hi Hst) as Hi'.
    rewrite Ha in Hj. apply lookup_app_Some in Hj as [Hj|[_ Hj]]; [eauto|].
    apply list_lookup_singleton_Some in Hj as [_ <-].
    rewrite Hpr in Hp0. by destruct (H1 i a p0).
  - intros i a Hi. rewrite Hu. rewrite Ha in Hi.
    apply lookup_app_Some in Hi as [Hi|[_ Hi]]; [eauto|].
    by apply list_lookup_singleton_Some in Hi as [_ <-].
Qed.

Lemma Inv_awarding aid s s' : awarding aid s s' → Inv s → Inv s'.
Proof.
  intros [Hu (loaded & p0 & Hld & Hopen & Hp0) Hp _ _ Ha] [H1 H2 H3].
  (* an application awarded after the request, other than [aid], was awarded
     before it and belongs to another project *)
  assert (∀ i a', applications s' !! i = Some a' → a_status a' = AsAwarded →
            i ≠ aid →
            applications s !! i = Some a' ∧ a_project a' ≠ a_project loaded)
    as Hold.
  { intros i a' Hi Hst Hne.
    destruct (Ha _ _ Hi) as (a & ld & Hia & Hld' & Hpr & _ & _ & Hcase).
    assert (ld = loaded) as -> by congruence.
    case_decide; [done|]. case_decide as Hc; [congruence|]. subst a'.
    split; [done|]. intros Hsame.
    destruct (open_not_decided loaded Hopen). by apply (H2 i a aid loaded). }
  split.
  - intros i a' p' Hi Hst Hp'.
    destruct (Hp _ _ Hp') as (p & Hip & _ & [(ld & Hld' & Hpid & Hps)|[Hother ->]]).
    + by rewrite Hps.
    + destruct (decide (i = aid)) as [Heq|Hne].
      * subst i. destruct (Ha _ _ Hi) as (a & ld & Hia & _ & Hpr & _).
        destruct (Hother a Hia). congruence.
      * destruct (Hold _ _ Hi Hst Hne) as [Hia _]. eauto.
  - intros i a' j b' Hi Hst Hj Hne Hpr.
    destruct (Ha _ _ Hj) as (b & ld & Hjb & Hld' & Hpb & _ & _ & Hcase).
    assert (ld = loaded) as -> by congruence.
    destruct (decide (i = aid)) as [Heq|Hia].
    + subst i. destruct (Ha _ _ Hi) as (a & ld & Hia & _ & Hpa & _).
      assert (a = loaded) as -> by congruence.
      case_decide; [done|]. case_decide as Hnot; [by left|]. subst b'.
      destruct (a_status b) eqn:Hsb; [..|by left|by right].
      * destruct Hnot. split; [congruence|by left].
      * destruct Hnot. split; [congruence|by right].
      * destruct (open_not_decided loaded Hopen).
        apply (H2 j b aid loaded); auto. congruence.
    + destruct (Hold _ _ Hi Hst Hia) as [Hia' Hother].
      case_decide as Hja.
      * subst j. assert (b = loaded) as -> by congruence. congruence.
      * case_decide; [by left|]. subst b'. by apply (H2 i a' j b).
  - intros j b' Hj.
    destruct (Ha _ _ Hj) as (b & ld & Hjb & _ & _ & Hf & _).
    rewrite Hu, Hf. eauto.
Qed.

Lemma Inv_awardedCount s projectId : Inv s → awardedCount s projectId ≤ 1.
Proof.
  intros [_ H2 _]. apply count_le_1.
  intros i j a b Hi Hj [Hpa Hsa] [Hpb Hsb].
  destruct (decide (j = i)) as [|Hne]; [done|].
  assert (decided_against b) as [?|?]; [|congruence..].
  apply (H2 i a j b); auto. congruence.
Qed.

Lemma benign_same_core s s' : same_core s s' → benign s s'.
Proof.
  intros (Hu & Hp & Ha). split; [done|..].
  - intros i p'. rewrite Hp. eauto.
  - intros j b'. rewrite Ha. eauto using quiet_refl.
Qed.

Lemma benign_refl s : benign s s.
Proof. apply benign_same_core, same_core_refl. Qed.

(** Saving one application whose status moved quietly awards nothing. *)
Lemma benign_save_application s s' i b b' :
  users s' = users s → projects s' = projects s →
  applications s' = saveAt i b' (applications s) →
  applications s !! i = Some b → quiet b b' → benign s s'.
Proof.
  intros Hu Hp Ha Hi Hq. split; [done|..].
  - intros k p'. rewrite Hp. eauto.
  - intros j c. rewrite Ha. destruct (decide (i = j)) as [<-|Hne].
    + erewrite saveAt_lookup_eq by done. intros [= <-]. eauto.
    + rewrite saveAt_lookup_ne by done. eauto using quiet_refl.
Qed.

(** Saving one project whose status and client stay awards nothing. *)
Lemma benign_save_project s s' i p p' :
  users s' = users s → applications s' = applications s →
  projects s' = saveAt i p' (projects s) →
  projects s !! i = Some p → (p_status p' = PsOpen → p_status p = PsOpen) →
  p_client p' = p_client p → benign s s'.
Proof.
  intros Hu Ha Hp Hi Hst Hcl. split; [done|..].
  - intros k q. rewrite Hp. destruct (decide (i = k)) as [<-|Hne].
    + erewrite saveAt_lookup_eq by done. intros [= <-]. eauto.
    + rewrite saveAt_lookup_ne by done. eauto.
  - intros j c. rewrite Ha. eauto using quiet_refl.
Qed.

Lemma benign_trans s1 s2 s3 : benign s1 s2 → benign s2 s3 → benign s1 s3.
Proof.
  intros [Hu1 Hp1 Ha1] [Hu2 Hp2 Ha2]. split; [congruence|..].
  - intros i p3 Hl3. destruct (Hp2 _ _ Hl3) as (p2 & Hl2 & ? & ?).
    destruct (Hp1 _ _ Hl2) as (p1 & Hl1 & ? & ?). exists p1.
    split_and!; [done|auto|congruence].
  - intros j b3 Hl3. destruct (Ha2 _ _ Hl3) as (b2 & Hl2 & ? & ? & ? & Hq2).
    destruct (Ha1 _ _ Hl2) as (b1 & Hl1 & ? & ? & ? & Hq1).
    exists b1. split; [done|]. split_and!; try congruence.
    destruct Hq1 as [Hq1|[Hop1 Hq1]].
    + destruct Hq2 as [Hq2|[Hop2 Hq2]]; [left; congruence|].
      right. split; [|done]. unfold Applications.open_for_decision in *.
      by rewrite <- Hq1.
    + destruct Hq2 as [Hq2|[Hop2 Hq2]]; [right; split; [done|]; by rewrite Hq2|].
      by right.
Qed.

Section SubmitFacts.
Import Applications.

Lemma submit_effect u body s :
  let s' := (submit u body s).2 in s' = s ∨ submitted s s'.
Proof.
  unfold submit, insertOne. repeat case_match; simpl; auto.
  right. simplify_eq/=. split; [done..|].
  match goal with
  | H : projects s !! _ = Some ?p |- _ => rename H into Hp; rename p into project
  end.
  eexists _, project. split; [reflexivity|]. simpl. split_and!; eauto.
  by destruct (p_status project).
Qed.

Lemma withdraw_effect u aid s : benign s (withdraw u aid s).2.
Proof.
  unfold withdraw. repeat case_match; simpl; try apply benign_refl.
  eapply benign_save_application; [done..|].
  unfold quiet. simpl. split_and!; try done.
  right. split; [left; by destruct (a_status _)|auto].
Qed.
End SubmitFacts.

Section AwardFacts.
Import Applications.

Lemma rejectOthers_lookup projectId aid l j :
  rejectOthers projectId aid l !! j =
  (λ a, if decide (a_project a = projectId ∧ j ≠ aid ∧ open_for_decision a)
        then with_status AsRejected a else a) <$> l !! j.
Proof. unfold rejectOthers. by rewrite updateMany_lookup. Qed.

Lemma save_reject_lookup projectId aid application l loaded j :
  l !! aid = Some loaded →
  saveAt aid application (rejectOthers projectId aid l) !! j
  = afterAward projectId aid application l j.
Proof.
  intros Hld. unfold afterAward. destruct (decide (j = aid)) as [->|Hne].
  - apply list_lookup_insert_eq. unfold rejectOthers.
    rewrite updateMany_length. by eapply lookup_lt_Some.
  - rewrite saveAt_lookup_ne by done. rewrite rejectOthers_lookup.
    destruct (l !! j) as [a|]; [simpl|done]. f_equal.
    repeat case_decide; naive_solver.
Qed.

Lemma reject_save_lookup projectId aid application l loaded j :
  l !! aid = Some loaded →
  rejectOthers projectId aid (saveAt aid application l) !! j
  = afterAward projectId aid application l j.
Proof.
  intros Hld. unfold afterAward. rewrite rejectOthers_lookup.
  destruct (decide (j = aid)) as [->|Hne].
  - erewrite saveAt_lookup_eq by done. simpl. f_equal.
    rewrite decide_False; naive_solver.
  - rewrite saveAt_lookup_ne by done.
    destruct (l !! j) as [a|]; [simpl|done]. f_equal.
    repeat case_decide; naive_solver.
Qed.

Lemma awarding_intro aid s s' loaded populated application project' :
  applications s !! aid = Some loaded →
  open_for_decision loaded →
  projects s !! a_project loaded = Some populated →
  users s' = users s →
  projects s' = saveAt (a_project loaded) project' (projects s) →
  p_status project' = PsAwarded →
  p_client project' = p_client populated →
  (∀ j, applications s' !! j
        = afterAward (a_project loaded) aid application (applications s) j) →
  a_status application = AsAwarded →
  a_project application = a_project loaded →
  a_freelancer application = a_freelancer loaded →
  a_client application = a_client loaded →
  awarding aid s s'.
Proof.
  intros Hld Hopen Hpop Hu Hp Hps Hpc Ha Hst Hpr Hfr Hcl. split; [done|eauto|..].
  - intros i p'. rewrite Hp. destruct (decide (a_project loaded = i)) as [<-|Hne].
    + erewrite saveAt_lookup_eq by done. intros [= <-].
      exists populated. split_and!; eauto.
    + rewrite saveAt_lookup_ne by done. intros Hi. exists p'.
      split_and!; try done. right. split; [|done].
      intros ld ?. congruence.
  - intros j b Hj. rewrite Ha. unfold afterAward.
    case_decide; [eauto|]. rewrite Hj. simpl. eauto.
  - intros i p Hi. rewrite Hp. apply lookup_lt_is_Some.
    rewrite saveAt_length. by eapply lookup_lt_Some.
  - intros j b'. rewrite Ha. unfold afterAward.
    destruct (decide (j = aid)) as [->|Hne].
    + intros [= <-]. exists loaded, loaded. split_and!; auto.
    + destruct (applications s !! j) as [b|] eqn:Hj; [simpl|done].
      intros [= <-]. exists b, loaded. split_and!; try done;
        case_decide; simpl; try done.
Qed.

End AwardFacts.

(** Names the store a helper returns and records that it kept users,
    projects and applications. *)
Ltac name_core :=
  match goal with
  | |- context [ChatModel.findOrCreate ?p ?a ?c ?f ?n ?s] =>
      let H := fresh "Hcore" in
      pose proof (findOrCreate_core p a c f n s) as H;
      destruct (ChatModel.findOrCreate p a c f n s) as [[? ?] ?];
      destruct H as (? & ? & ?)
  | |- context [ChatModel.postSystemMessage ?c ?ch ?u ?ct ?n ?s] =>
      let H := fresh "Hcore" in
      pose proof (postSystemMessage_core c ch u ct n s) as H;
      destruct (ChatModel.postSystemMessage c ch u ct n s) as [? ?];
      destruct H as (? & ? & ?)
  | |- context [Applications.findOrCreateWorkspace ?p ?a ?c ?f ?s] =>
      let H := fresh "Hcore" in
      pose proof (findOrCreateWorkspace_core p a c f s) as H;
      destruct (Applications.findOrCreateWorkspace p a c f s) as [? ?];
      destruct H as (? & ? & ?)
  | |- context [Applications.notifyStatus ?a ?i ?b ?s] =>
      let H := fresh "Hcore" in
      pose proof (notifyStatus_core a i b s) as H;
      generalize dependent (Applications.notifyStatus a i b s); intros ? H;
      destruct H as (? & ? & ?)
  end.

Section RespondFacts.
Import Applications.

Lemma quiet_reject now loaded :
  open_for_decision loaded →
  quiet loaded (with_respondedAt now (with_status AsRejected loaded)).
Proof. intros Hopen. unfold quiet; simpl. split_and!; auto. Qed.

Lemma respond_effect u aid action now s :
  let s' := (respond u aid action now s).2 in
  benign s s' ∨ awarding aid s s'.
Proof.
  unfold respond.
  destruct (negb (auth _ u)); [left; apply benign_refl|].
  destruct (negb _); [left; apply benign_refl|].
  destruct (applications s !! aid) as [loaded|] eqn:Hld; [|left; apply benign_refl].
  destruct (projects s !! a_project loaded) as [populated|] eqn:Hpop;
    [|left; apply benign_refl].
  destruct (decide _); [left; apply benign_refl|].
  destruct (bool_decide (open_for_decision loaded)) eqn:Hopen;
    [apply bool_decide_eq_true in Hopen|left; apply benign_refl].
  simpl negb. cbv iota.
  destruct (bool_decide (action = "accept")).
  - destruct (users s !! a_freelancer loaded); [|left; apply benign_refl].
    right. repeat name_core. simpl in *.
    eapply awarding_intro with
      (application := with_respondedAt now (with_status AsAwarded loaded))
      (project' := awardProject populated
         (with_respondedAt now (with_status AsAwarded loaded)) aid now);
      eauto; try congruence; try done.
    intros j. erewrite <- save_reject_lookup by done. congruence.
  - left. name_core. simpl in *.
    eapply benign_save_application; eauto using quiet_reject.
Qed.

Lemma updateStatus_effect u aid status now s :
  let s' := (updateStatus u aid status now s).2 in
  benign s s' ∨ awarding aid s s'.
Proof.
  unfold updateStatus.
  destruct (negb (auth _ u)); [left; apply benign_refl|].
  destruct (negb _); [left; apply benign_refl|].
  destruct (applications s !! aid) as [loaded|] eqn:Hld; [|left; apply benign_refl].
  destruct (projects s !! a_project loaded) as [populated|] eqn:Hpop;
    [|left; apply benign_refl].
  destruct (decide _); [left; apply benign_refl|].
  destruct (bool_decide (open_for_decision loaded)) eqn:Hopen;
    [apply bool_decide_eq_true in Hopen|left; apply benign_refl].
  simpl negb. cbv iota.
  destruct (bool_decide (status = "accepted")).
  - destruct (users s !! a_freelancer loaded); [|left; apply benign_refl].
    right. repeat name_core. simpl in *.
    eapply awarding_intro with
      (application := with_respondedAt now (with_status AsAwarded loaded))
      (project' := awardProject populated
         (with_respondedAt now (with_status AsAwarded loaded)) aid now);
      eauto; try congruence; try done.
    intros j. erewrite <- save_reject_lookup by done. congruence.
  - left. name_core. simpl in *.
    eapply benign_save_application; eauto using quiet_reject.
Qed.

(** The award route saves the application before it reads the populated
    freelancer; the sender of a stored application is a stored user, so
    that read does not fail. *)
Lemma award_effect u aid now s :
  (∀ i a, applications s !! i = Some a → is_Some (users s !! a_freelancer a)) →
  let s' := (award u aid now s).2 in
  benign s s' ∨ awarding aid s s'.
Proof.
  intros Hfr. unfold award.
  destruct (negb (auth _ u)); [left; apply benign_refl|].
  destruct (applications s !! aid) as [loaded|] eqn:Hld; [|left; apply benign_refl].
  destruct (users s !! a_client loaded); [|left; apply benign_refl].
  destruct (decide _); [left; apply benign_refl|].
  destruct (bool_decide (open_for_decision loaded)) eqn:Hopen;
    [apply bool_decide_eq_true in Hopen|left; apply benign_refl].
  simpl negb. cbv iota.
  destruct (projects s !! a_project loaded) as [populated|] eqn:Hpop;
    [|left; apply benign_refl].
  destruct (_ || _); [left; apply benign_refl|].
  simpl users. destruct (Hfr _ _ Hld) as [fr ->].
  right. repeat name_core. simpl in *.
  eapply awarding_intro with
    (application := with_status AsAwarded loaded)
    (project' := awardProject populated (with_status AsAwarded loaded) aid now);
    eauto; try congruence; try done.
  intros j. erewrite <- reject_save_lookup by done. congruence.
Qed.
End RespondFacts.

Section ChatFacts.
Import Chats.

Lemma sendMessage_core u cid body now s :
  same_core s (sendMessage u cid body now s).2.
Proof.
  unfold sendMessage, insertOne. repeat case_match; by repeat split.
Qed.

Lemma close_core u cid now s : same_core s (close u cid now s).2.
Proof. unfold close, insertOne. repeat case_match; by repeat split. Qed.

Lemma createForApplication_core u aid now s :
  same_core s (createForApplication u aid now s).2.
Proof.
  unfold createForApplication, insertOne. repeat case_match; by repeat split.
Qed.

Lemma chatAward_effect u cid body now s : benign s (award u cid body now s).2.
Proof.
  unfold award, insertOne. repeat case_match; simpl; try apply benign_refl.
  eapply benign_save_project; [done..|].
  done.
Qed.

Lemma quiet_negotiated a od now : quiet a (negotiated a od now).
Proof.
  unfold quiet, negotiated; simpl. split_and!; try done.
  case_decide as Hst; [|by left]. right. split; [by left|by left].
Qed.

Lemma acceptOffer_effect u chat mid message od now s s2 :
  acceptOffer u chat mid message od now s = Some s2 → benign s s2.
Proof.
  unfold acceptOffer. destruct (c_participants chat) as [|p0 [|p1 rest]]; try done.
  intros [= <-].
  set (s1 := match findOne _ (applications s) with
             | Some (aid, application) => _
             | None => s
             end).
  assert (benign s s1) as Hb1.
  { subst s1. destruct (findOne _ _) as [[aid application]|] eqn:Hfind;
      [|apply benign_refl].
    apply list_find_Some in Hfind as (Hl & _).
    eapply benign_save_application; eauto using quiet_negotiated. }
  eapply benign_trans; [exact Hb1|].
  destruct (projects s1 !! c_project chat) as [project|] eqn:Hp; simpl.
  - eapply benign_save_project; simpl; eauto.
  - apply benign_same_core. by repeat split.
Qed.

Lemma declineOffer_effect u chat message od now s :
  benign s (declineOffer u chat message od now s).
Proof.
  unfold declineOffer.
  destruct (projects s !! c_project chat) as [project|] eqn:Hp;
    [|apply benign_refl].
  eapply benign_save_project; simpl; eauto.
Qed.

Lemma respondToOffer_effect u mid action now s :
  benign s (respondToOffer u mid action now s).2.
Proof.
  unfold respondToOffer.
  destruct (negb (auth _ u)); [apply benign_refl|].
  destruct (negb _); [apply benign_refl|].
  destruct (messages s !! mid) as [loaded|]; [|apply benign_refl].
  destruct (decide _); [apply benign_refl|].
  destruct (decide _); [apply benign_refl|].
  destruct (chats s !! m_chat loaded) as [chat|]; [|apply benign_refl].
  destruct (negb _); [apply benign_refl|].
  destruct (users s !! m_sender loaded); [|apply benign_refl].
  destruct (decide _); [apply benign_refl|].
  set (message := with_offerStatus _ loaded).
  set (s1 := set_messages _ s).
  assert (benign s s1) as Hb1 by (apply benign_same_core; by repeat split).
  match goal with |- context [match ?a with Some _ => _ | None => crash s1 end] =>
    assert (∀ s2, a = Some s2 → benign s s2) as Hafter; [|destruct a as [s2|]]
  end.
  { intros s2. destruct (m_offerDetails message) as [od|]; [|by intros [= <-]].
    destruct (bool_decide (action = "accept")).
    - intros Hacc. eapply benign_trans; [exact Hb1|].
      by eapply acceptOffer_effect.
    - intros [= <-]. eapply benign_trans; [exact Hb1|].
      apply declineOffer_effect. }
  - specialize (Hafter s2 eq_refl).
    unfold insertOne. repeat case_match; simpl; try done;
      (eapply benign_trans; [exact Hafter|]);
      apply benign_same_core; by repeat split.
  - done.
Qed.
End ChatFacts.

(** Every request either awards nothing, stores a new pending application of
    an open project, or awards the project of one undecided application. *)
Lemma handle_effect r s :
  Inv s →
  let s' := (handle r s).2 in
  benign s s' ∨ submitted s s' ∨ ∃ aid, awarding aid s s'.
Proof.
  intros HI. destruct r; simpl.
  - destruct (submit_effect u body s) as [->|?]; auto using benign_refl.
  - destruct (respond_effect u applicationId action now s); eauto.
  - destruct (updateStatus_effect u applicationId status now s); eauto.
  - left. apply withdraw_effect.
  - destruct (award_effect u applicationId now s); eauto. apply HI.
  - left. apply benign_same_core, sendMessage_core.
  - left. apply benign_same_core, close_core.
  - left. apply chatAward_effect.
  - left. apply benign_same_core, createForApplication_core.
  - left. apply respondToOffer_effect.
Qed.

Lemma handle_Inv r s : Inv s → Inv (handle r s).2.
Proof.
  intros HI. destruct (handle_effect r s HI) as [?|[?|[aid ?]]];
    eauto using Inv_benign, Inv_submitted, Inv_awarding.
Qed.

Lemma run_Inv rs s : Inv s → Inv (run rs s).
Proof.
  revert s. induction rs as [|r rs IH]; intros s HI; [done|].
  apply IH, handle_Inv, HI.
Qed.

Lemma Inv_no_applications s : applications s = [] → Inv s.
Proof. intros Hno. split; rewrite Hno; intros; by simplify_list_eq. Qed.

(** ** C1: the agreed price of a project *)

(** C1 fails on the code.  Once the client has accepted Alice's offer the
    agreed price of the project is 800 and a new offer is refused as
    price-locked; but Bob's offer, sent before in another chat of the same
    project, is still pending, and accepting it succeeds and overwrites the
    agreed price with 900. *)
Theorem agreed_price_overwritten_across_chats :
  SamplePrice.agreedPrice SamplePrice.locked = Some (Some 800%float)
  ∧ (handle (SendMessage Sample.bob 1 (Sample.offer 850%float Sample.weeks) 6%Z)
            SamplePrice.locked).1
    = Failure 400 (PriceAlreadyLocked 800%float)
  ∧ (m_offerStatus <$> messages SamplePrice.locked !! 3) = Some (Some OsPending)
  ∧ http_code (handle (RespondToOffer Sample.client 3 "accept" 7%Z)
                      SamplePrice.locked).1 = 200
  ∧ SamplePrice.agreedPrice
      (handle (RespondToOffer Sample.client 3 "accept" 7%Z) SamplePrice.locked).2
    = Some (Some 900%float).
Proof. by vm_compute. Qed.

(** Sending a message and the three award routes leave the agreed price of
    every project as it was. *)
Lemma sendMessage_keeps_agreedPrice u cid body now s :
  projects (handle (SendMessage u cid body now) s).2 = projects s.
Proof. apply sendMessage_core. Qed.

Section AwardPrice.
Import Applications.

Lemma respond_projects u aid action now s :
  awardWrite s (respond u aid action now s).2.
Proof.
  unfold respond, awardWrite.
  destruct (negb (auth _ u)); [by left|].
  destruct (negb _); [by left|].
  destruct (applications s !! aid) as [loaded|] eqn:Hld; [|by left].
  destruct (projects s !! a_project loaded) as [populated|] eqn:Hpop; [|by left].
  destruct (decide _); [by left|].
  destruct (negb _); [by left|].
  destruct (bool_decide (action = "accept")).
  - destruct (users s !! a_freelancer loaded); [|by left].
    right. repeat name_core. simpl in *.
    do 5 eexists. split; [exact Hpop|].
    repeat match goal with H : projects ?x = _ |- projects ?x = _ => rewrite H end.
    reflexivity.
  - left. name_core. simpl in *. congruence.
Qed.

Lemma updateStatus_projects u aid status now s :
  awardWrite s (updateStatus u aid status now s).2.
Proof.
  unfold updateStatus, awardWrite.
  destruct (negb (auth _ u)); [by left|].
  destruct (negb _); [by left|].
  destruct (applications s !! aid) as [loaded|] eqn:Hld; [|by left].
  destruct (projects s !! a_project loaded) as [populated|] eqn:Hpop; [|by left].
  destruct (decide _); [by left|].
  destruct (negb _); [by left|].
  destruct (bool_decide (status = "accepted")).
  - destruct (users s !! a_freelancer loaded); [|by left].
    right. repeat name_core. simpl in *.
    do 5 eexists. split; [exact Hpop|].
    repeat match goal with H : projects ?x = _ |- projects ?x = _ => rewrite H end.
    reflexivity.
  - left. name_core. simpl in *. congruence.
Qed.

Lemma award_projects u aid now s : awardWrite s (award u aid now s).2.
Proof.
  unfold award, awardWrite.
  destruct (negb (auth _ u)); [by left|].
  destruct (applications s !! aid) as [loaded|] eqn:Hld; [|by left].
  destruct (users s !! a_client loaded); [|by left].
  destruct (decide _); [by left|].
  destruct (negb _); [by left|].
  destruct (projects s !! a_project loaded) as [populated|] eqn:Hpop; [|by left].
  destruct (_ || _); [by left|].
  simpl users. destruct (users s !! a_freelancer loaded); [|by left].
  right. repeat name_core. simpl in *.
  do 5 eexists. split; [exact Hpop|].
  repeat match goal with H : projects ?x = _ |- projects ?x = _ => rewrite H end.
  reflexivity.
Qed.
End AwardPrice.

(** An award never changes the agreed price of a project. *)
Lemma award_keeps_agreedPrice r s i :
  awards r →
  (p_agreedPrice <$> projects (handle r s).2 !! i)
  = (p_agreedPrice <$> projects s !! i).
Proof.
  intros Hr.
  assert (awardWrite s (handle r s).2) as [->|Hw]; [|done|].
  { destruct r; try done; simpl;
      auto using respond_projects, updateStatus_projects, award_projects. }
  destruct Hw as (pid & populated & a & aid & now & Hpop & ->).
  destruct (decide (pid = i)) as [->|Hne].
  - erewrite saveAt_lookup_eq by done. by rewrite Hpop.
  - by rewrite saveAt_lookup_ne by done.
Qed.

(** ** C2: at most one awarded application per project *)

(** C2.  Starting from a store that satisfies the award invariant (any store
    without applications does), after every sequence of requests each project
    has at most one awarded application; and a request that turns an
    application into an awarded one leaves every other application of the same
    project that was pending or accepted rejected. *)
Theorem at_most_one_award s0 rs :
  Inv s0 →
  (∀ projectId, awardedCount (run rs s0) projectId ≤ 1)
  ∧ (∀ r i a a' j b,
       let s := run rs s0 in
       let s' := (handle r s).2 in
       applications s !! i = Some a → a_status a ≠ AsAwarded →
       applications s' !! i = Some a' → a_status a' = AsAwarded →
       applications s !! j = Some b → j ≠ i →
       a_project b = a_project a → Applications.open_for_decision b →
       ∃ b', applications s' !! j = Some b' ∧ a_status b' = AsRejected).
Proof.
  intros HI0. pose proof (run_Inv rs s0 HI0) as HI. split.
  - intros projectId. by apply Inv_awardedCount.
  - intros r i a a' j b s s' Hi Hna Hi' Haw Hj Hne Hpr Hopen. subst s s'.
    destruct (handle_effect r _ HI) as [Hb|[Hs|[aid Haid]]].
    + destruct (benign_applications _ _ Hb _ _ Hi') as (a0 & Ha0 & _ & _ & _ & Hq).
      assert (a0 = a) as -> by congruence.
      destruct Hq as [Hq|[_ [?|[?|?]]]]; congruence.
    + destruct (submitted_application _ _ Hs) as (n & p & Happ & _).
      rewrite Happ in Hi'. erewrite lookup_app_l_Some in Hi' by done. congruence.
    + destruct (awarding_applications _ _ _ Haid _ _ Hi')
        as (a0 & loaded & Ha0 & Hld & _ & _ & _ & Hcase).
      assert (a0 = a) as -> by congruence.
      assert (i = aid) as ->.
      { case_decide; [done|]. case_decide; congruence. }
      assert (loaded = a) as -> by congruence.
      destruct (awarding_kept _ _ _ Haid _ _ Hj) as [b' Hj'].
      exists b'. split; [done|].
      destruct (awarding_applications _ _ _ Haid _ _ Hj')
        as (b0 & ld & Hb0 & Hld' & _ & _ & _ & Hcase').
      assert (b0 = b) as -> by congruence.
      assert (ld = a) as -> by congruence.
      rewrite decide_False in Hcase' by done.
      by rewrite decide_True in Hcase' by done.
Qed.

(** Scenario B: Alice and Bob have applied; the client accepts Alice's
    application, and Bob's is rejected. *)
Lemma at_most_one_award_witness :
  let s0 := Sample.store 1000%float in
  let rs := [Submit Sample.alice (Sample.proposal 900%float);
             Submit Sample.bob (Sample.proposal 950%float)] in
  let r := UpdateStatus Sample.client 0 "accepted" 10%Z in
  awardedCount (run (rs ++ [r]) s0) 0 ≤ 1
  ∧ ∃ b', applications (handle r (run rs s0)).2 !! 1 = Some b'
          ∧ a_status b' = AsRejected.
Proof.
  intros s0 rs r.
  assert (Inv s0) as HI by (by apply Inv_no_applications).
  split.
  - by apply (at_most_one_award s0 (rs ++ [r])).
  - eapply (proj2 (at_most_one_award s0 rs HI) r 0 _ _ 1 _);
      try (vm_compute; reflexivity); try (vm_compute; congruence).
    left. reflexivity.
Defined.

(** ** C3: awarding twice *)

Section AwardTwice.
Import Applications.

(** A successful award, by any of the three routes, comes from the client
    of the project and is an awarding step. *)
Lemma respond_accept_success u aid now s d s' :
  respond u aid "accept" now s = (Success 200 d, s') →
  auth [RClient] u = true
  ∧ (∃ loaded populated, applications s !! aid = Some loaded
       ∧ projects s !! a_project loaded = Some populated
       ∧ p_client populated = userId u)
  ∧ awarding aid s s'.
Proof.
  unfold respond.
  destruct (auth _ u); [|done]. simpl negb. cbv iota.
  destruct (applications s !! aid) as [loaded|] eqn:Hld; [|done].
  destruct (projects s !! a_project loaded) as [populated|] eqn:Hpop; [|done].
  destruct (decide _) as [|Hcl]; [done|]. apply dec_stable in Hcl.
  destruct (bool_decide (open_for_decision loaded)) eqn:Hopen;
    [apply bool_decide_eq_true in Hopen|done].
  simpl negb. cbv iota.
  destruct (users s !! a_freelancer loaded); [|done].
  intros Hrun. split; [done|]. split; [eauto|].
  apply (f_equal snd) in Hrun. simpl in Hrun. subst s'.
  repeat name_core. simpl in *.
  eapply awarding_intro with
    (application := with_respondedAt now (with_status AsAwarded loaded))
    (project' := awardProject populated
       (with_respondedAt now (with_status AsAwarded loaded)) aid now);
    eauto; try congruence; try done.
  intros j. erewrite <- save_reject_lookup by done. congruence.
Qed.

Lemma updateStatus_accepted_success u aid now s d s' :
  updateStatus u aid "accepted" now s = (Success 200 d, s') →
  auth [RClient] u = true
  ∧ (∃ loaded populated, applications s !! aid = Some loaded
       ∧ projects s !! a_project loaded = Some populated
       ∧ p_client populated = userId u)
  ∧ awarding aid s s'.
Proof.
  unfold updateStatus.
  destruct (auth _ u); [|done]. simpl negb. cbv iota.
  destruct (applications s !! aid) as [loaded|] eqn:Hld; [|done].
  destruct (projects s !! a_project loaded) as [populated|] eqn:Hpop; [|done].
  destruct (decide _) as [|Hcl]; [done|]. apply dec_stable in Hcl.
  destruct (bool_decide (open_for_decision loaded)) eqn:Hopen;
    [apply bool_decide_eq_true in Hopen|done].
  simpl negb. cbv iota.
  destruct (users s !! a_freelancer loaded); [|done].
  intros Hrun. split; [done|]. split; [eauto|].
  apply (f_equal snd) in Hrun. simpl in Hrun. subst s'.
  repeat name_core. simpl in *.
  eapply awarding_intro with
    (application := with_respondedAt now (with_status AsAwarded loaded))
    (project' := awardProject populated
       (with_respondedAt now (with_status AsAwarded loaded)) aid now);
    eauto; try congruence; try done.
  intros j. erewrite <- save_reject_lookup by done. congruence.
Qed.

Lemma award_success u aid now s d s' :
  award u aid now s = (Success 200 d, s') →
  auth [RClient] u = true
  ∧ (∃ loaded, applications s !! aid = Some loaded
       ∧ is_Some (users s !! a_client loaded)
       ∧ a_client loaded = userId u)
  ∧ awarding aid s s'.
Proof.
  unfold award.
  destruct (auth _ u); [|done]. simpl negb. cbv iota.
  destruct (applications s !! aid) as [loaded|] eqn:Hld; [|done].
  destruct (users s !! a_client loaded) eqn:Hcu; [|done].
  destruct (decide _) as [|Hcl]; [done|]. apply dec_stable in Hcl.
  destruct (bool_decide (open_for_decision loaded)) eqn:Hopen;
    [apply bool_decide_eq_true in Hopen|done].
  simpl negb. cbv iota.
  destruct (projects s !! a_project loaded) as [populated|] eqn:Hpop; [|done].
  destruct (_ || _); [done|].
  simpl users. destruct (users s !! a_freelancer loaded); [|done].
  intros Hrun. split; [done|]. split; [eauto|].
  apply (f_equal snd) in Hrun. simpl in Hrun. subst s'.
  repeat name_core. simpl in *.
  eapply awarding_intro with
    (application := with_status AsAwarded loaded)
    (project' := awardProject populated (with_status AsAwarded loaded) aid now);
    eauto; try congruence; try done.
  intros j. erewrite <- reject_save_lookup by done. simpl. congruence.
Qed.

(** What an awarding step leaves at the awarded application. *)
Lemma awarding_result aid s s' loaded :
  awarding aid s s' → applications s !! aid = Some loaded →
  ∃ a', applications s' !! aid = Some a' ∧ a_status a' = AsAwarded
        ∧ a_project a' = a_project loaded ∧ a_client a' = a_client loaded.
Proof.
  intros Haw Hld. destruct (awarding_kept _ _ _ Haw _ _ Hld) as [a' Ha'].
  destruct (awarding_applications _ _ _ Haw _ _ Ha')
    as (a0 & ld & Ha0 & _ & Hpr & _ & Hcl & Hcase).
  assert (a0 = loaded) as -> by congruence.
  rewrite decide_True in Hcase by done. eauto 10.
Qed.

Lemma awarding_project aid s s' i p :
  awarding aid s s' → projects s !! i = Some p →
  ∃ p', projects s' !! i = Some p' ∧ p_client p' = p_client p.
Proof.
  intros Haw Hp. destruct (awarding_project_kept _ _ _ Haw _ _ Hp) as [p' Hp'].
  destruct (awarding_projects _ _ _ Haw _ _ Hp') as (p0 & Hp0 & Hcl & _).
  exists p'. split; [done|]. congruence.
Qed.
End AwardTwice.

(** The repeated call.  When an award succeeds, the same call made a second
    time is answered 400 with the conflict message of its route, and the
    store it leaves is the store it found: no application, project or other
    document changes. *)
Lemma award_twice_conflict r s d s' now' :
  awards r →
  handle r s = (Success 200 d, s') →
  handle (again now' r) s' = (Failure 400 (conflict r), s').
Proof.
  destruct r; simpl; try done.
  - intros -> Hrun.
    destruct (respond_accept_success _ _ _ _ _ _ Hrun)
      as (Hauth & (loaded & populated & Hld & Hpop & Hcl) & Haw).
    destruct (awarding_result _ _ _ _ Haw Hld) as (a' & Ha' & Hst & Hpr & _).
    destruct (awarding_project _ _ _ _ _ Haw Hpop) as (p' & Hp' & Hcl').
    unfold Applications.respond. rewrite Hauth, Ha', Hpr, Hp'. simpl.
    rewrite decide_False by (intros Hne; apply Hne; congruence).
    rewrite bool_decide_eq_false_2; [done|].
    intros [?|?]; congruence.
  - intros -> Hrun.
    destruct (updateStatus_accepted_success _ _ _ _ _ _ Hrun)
      as (Hauth & (loaded & populated & Hld & Hpop & Hcl) & Haw).
    destruct (awarding_result _ _ _ _ Haw Hld) as (a' & Ha' & Hst & Hpr & _).
    destruct (awarding_project _ _ _ _ _ Haw Hpop) as (p' & Hp' & Hcl').
    unfold Applications.updateStatus. rewrite Hauth, Ha', Hpr, Hp'. simpl.
    rewrite decide_False by (intros Hne; apply Hne; congruence).
    rewrite bool_decide_eq_false_2; [done|].
    intros [?|?]; congruence.
  - intros _ Hrun.
    destruct (award_success _ _ _ _ _ _ Hrun)
      as (Hauth & (loaded & Hld & [cu Hcu] & Hcl) & Haw).
    destruct (awarding_result _ _ _ _ Haw Hld) as (a' & Ha' & Hst & _ & Hcl').
    unfold Applications.award.
    rewrite Hauth, Ha', Hcl', (awarding_users _ _ _ Haw), Hcu. simpl.
    rewrite decide_False by (intros Hne; apply Hne; congruence).
    rewrite bool_decide_eq_false_2; [done|].
    intros [?|?]; congruence.
Qed.

Lemma award_twice_conflict_witness :
  let s := run [Submit Sample.alice (Sample.proposal 900%float);
                Submit Sample.bob (Sample.proposal 950%float)]
               (Sample.store 1000%float) in
  let r := UpdateStatus Sample.client 0 "accepted" 10%Z in
  handle (again 11%Z r) (handle r s).2
  = (Failure 400 AlreadyRespondedTo, (handle r s).2).
Proof.
  intros s r.
  apply (award_twice_conflict r s
           {| r_application := Some 0; r_chatId := Some 0;
              r_workspaceId := Some 0; r_message := None |}
           (handle r s).2 11%Z).
  - reflexivity.
  - vm_compute. reflexivity.
Defined.

(** The award route refuses a project that is awarded or in progress, and
    leaves the store as it found it. *)
Lemma award_refuses_awarded_project u aid now s a p :
  applications s !! aid = Some a → projects s !! a_project a = Some p →
  p_status p = PsAwarded ∨ p_status p = PsInProgress →
  ∃ code why, handle (Award u aid now) s = (Failure code why, s).
Proof.
  intros Ha Hp Hst. simpl. unfold Applications.award. rewrite Ha, Hp.
  destruct (negb (auth _ u)); [by eauto|].
  destruct (users s !! a_client a); [|by unfold crash; eauto].
  destruct (decide _); [by eauto|].
  destruct (negb _); [by eauto|].
  assert (bool_decide (p_status p = PsAwarded)
          || bool_decide (p_status p = PsInProgress) = true) as ->; [|by eauto].
  destruct Hst as [->| ->]; done.
Qed.

(** The status route and the respond route never read the status of the
    project: the client's acceptance of a pending or accepted application is
    served whatever that status is. *)
Lemma respond_routes_award_any_project u aid now s a p :
  auth [RClient] u = true →
  applications s !! aid = Some a → Applications.open_for_decision a →
  projects s !! a_project a = Some p → p_client p = userId u →
  is_Some (users s !! a_freelancer a) →
  http_code (handle (UpdateStatus u aid "accepted" now) s).1 = 200
  ∧ http_code (handle (Respond u aid "accept" now) s).1 = 200.
Proof.
  intros Hauth Ha Hopen Hp Hcl [f Hf]. simpl.
  unfold Applications.updateStatus, Applications.respond.
  rewrite Hauth, Ha, Hp. simpl.
  rewrite decide_False by (intros Hne; apply Hne; congruence).
  rewrite bool_decide_eq_true_2 by done. simpl. rewrite Hf.
  split; repeat case_match; done.
Qed.

(** C3 fails on the code.  The client has awarded the project in Alice's
    chat: the project is in progress and the applications of Alice and Bob
    are pending.  The award route refuses to award Bob's application, as the
    project has already been awarded, and leaves the store as it is.  The
    status route and the respond route make no such check: each answers 200
    to the acceptance of Bob's application, awards it, rejects Alice's and
    awards the project, now to Bob. *)
Theorem award_repeated_on_awarded_project :
  let s := SampleStarted.started in
  let viaStatus := handle (UpdateStatus Sample.client 1 "accepted" 3%Z) s in
  let viaRespond := handle (Respond Sample.client 1 "accept" 3%Z) s in
  SampleStarted.awarded s = Some (PsInProgress, None)
  ∧ SampleStarted.status s 0 = Some AsPending
  ∧ SampleStarted.status s 1 = Some AsPending
  ∧ handle (Award Sample.client 1 3%Z) s = (Failure 400 ProjectAlreadyAwarded, s)
  ∧ http_code viaStatus.1 = 200
  ∧ SampleStarted.status viaStatus.2 1 = Some AsAwarded
  ∧ SampleStarted.status viaStatus.2 0 = Some AsRejected
  ∧ SampleStarted.awarded viaStatus.2 = Some (PsAwarded, Some 2)
  ∧ http_code viaRespond.1 = 200
  ∧ SampleStarted.status viaRespond.2 1 = Some AsAwarded
  ∧ SampleStarted.status viaRespond.2 0 = Some AsRejected
  ∧ SampleStarted.awarded viaRespond.2 = Some (PsAwarded, Some 2).
Proof. by vm_compute. Qed.

(** ** C4: offer, then acceptance *)

Section SendFacts.
Import Chats.

(** What a successful send stores: the message, last in the collection,
    and the chat with its last message and activity refreshed. *)
Lemma sendMessage_success u cid body now s d s1 :
  sendMessage u cid body now s = (Success 201 d, s1) →
  ∃ chat mt,
    chats s !! cid = Some chat
    ∧ parseMessageType (default "text" (mb_messageType body)) = Some mt
    ∧ r_message d = Some (length (messages s))
    ∧ s1 = set_chats
             (saveAt cid (ChatModel.touch (length (messages s)) now chat)
                     (chats s))
             (set_messages
                (messages s ++
                 [ChatModel.newMessage cid (userId u) (Typed (mb_content body))
                    mt (mb_offerDetails body)
                    (if decide (mt = MtOffer) then Some OsPending else None)
                    now]) s).
Proof.
  unfold sendMessage, insertOne. intros Hrun.
  repeat case_match; simplify_eq/=;
    do 2 eexists; (split_and!; [reflexivity..|]); by case_decide.
Qed.

Lemma isParticipant_touch mid now chat uid :
  ChatModel.isParticipant (ChatModel.touch mid now chat) uid
  = ChatModel.isParticipant chat uid.
Proof. done. Qed.
End SendFacts.

(** C4.  Take a chat of a stored project whose application (the one the
    accept route matches to the chat, by project and participants) is
    pending.  If an offer of 5000 is sent in it, and a participant other than
    its sender then accepts it, the acceptance succeeds and leaves the project
    with agreed price 5000 and the application with proposed rate 5000 and
    status accepted (so not awarded). *)
Theorem offer_round_trip sender responder cid chat p0 p1 rest app p
    content timeline description now1 now2 s d1 s1 mid :
  chats s !! cid = Some chat →
  c_participants chat = p0 :: p1 :: rest →
  findOne (Chats.negotiatedBy chat p0 p1) (applications s)
    = Some (c_application chat, app) →
  a_status app = AsPending →
  projects s !! c_project chat = Some p →
  is_Some (users s !! userId sender) →
  handle (SendMessage sender cid
            {| Chats.mb_content := content;
               Chats.mb_messageType := Some "offer";
               Chats.mb_offerDetails :=
                 Some {| od_proposedRate := Some 5000%float;
                         od_timeline := timeline;
                         od_description := description |} |} now1) s
    = (Success 201 d1, s1) →
  r_message d1 = Some mid →
  auth [RClient; RFreelancer] responder = true →
  ChatModel.isParticipant chat (userId responder) = true →
  userId responder ≠ userId sender →
  ∃ d2 s2 p' app',
    handle (RespondToOffer responder mid "accept" now2) s1 = (Success 200 d2, s2)
    ∧ projects s2 !! c_project chat = Some p'
    ∧ p_agreedPrice p' = Some 5000%float
    ∧ applications s2 !! c_application chat = Some app'
    ∧ a_proposedRate app' = Some 5000%float
    ∧ a_status app' = AsAccepted
    ∧ a_status app' ≠ AsAwarded.
Proof.
  intros Hchat Hparts Hfind Hpending Hproj [su Hsu] Hsend Hmid Hauth Hpart Hne.
  simpl in Hsend. apply sendMessage_success in Hsend
    as (chat' & mt & Hchat' & Hmt & Hmid' & ->).
  assert (chat' = chat) as -> by congruence.
  assert (mid = length (messages s)) as -> by congruence.
  simpl in Hmt. injection Hmt as <-.
  apply list_find_Some in Hfind as Hfind'. destruct Hfind' as (Happ & _ & _).
  simpl. unfold Chats.respondToOffer. rewrite Hauth. simpl.
  rewrite lookup_app_r by lia. rewrite Nat.sub_diag. simpl.
  erewrite saveAt_lookup_eq by done.
  rewrite isParticipant_touch, Hpart, Hsu. simpl.
  rewrite decide_False by congruence.
  unfold Chats.acceptOffer. simpl. rewrite Hparts.
  change (findOne (Chats.negotiatedBy (ChatModel.touch (length (messages s)) now1 chat) p0 p1))
    with (findOne (Chats.negotiatedBy chat p0 p1)).
  rewrite Hfind. simpl. rewrite Hproj. simpl.
  do 4 eexists. split; [reflexivity|]. simpl.
  erewrite !saveAt_lookup_eq by done.
  split_and!; try done; simpl; rewrite Hpending; done.
Qed.

Lemma offer_round_trip_witness :
  let s1 := (handle (SendMessage Sample.alice 0 SampleOffer.offer5000 2%Z)
                    SampleOffer.chatting).2 in
  ∃ d2 s2 p' app',
    handle (RespondToOffer Sample.client 1 "accept" 3%Z) s1 = (Success 200 d2, s2)
    ∧ projects s2 !! 0 = Some p'
    ∧ p_agreedPrice p' = Some 5000%float
    ∧ applications s2 !! 0 = Some app'
    ∧ a_proposedRate app' = Some 5000%float
    ∧ a_status app' = AsAccepted
    ∧ a_status app' ≠ AsAwarded.
Proof.
  intros s1.
  eapply (offer_round_trip Sample.alice Sample.client 0
            (ChatModel.with_lastMessage 0 (ChatModel.newChat 0 0 0 1 1%Z))
            _ _ [] _ (Sample.project 10000%float)
            "My offer" (Some Sample.weeks) "" 2%Z 3%Z SampleOffer.chatting
            {| r_application := None; r_chatId := Some 0;
               r_workspaceId := None; r_message := Some 1 |} s1 1);
    try (vm_compute; reflexivity); try (vm_compute; eauto; fail).
  vm_compute. congruence.
Defined.

(** ** C5: accepting an offer leaves no pending offer in the chat *)

Section OfferFacts.
Import Chats.

Lemma acceptOffer_messages u chat mid message od now s s2 :
  acceptOffer u chat mid message od now s = Some s2 →
  messages s2 = declineOthers (m_chat message) mid (messages s).
Proof.
  unfold acceptOffer. destruct (c_participants chat) as [|p0 [|p1 rest]]; try done.
  intros [= <-]. simpl. f_equal.
  destruct (findOne _ _) as [[aid application]|]; simpl;
    by destruct (_ !! c_project chat).
Qed.



End OfferFacts.



(** ** C6: the send route and the timeline of an offer *)

(** The chat window refuses an offer whose completion date is after the
    deadline of the project. *)
Lemma handleSendOffer_refuses_late userRole priceLocked project form deadline date :
  p_deadline project = Some deadline →
  tl_date (ChatInterface.of_timeline form) = Some date →
  (deadline < date)%Z →
  ∃ toast,
    ChatInterface.handleSendOffer userRole priceLocked (Some project) form
    = inl toast.
Proof.
  intros Hd Ht Hlt. unfold ChatInterface.handleSendOffer.
  destruct (_ || _); [eauto|]. destruct priceLocked; [eauto|].
  simpl. rewrite Hd, Ht.
  destruct (p_budgetAmount project) as [budget|]; simpl.
  - destruct (_ && _); [eauto|].
    rewrite (proj2 (Z.ltb_lt _ _) Hlt). eauto.
  - rewrite (proj2 (Z.ltb_lt _ _) Hlt). eauto.
Qed.

(** The send route never looks at the timeline of an offer: its reply is the
    same whatever timeline the offer carries. *)
Lemma send_ignores_timeline u cid content messageType rate description
    t1 t2 now s :
  let body t :=
    {| Chats.mb_content := content; Chats.mb_messageType := messageType;
       Chats.mb_offerDetails :=
         Some {| od_proposedRate := rate; od_timeline := t;
                 od_description := description |} |} in
  (handle (SendMessage u cid (body t1) now) s).1
  = (handle (SendMessage u cid (body t2) now) s).1.
Proof.
  simpl. unfold Chats.sendMessage, Chats.offerGuard, Chats.offeredRate, insertOne.
  simpl. repeat case_match; simplify_eq/=; done.
Qed.

(** C6 fails on the code.  Alice's offer of 5000 carries a completion date
    (instant 5000) after the deadline of the project (instant 1000).  The chat
    window refuses to post it, but the send route, which repeats the price
    lock and the rate cap of the window and not its deadline check, answers
    201 and stores the offer as pending. *)
Theorem offer_past_deadline_is_stored :
  let s := SampleOffer.chatting in
  let body := Sample.offer 5000%float Sample.late in
  let result := handle (SendMessage Sample.alice 0 body 2%Z) s in
  timelineExceedsDeadline s 0 body
  ∧ ChatInterface.handleSendOffer RFreelancer false (projects s !! 0)
      SampleOffer.lateForm
    = inl (ChatInterface.DateExceedsDeadline 1000%Z)
  ∧ http_code result.1 = 201
  ∧ length (messages result.2) = S (length (messages s))
  ∧ (m_offerStatus <$> messages result.2 !! 1) = Some (Some OsPending)
  ∧ (m_offerDetails <$> messages result.2 !! 1)
    = Some (Chats.mb_offerDetails body).
Proof.
  split; [|by vm_compute].
  exists (ChatModel.with_lastMessage 0 (ChatModel.newChat 0 0 0 1 1%Z)),
    (Sample.project 10000%float),
    {| od_proposedRate := Some 5000%float; od_timeline := Some Sample.late;
       od_description := "" |},
    Sample.late, 1000%Z, 5000%Z.
  by vm_compute.
Qed.

(** ** C7: the rate cap of a submission *)

(** On the sample project of budget 1000 a proposal of 1100 is answered 201,
    not 400. *)
Lemma submit_1100_is_created :
  http_code
    (handle (Submit Sample.alice (Sample.proposal 1100%float))
            (Sample.store 1000%float)).1 = 201.
Proof. by vm_compute. Qed.

Lemma submit_by_rate u body projectId project s rate :
  submittable u body projectId project s →
  Js.truthy rate = true →
  (handle (Submit u (withRate rate body)) s).1 =
  if Js.gt rate (Applications.maxAllowedRate project)
  then Failure 400 (RateExceedsCap (Applications.maxAllowedRate project)
                                   (p_budgetAmount project))
  else Success 201 {| r_application := Some (length (applications s));
                      r_chatId := None; r_workspaceId := None;
                      r_message := None |}.
Proof.
  intros [Hrole (fr & Hfr & Hcomplete) Hpid Hcover Htl Hproj Hopen Hdl Hfirst
            Hcap [cl Hcl]] Hrate.
  simpl. unfold Applications.submit, auth, Applications.parseFloat. rewrite Hrole.
  simpl. rewrite Hfr, Hcomplete. simpl. rewrite Hpid, Hcover, Hrate, Htl. simpl.
  rewrite Hproj. rewrite decide_False by (by rewrite Hopen; intros []).
  destruct (Js.gt rate _); [done|].
  rewrite Hdl, Hfirst.
  revert Hcap.
  generalize (countDocuments
                (λ a, a_freelancer a = userId u ∧ Applications.ongoing a)
                (applications s)).
  intros n Hn. rewrite Hcl.
  do 5 (destruct n as [|n]; [done|]). lia.
Qed.

(** C7, as the code has it.  For an open project of budget 1000 and a
    submission that passes the other checks, the proposed rates 1100, 1150 and
    1200 are all answered 201; the answer is 400 exactly when the rate is
    above the cap of 1200, as for 1201. *)
Theorem submit_cap_budget_1000 u body projectId project s :
  submittable u body projectId project s →
  p_budgetAmount project = Some 1000%float →
  http_code (handle (Submit u (withRate 1100%float body)) s).1 = 201
  ∧ http_code (handle (Submit u (withRate 1150%float body)) s).1 = 201
  ∧ http_code (handle (Submit u (withRate 1200%float body)) s).1 = 201
  ∧ (handle (Submit u (withRate 1201%float body)) s).1
    = Failure 400 (RateExceedsCap 1200%float (Some 1000%float))
  ∧ (∀ rate, Js.truthy rate = true →
       http_code (handle (Submit u (withRate rate body)) s).1 = 400
       ↔ Js.gt rate 1200%float = true).
Proof.
  intros Hsub Hbudget.
  assert (Applications.maxAllowedRate project = 1200%float) as Hcap.
  { unfold Applications.maxAllowedRate. by rewrite Hbudget. }
  split_and!.
  - by rewrite (submit_by_rate _ _ _ _ _ _ Hsub), Hcap.
  - by rewrite (submit_by_rate _ _ _ _ _ _ Hsub), Hcap.
  - by rewrite (submit_by_rate _ _ _ _ _ _ Hsub), Hcap.
  - by rewrite (submit_by_rate _ _ _ _ _ _ Hsub), Hcap, Hbudget.
  - intros rate Hrate. rewrite (submit_by_rate _ _ _ _ _ _ Hsub Hrate), Hcap.
    by destruct (Js.gt rate 1200%float).
Qed.

Lemma submit_cap_budget_1000_witness :
  (handle (Submit Sample.alice (withRate 1201%float (Sample.proposal 1100%float)))
          (Sample.store 1000%float)).1
  = Failure 400 (RateExceedsCap 1200%float (Some 1000%float)).
Proof.
  eapply (submit_cap_budget_1000 Sample.alice (Sample.proposal 1100%float) 0
            (Sample.project 1000%float) (Sample.store 1000%float)).
  - split; try (by vm_compute); [|vm_compute; lia|by eexists].
    eexists. split; [reflexivity|by vm_compute].
  - reflexivity.
Defined.

(** ** C8: the cap on a freelancer's offer *)





(** *** Numbers that are exactly 120% of a budget *)









(** The budgets left out.  For a budget of 1999 the product the route
    computes is 2398.7999999999997, below 120% of the budget, and the offer
    of 2398.8 is turned down; likewise 3.6 for a budget of 3.  The budget of
    1e17 of the counterexample is not among them: its product is exact. *)
Lemma rounded_cap_refuses_120_percent :
  let send B rate :=
    http_code (handle (SendMessage Sample.alice 0
                         (Sample.offer rate Sample.weeks) 2%Z)
                      (SampleCap.negotiation B)).1 in
  Chats.maxAllowed 1999%float = 2398.7999999999997%float
  ∧ exactly120 1999%float (Chats.maxAllowed 1999%float) = false
  ∧ send 1999%float 2398.8%float = 400
  ∧ Chats.maxAllowed 3%float = 3.5999999999999996%float
  ∧ exactly120 3%float (Chats.maxAllowed 3%float) = false
  ∧ send 3%float 3.6%float = 400
  ∧ exactly120 SampleCap.huge (Chats.maxAllowed SampleCap.huge) = true.
Proof. by vm_compute. Qed.

(** ** C9: the presence list *)

Section PresenceFacts.
Import Presence.
Implicit Types (m : list (string * UserData)) (k : string) (v : UserData).

Lemma keys_delete k m : keys (delete k m) = filter (λ k', k' ≠ k) (keys m).
Proof.
  unfold keys, delete. induction m as [|[k' v'] m IH]; [done|].
  rewrite fmap_cons, !filter_cons. simpl.
  destruct (decide (k' ≠ k)); simpl; by rewrite <- IH.
Qed.

Lemma NoDup_delete k m : NoDup (keys m) → NoDup (keys (delete k m)).
Proof. rewrite keys_delete. apply NoDup_filter. Qed.

Lemma delete_delete k m : delete k (delete k m) = delete k m.
Proof.
  unfold delete. induction m as [|[k' v'] m IH]; [done|].
  rewrite filter_cons. destruct (decide ((k', v').1 ≠ k)) as [Hne|]; [|done].
  rewrite filter_cons, decide_True by done. by rewrite IH.
Qed.

Lemma elem_of_keys_set k' k v m :
  k' ∈ keys (set k v m) ↔ k' = k ∨ k' ∈ keys m.
Proof.
  unfold keys. induction m as [|[k0 v0] m IH]; simpl.
  - rewrite list_elem_of_singleton, elem_of_nil. tauto.
  - destruct (decide (k0 = k)) as [->|Hne]; simpl;
      rewrite !elem_of_cons; [tauto|]. rewrite IH. tauto.
Qed.

Lemma NoDup_set k v m : NoDup (keys m) → NoDup (keys (set k v m)).
Proof.
  unfold keys. induction m as [|[k0 v0] m IH]; simpl.
  - intros _. apply NoDup_singleton.
  - rewrite NoDup_cons. intros [Hnin Hnd].
    destruct (decide (k0 = k)) as [->|Hne]; simpl; rewrite NoDup_cons.
    + done.
    + split; [|by apply IH]. intros Hin.
      apply (elem_of_keys_set k0 k v m) in Hin as [?|?]; done.
Qed.

Lemma get_set k v m : get k (set k v m) = Some v.
Proof.
  unfold get. induction m as [|[k0 v0] m IH]; simpl.
  - by rewrite decide_True.
  - destruct (decide (k0 = k)) as [->|Hne]; simpl.
    + by rewrite decide_True.
    + rewrite decide_False by done.
      destruct (list_find _ (set k v m)) as [[i e]|]; [|done].
      simpl in *. done.
Qed.

(** The loop of [user-online] leaves the map as it was or without the
    user. *)
Lemma dropStale_cases socket userId m :
  dropStale socket userId m = m ∨ dropStale socket userId m = delete userId m.
Proof.
  unfold dropStale.
  assert (∀ l acc, acc = m ∨ acc = delete userId m →
            let r := foldl (λ acc e,
                       if bool_decide (e.1 = userId)
                          && negb (bool_decide (socketId e.2 = socket))
                       then delete e.1 acc else acc) acc l in
            r = m ∨ r = delete userId m) as Hfold.
  { induction l as [|e l IH]; intros acc Hacc; [done|]. simpl. apply IH.
    destruct (bool_decide (e.1 = userId)) eqn:He; simpl; [|done].
    apply bool_decide_eq_true in He. rewrite He.
    destruct (negb _); [|done]. right.
    destruct Hacc as [->| ->]; [done|apply delete_delete]. }
  apply Hfold. by left.
Qed.

Lemma NoDup_dropStale socket userId m :
  NoDup (keys m) → NoDup (keys (dropStale socket userId m)).
Proof.
  intros Hnd. destruct (dropStale_cases socket userId m) as [-> | ->];
    auto using NoDup_delete.
Qed.

Lemma NoDup_step m e : NoDup (keys m) → NoDup (keys (step m e)).
Proof.
  intros Hnd. destruct e as [socket userId now|userId|socket]; simpl.
  - unfold userOnline. destruct (Js.nonempty userId); simpl; [|done].
    by apply NoDup_set, NoDup_dropStale.
  - unfold userOffline. destruct (has userId m); auto using NoDup_delete.
  - unfold disconnect.
    destruct (list_find _ m) as [[i [removedUserId d]]|]; simpl;
      auto using NoDup_delete.
Qed.

Lemma NoDup_foldl_step es m :
  NoDup (keys m) → NoDup (keys (foldl step m es)).
Proof.
  revert m. induction es as [|e es IH]; intros m Hnd; [done|].
  simpl. by apply IH, NoDup_step.
Qed.

Lemma count_once (l : list string) k :
  NoDup l → k ∈ l → length (filter (λ k', k' = k) l) = 1.
Proof.
  induction l as [|x l IH]; [by intros _ ?%elem_of_nil|].
  rewrite NoDup_cons. intros [Hnin Hnd] Hin. rewrite filter_cons.
  destruct (decide (x = k)) as [->|Hne]; simpl.
  - f_equal. rewrite filter_none; [done|].
    intros i y Hy ->. apply Hnin. by eapply list_elem_of_lookup_2.
  - apply IH; [done|]. by apply elem_of_cons in Hin as [?|?].
Qed.
End PresenceFacts.

(** C9.  After any sequence of [user-online], [user-offline] and [disconnect]
    events the presence list holds no user id twice; and when a user id is
    registered, on top of any earlier events (a registration of the same id
    from another socket included), the list holds it exactly once and its
    entry is the new connection. *)
Theorem presence_holds_each_user_once es :
  NoDup (Presence.keys (Presence.after es))
  ∧ ∀ socket userId now,
      Js.nonempty userId = true →
      let m := Presence.after (es ++ [Presence.UserOnline socket userId now]) in
      occurrences userId m = 1
      ∧ Presence.get userId m
        = Some {| Presence.socketId := socket; Presence.ud_userId := userId;
                  Presence.lastSeen := now |}.
Proof.
  split.
  - apply NoDup_foldl_step. apply NoDup_nil_2.
  - intros socket userId now Hne m. subst m. unfold Presence.after.
    rewrite foldl_app. simpl. unfold Presence.userOnline. rewrite Hne. simpl.
    split; [|apply get_set].
    apply count_once.
    + apply NoDup_set, NoDup_dropStale, NoDup_foldl_step, NoDup_nil_2.
    + apply elem_of_keys_set. by left.
Qed.

(** Scenario D: U connects from socket A, then again from socket B. *)
Lemma presence_holds_each_user_once_witness :
  let m := Presence.after [Presence.UserOnline "socketA" "U" 1%Z;
                           Presence.UserOnline "socketB" "U" 2%Z] in
  occurrences "U" m = 1
  ∧ Presence.get "U" m
    = Some {| Presence.socketId := "socketB"; Presence.ud_userId := "U";
              Presence.lastSeen := 2%Z |}.
Proof.
  apply (proj2 (presence_holds_each_user_once
                  [Presence.UserOnline "socketA" "U" 1%Z]) "socketB" "U" 2%Z).
  reflexivity.
Defined.

(** ** C10: sending to a closed chat *)

(** Bob, who is no participant of the closed chat 0, is answered 403, not
    400. *)
Lemma closed_chat_outsider_403 :
  (c_status <$> chats SampleClosed.closed !! 0) = Some CsClosed
  ∧ handle (SendMessage Sample.bob 0 SampleClosed.hello 3%Z) SampleClosed.closed
    = (Failure 403 NotAParticipant, SampleClosed.closed).
Proof. by vm_compute. Qed.

(** C10, as the code has it.  A message (offer or not) that a client or
    freelancer sends to a closed chat is never stored and the store stays as
    it was; the answer is 400 or 403.  It is 400 whenever the sender is a
    participant of the chat; 403 is the answer only to a sender who is not. *)
Theorem closed_chat_refuses_messages u cid body now s chat :
  chats s !! cid = Some chat →
  c_status chat = CsClosed →
  auth [RClient; RFreelancer] u = true →
  let result := handle (SendMessage u cid body now) s in
  let participant := ChatModel.isParticipant chat (userId u) in
  result.2 = s
  ∧ ((∃ why, result.1 = Failure 400 why)
     ∨ result.1 = Failure 403 NotAParticipant)
  ∧ (participant = true → ∃ why, result.1 = Failure 400 why)
  ∧ (∀ why, result.1 = Failure 403 why → participant = false).
Proof.
  intros Hchat Hclosed Hauth. simpl. unfold Chats.sendMessage.
  rewrite Hauth. simpl.
  destruct (_ && bool_decide _); [split_and!; eauto; done|].
  destruct (_ && _); [split_and!; eauto; done|].
  rewrite Hchat. destruct (ChatModel.isParticipant _ _); simpl;
    [|split_and!; eauto; done].
  rewrite decide_True by done. split_and!; eauto; done.
Qed.

Lemma closed_chat_refuses_messages_witness :
  let result := handle (SendMessage Sample.alice 0 SampleClosed.hello 3%Z)
                       SampleClosed.closed in
  result.2 = SampleClosed.closed ∧ ∃ why, result.1 = Failure 400 why.
Proof.
  intros result.
  destruct (closed_chat_refuses_messages Sample.alice 0 SampleClosed.hello 3%Z
              SampleClosed.closed
              (ChatModel.with_status CsClosed
                 (ChatModel.with_lastMessage 0 (ChatModel.newChat 0 0 0 1 1%Z))))
    as (Hsame & _ & Hmember & _); [by vm_compute..|].
  split; [exact Hsame|]. apply Hmember. by vm_compute.
Defined.

(** * Properties beyond the claims of the specification *)

(** ** The routes as sequences of writes *)

Lemma Writes_trans s1 s2 s3 : Writes s1 s2 → Writes s2 s3 → Writes s1 s3.
Proof. induction 2; eauto using Writes. Qed.

Lemma Writes_one s s' : Write s s' → Writes s s'.
Proof. eauto using Writes. Qed.

Lemma app_moves_refl st : app_moves st st.
Proof. by left. Qed.

Lemma app_step_refl b : app_step b b.
Proof. split; auto using app_moves_refl. Qed.

Lemma project_step_refl p : project_step p p.
Proof. split; auto. Qed.

Lemma chat_step_refl c : chat_step c c.
Proof. split; auto. Qed.

Lemma message_step_refl m : message_step m m.
Proof. by left. Qed.

Lemma chat_step_touch mid now c : chat_step c (ChatModel.touch mid now c).
Proof. split; auto. Qed.

(** Splits a store built by a write into the store before it and the
    write. *)
Ltac last_write :=
  match goal with
  | |- Writes ?s0 (set_projects (saveAt ?i ?p' _) ?s) =>
      apply (Writes_snoc s0 s); [|eapply (W_project s i _ p')]
  | |- Writes ?s0 (set_applications (saveAt ?i ?b' _) ?s) =>
      apply (Writes_snoc s0 s); [|eapply (W_application s i _ b')]
  | |- Writes ?s0 (set_applications (Applications.rejectOthers ?p ?a _) ?s) =>
      apply (Writes_snoc s0 s); [|apply (W_rejectOthers s p a)]
  | |- Writes ?s0 (set_applications (_ ++ [?a]) ?s) =>
      apply (Writes_snoc s0 s); [|apply (W_newApplication s a)]
  | |- Writes ?s0 (set_chats (saveAt ?i ?c' _) ?s) =>
      apply (Writes_snoc s0 s); [|eapply (W_chat s i _ c')]
  | |- Writes ?s0 (set_chats (_ ++ [?c]) ?s) =>
      apply (Writes_snoc s0 s); [|apply (W_newChat s c)]
  | |- Writes ?s0 (set_messages (saveAt ?i ?m' _) ?s) =>
      apply (Writes_snoc s0 s); [|eapply (W_message s i _ m')]
  | |- Writes ?s0 (set_messages (Chats.declineOthers ?c ?m _) ?s) =>
      apply (Writes_snoc s0 s); [|apply (W_declineOthers s c m)]
  | |- Writes ?s0 (set_messages (_ ++ [?m]) ?s) =>
      apply (Writes_snoc s0 s); [|apply (W_newMessage s m)]
  | |- Writes ?s0 (set_workspaces (_ ++ [?w]) ?s) =>
      apply (Writes_snoc s0 s); [|apply (W_newWorkspace s w)]
  | |- Writes ?s0 (notify ?n ?s) =>
      apply (Writes_snoc s0 s); [|apply (W_notify s n)]
  | |- Writes ?s ?s => apply Writes_nil
  end.

Lemma findOrCreate_writes pid aid c f now s cid chat s' :
  ChatModel.findOrCreate pid aid c f now s = (cid, chat, s') →
  Writes s s' ∧ chats s' !! cid = Some chat.
Proof.
  unfold ChatModel.findOrCreate, findOne, insertOne.
  destruct (list_find _ _) as [[i c0]|] eqn:Hfind; intros [= <- <- <-].
  - apply list_find_Some in Hfind as (? & _). split; [constructor|done].
  - split.
    + repeat last_write. done.
    + simpl. by rewrite lookup_app_r, Nat.sub_diag.
Qed.

Lemma postSystemMessage_writes cid chat sender content now s mid s' :
  chats s !! cid = Some chat →
  ChatModel.postSystemMessage cid chat sender content now s = (mid, s') →
  Writes s s'.
Proof.
  unfold ChatModel.postSystemMessage, insertOne. intros Hc [= <- <-].
  repeat last_write; [exact Hc|apply chat_step_touch].
Qed.

Lemma findOrCreateWorkspace_writes pid aid c f s :
  Writes s (Applications.findOrCreateWorkspace pid aid c f s).2.
Proof.
  unfold Applications.findOrCreateWorkspace, findOne, insertOne.
  destruct (list_find _ _) as [[i w]|] eqn:Hfind; simpl; [constructor|].
  repeat last_write. done.
Qed.

Lemma notifyStatus_writes a aid b s :
  Writes s (Applications.notifyStatus a aid b s).
Proof.
  unfold Applications.notifyStatus. destruct (users s !! _); [|constructor].
  repeat last_write.
Qed.

Lemma submit_writes u body s : Writes s (Applications.submit u body s).2.
Proof.
  unfold Applications.submit, insertOne.
  repeat case_match; simpl; try apply Writes_nil.
  repeat last_write; done.
Qed.

Lemma withdraw_writes u aid s : Writes s (Applications.withdraw u aid s).2.
Proof.
  unfold Applications.withdraw.
  repeat case_match; simpl; try apply Writes_nil.
  repeat last_write; [done|].
  split; simpl; try done. right; left. split; [by destruct (a_status _)|done].
Qed.

Section AwardWrites.
Import Applications.

Lemma decided_step now st loaded :
  open_for_decision loaded → st = AsAwarded ∨ st = AsRejected →
  app_step loaded (with_respondedAt now (with_status st loaded)).
Proof.
  intros [Hst|Hst] Hto; split; simpl; try done; rewrite Hst.
  - right; left. split; [done|]. by destruct Hto as [-> | ->].
  - right; right. done.
Qed.

Lemma awarded_step loaded :
  open_for_decision loaded → app_step loaded (with_status AsAwarded loaded).
Proof.
  intros [Hst|Hst]; split; simpl; try done; rewrite Hst.
  - right; left. done.
  - right; right. auto.
Qed.

Lemma awardProject_step populated application aid now :
  project_step populated (awardProject populated application aid now).
Proof. split; simpl; auto. Qed.

Lemma rejectOthers_at projectId aid l :
  rejectOthers projectId aid l !! aid = l !! aid.
Proof.
  rewrite rejectOthers_lookup. destruct (l !! aid) as [a|]; [simpl|done].
  rewrite decide_False; naive_solver.
Qed.

End AwardWrites.

(** Names the store a helper returns and records the writes that lead to
    it. *)
Ltac name_writes :=
  match goal with
  | |- context [ChatModel.findOrCreate ?p ?a ?c ?f ?n ?s] =>
      let Hc := fresh "Hcore" in
      let Hfc := fresh "Hfc" in
      pose proof (findOrCreate_core p a c f n s) as Hc;
      destruct (ChatModel.findOrCreate p a c f n s) as [[? ?] ?] eqn:Hfc;
      apply findOrCreate_writes in Hfc as [? ?];
      destruct Hc as (? & ? & ?)
  | |- context [ChatModel.postSystemMessage ?c ?ch ?u ?ct ?n ?s] =>
      let Hc := fresh "Hcore" in
      let Hps := fresh "Hps" in
      pose proof (postSystemMessage_core c ch u ct n s) as Hc;
      destruct (ChatModel.postSystemMessage c ch u ct n s) as [? ?] eqn:Hps;
      eapply postSystemMessage_writes in Hps; [|eassumption];
      destruct Hc as (? & ? & ?)
  | |- context [Applications.findOrCreateWorkspace ?p ?a ?c ?f ?s] =>
      let Hc := fresh "Hcore" in
      let Hw := fresh "Hw" in
      pose proof (findOrCreateWorkspace_core p a c f s) as Hc;
      pose proof (findOrCreateWorkspace_writes p a c f s) as Hw;
      destruct (Applications.findOrCreateWorkspace p a c f s) as [? ?];
      destruct Hc as (? & ? & ?)
  end.

Section RouteWrites.
Import Applications.

Lemma respond_writes u aid action now s :
  Writes s (respond u aid action now s).2.
Proof.
  unfold respond.
  destruct (negb (auth _ u)); [apply Writes_nil|].
  destruct (negb _); [apply Writes_nil|].
  destruct (applications s !! aid) as [loaded|] eqn:Hld; [|apply Writes_nil].
  destruct (projects s !! a_project loaded) as [populated|] eqn:Hpop;
    [|apply Writes_nil].
  destruct (decide _); [apply Writes_nil|].
  destruct (bool_decide (open_for_decision loaded)) eqn:Hopen;
    [apply bool_decide_eq_true in Hopen|apply Writes_nil].
  simpl negb. cbv iota.
  destruct (bool_decide (action = "accept")).
  - destruct (users s !! a_freelancer loaded); [|apply Writes_nil].
    repeat name_writes. simpl in *.
    eapply Writes_trans; [|apply notifyStatus_writes].
    last_write.
    + eapply Writes_trans; [|eassumption].
      eapply Writes_trans; [|eassumption].
      repeat last_write; [exact Hpop|apply awardProject_step].
    + match goal with H : applications _ = _ |- _ => rewrite H end.
      match goal with H : applications _ = _ |- _ => rewrite H end.
      simpl. rewrite rejectOthers_at. exact Hld.
    + apply decided_step; auto.
  - eapply Writes_trans; [|apply notifyStatus_writes].
    repeat last_write; [exact Hld|apply decided_step; auto].
Qed.

Lemma updateStatus_writes u aid status now s :
  Writes s (updateStatus u aid status now s).2.
Proof.
  unfold updateStatus.
  destruct (negb (auth _ u)); [apply Writes_nil|].
  destruct (negb _); [apply Writes_nil|].
  destruct (applications s !! aid) as [loaded|] eqn:Hld; [|apply Writes_nil].
  destruct (projects s !! a_project loaded) as [populated|] eqn:Hpop;
    [|apply Writes_nil].
  destruct (decide _); [apply Writes_nil|].
  destruct (bool_decide (open_for_decision loaded)) eqn:Hopen;
    [apply bool_decide_eq_true in Hopen|apply Writes_nil].
  simpl negb. cbv iota.
  destruct (bool_decide (status = "accepted")).
  - destruct (users s !! a_freelancer loaded); [|apply Writes_nil].
    repeat name_writes. simpl in *.
    eapply Writes_trans; [|apply notifyStatus_writes].
    last_write.
    + eapply Writes_trans; [|eassumption].
      eapply Writes_trans; [|eassumption].
      eapply Writes_trans; [|eassumption].
      repeat last_write; [exact Hpop|apply awardProject_step].
    + repeat match goal with H : applications _ = _ |- _ => rewrite H end.
      simpl. rewrite rejectOthers_at. exact Hld.
    + apply decided_step; auto.
  - eapply Writes_trans; [|apply notifyStatus_writes].
    repeat last_write; [exact Hld|apply decided_step; auto].
Qed.

Lemma award_writes u aid now s : Writes s (award u aid now s).2.
Proof.
  unfold award.
  destruct (negb (auth _ u)); [apply Writes_nil|].
  destruct (applications s !! aid) as [loaded|] eqn:Hld; [|apply Writes_nil].
  destruct (users s !! a_client loaded); [|apply Writes_nil].
  destruct (decide _); [apply Writes_nil|].
  destruct (bool_decide (open_for_decision loaded)) eqn:Hopen;
    [apply bool_decide_eq_true in Hopen|apply Writes_nil].
  simpl negb. cbv iota.
  destruct (projects s !! a_project loaded) as [populated|] eqn:Hpop;
    [|apply Writes_nil].
  destruct (_ || _); [apply Writes_nil|].
  simpl users.
  destruct (users s !! a_freelancer loaded).
  - repeat name_writes. simpl in *.
    eapply Writes_trans; [|eassumption].
    eapply Writes_trans; [|eassumption].
    repeat last_write;
      [exact Hld|by apply awarded_step|exact Hpop|apply awardProject_step].
  - simpl. repeat last_write; [exact Hld|by apply awarded_step].
Qed.
End RouteWrites.

Section ChatWrites.
Import Chats.

Lemma sendMessage_writes u cid body now s :
  Writes s (sendMessage u cid body now s).2.
Proof.
  unfold sendMessage, insertOne.
  repeat case_match; simpl; try apply Writes_nil.
  all: repeat last_write; [done|apply chat_step_touch].
Qed.

Lemma close_writes u cid now s : Writes s (close u cid now s).2.
Proof.
  unfold close, insertOne.
  repeat case_match; simpl; try apply Writes_nil.
  repeat last_write; [done|]. split; auto.
Qed.

Lemma chatAward_writes u cid body now s : Writes s (award u cid body now s).2.
Proof.
  unfold award, insertOne.
  repeat case_match; simpl; try apply Writes_nil.
  repeat last_write; [done|split; auto|done|apply chat_step_touch].
Qed.

Lemma createForApplication_writes u aid now s :
  Writes s (createForApplication u aid now s).2.
Proof.
  unfold createForApplication, insertOne, findOne.
  repeat case_match; simpl; try apply Writes_nil.
  repeat last_write;
    [match goal with H : list_find _ _ = None |- _ => exact H end| |].
  - simpl. by rewrite lookup_app_r, Nat.sub_diag.
  - split; auto.
Qed.

End ChatWrites.

Section OfferWrites.
Import Chats.

Lemma negotiated_step a od now : app_step a (negotiated a od now).
Proof.
  split; simpl; try done. case_decide as Hst; [|by left].
  right; left. by rewrite Hst.
Qed.

Lemma lockPrice_step project entry od now :
  project_step project (lockPrice project entry od now).
Proof. split; simpl; auto. by apply prefix_app_r. Qed.

Lemma pushHistory_step project entry :
  project_step project (pushHistory project entry).
Proof. split; simpl; auto. by apply prefix_app_r. Qed.

Lemma acceptOffer_writes u chat mid message od now s s2 :
  acceptOffer u chat mid message od now s = Some s2 → Writes s s2.
Proof.
  unfold acceptOffer. destruct (c_participants chat) as [|p0 [|p1 rest]]; try done.
  intros [= <-]. last_write.
  set (s1 := match findOne _ (applications s) with
             | Some (aid, application) => _
             | None => s
             end).
  assert (Writes s s1) as Hw1.
  { subst s1. destruct (findOne _ _) as [[aid application]|] eqn:Hfind;
      [|apply Writes_nil].
    apply list_find_Some in Hfind as (Hl & _).
    repeat last_write; [exact Hl|apply negotiated_step]. }
  eapply Writes_trans; [exact Hw1|].
  destruct (projects s1 !! c_project chat) as [project|] eqn:Hp;
    [|apply Writes_nil].
  repeat last_write; [exact Hp|apply lockPrice_step].
Qed.

Lemma declineOffer_writes u chat message od now s :
  Writes s (declineOffer u chat message od now s).
Proof.
  unfold declineOffer.
  destruct (projects s !! c_project chat) as [project|] eqn:Hp;
    [|apply Writes_nil].
  repeat last_write; [exact Hp|apply pushHistory_step].
Qed.

Lemma respondToOffer_writes u mid action now s :
  Writes s (respondToOffer u mid action now s).2.
Proof.
  unfold respondToOffer.
  destruct (negb (auth _ u)); [apply Writes_nil|].
  destruct (negb _); [apply Writes_nil|].
  destruct (messages s !! mid) as [loaded|] eqn:Hld; [|apply Writes_nil].
  destruct (decide _) as [|Htype]; [apply Writes_nil|].
  destruct (decide _) as [|Hpending]; [apply Writes_nil|].
  apply dec_stable in Htype. apply dec_stable in Hpending.
  destruct (chats s !! m_chat loaded) as [chat|]; [|apply Writes_nil].
  destruct (negb _); [apply Writes_nil|].
  destruct (users s !! m_sender loaded); [|apply Writes_nil].
  destruct (decide _); [apply Writes_nil|].
  set (message := with_offerStatus _ loaded).
  set (s1 := set_messages _ s).
  assert (Writes s s1) as Hw1.
  { subst s1. repeat last_write; [exact Hld|]. right. split_and!; [done..|].
    subst message. destruct (bool_decide _); auto. }
  match goal with |- context [match ?a with Some _ => _ | None => crash s1 end] =>
    assert (∀ s2, a = Some s2 → Writes s s2) as Hafter; [|destruct a as [s2|]]
  end.
  { intros s2. destruct (m_offerDetails message) as [od|]; [|by intros [= <-]].
    destruct (bool_decide (action = "accept")).
    - intros Hacc. eapply Writes_trans; [exact Hw1|].
      by eapply acceptOffer_writes.
    - intros [= <-]. eapply Writes_trans; [exact Hw1|].
      apply declineOffer_writes. }
  - specialize (Hafter s2 eq_refl).
    unfold insertOne. repeat case_match; simpl; try done;
      (eapply Writes_trans; [exact Hafter|]); repeat last_write.
  - done.
Qed.

End OfferWrites.

(** Every request is served by a sequence of the writes above, and so is
    every sequence of requests. *)
Lemma handle_writes r s : Writes s (handle r s).2.
Proof.
  destruct r; simpl;
    auto using submit_writes, respond_writes, updateStatus_writes,
      withdraw_writes, award_writes, sendMessage_writes, close_writes,
      chatAward_writes, createForApplication_writes, respondToOffer_writes.
Qed.

Lemma run_writes rs s : Writes s (run rs s).
Proof.
  revert s. induction rs as [|r rs IH]; intros s; [apply Writes_nil|].
  eapply Writes_trans; [apply (handle_writes r)|apply IH].
Qed.

(** ** What the writes keep *)

Lemma app_moves_trans st1 st2 st3 :
  app_moves st1 st2 → app_moves st2 st3 → app_moves st1 st3.
Proof. unfold app_moves. destruct st1, st2, st3; naive_solver. Qed.

Lemma app_step_trans b1 b2 b3 : app_step b1 b2 → app_step b2 b3 → app_step b1 b3.
Proof.
  intros [] []. split; try congruence. eauto using app_moves_trans.
Qed.

Lemma project_step_trans p1 p2 p3 :
  project_step p1 p2 → project_step p2 p3 → project_step p1 p3.
Proof.
  intros [] []. split; try congruence.
  - destruct (p_status p3), (p_status p2); naive_solver.
  - by etrans.
Qed.

Lemma chat_step_trans c1 c2 c3 :
  chat_step c1 c2 → chat_step c2 c3 → chat_step c1 c3.
Proof.
  intros [] []. split; try congruence.
  destruct (c_status c3), (c_status c2); naive_solver.
Qed.

Lemma message_step_trans m1 m2 m3 :
  message_step m1 m2 → message_step m2 m3 → message_step m1 m3.
Proof.
  unfold message_step. intros [->|(? & ? & H12)] [->|(? & Hp & H23)]; auto.
  destruct H12 as [-> | ->]; simpl in Hp; congruence.
Qed.

Lemma evolves_refl s : evolves s s.
Proof.
  split; eauto using app_step_refl, project_step_refl, chat_step_refl,
    message_step_refl.
Qed.

Lemma evolves_trans s1 s2 s3 : evolves s1 s2 → evolves s2 s3 → evolves s1 s3.
Proof.
  intros [Hu Hp Ha Hc Hm Hw Hn] [Hu' Hp' Ha' Hc' Hm' Hw' Hn']. split.
  - congruence.
  - intros i p Hi. destruct (Hp i p Hi) as (p2 & Hi2 & ?).
    destruct (Hp' i p2 Hi2) as (p3 & ? & ?). eauto using project_step_trans.
  - intros i b Hi. destruct (Ha i b Hi) as (b2 & Hi2 & ?).
    destruct (Ha' i b2 Hi2) as (b3 & ? & ?). eauto using app_step_trans.
  - intros i c Hi. destruct (Hc i c Hi) as (c2 & Hi2 & ?).
    destruct (Hc' i c2 Hi2) as (c3 & ? & ?). eauto using chat_step_trans.
  - intros i m Hi. destruct (Hm i m Hi) as (m2 & Hi2 & ?).
    destruct (Hm' i m2 Hi2) as (m3 & ? & ?). eauto using message_step_trans.
  - by etrans.
  - by etrans.
Qed.

Section Slots.
Context {A : Type} (R : A → A → Prop) (R_refl : ∀ x, R x x).
Implicit Types (l : list A) (x : A).

(** Saving a document whose new value is a step from the stored one keeps
    every slot a step from what it was. *)
Lemma step_saveAt l i x x' j y :
  l !! i = Some x → R x x' → l !! j = Some y →
  ∃ y', saveAt i x' l !! j = Some y' ∧ R y y'.
Proof using R_refl.
  intros Hi HR Hj. destruct (decide (i = j)) as [->|Hne].
  - erewrite saveAt_lookup_eq by done. simplify_eq. eauto.
  - rewrite saveAt_lookup_ne by done. eauto.
Qed.

Lemma step_append l x j y :
  l !! j = Some y → ∃ y', (l ++ [x]) !! j = Some y' ∧ R y y'.
Proof using R_refl.
  intros Hj. exists y. split; [|done]. by apply lookup_app_l_Some.
Qed.

Lemma step_updateMany (P : nat → A → Prop) `{∀ i x, Decision (P i x)}
    (f : A → A) l j y :
  (∀ i x, P i x → R x (f x)) → l !! j = Some y →
  ∃ y', updateMany P f l !! j = Some y' ∧ R y y'.
Proof using R_refl.
  intros Hf Hj. rewrite updateMany_lookup, Hj. simpl.
  case_decide; eauto.
Qed.
End Slots.

Lemma rejected_step a :
  Applications.open_for_decision a →
  app_step a (Applications.with_status AsRejected a).
Proof.
  intros [Hst|Hst]; split; simpl; try done; rewrite Hst.
  - right; left. done.
  - right; right. auto.
Qed.

Lemma declined_step chatId m :
  Chats.isPendingOffer chatId m →
  message_step m (Chats.with_offerStatus OsDeclined m).
Proof. intros (? & ? & ?). right. auto. Qed.

Lemma Write_evolves s s' : Write s s' → evolves s s'.
Proof.
  destruct 1; split; simpl; try done;
    eauto using app_step_refl, project_step_refl, chat_step_refl,
      message_step_refl, step_saveAt, step_append.
  - intros j b Hj. unfold Applications.rejectOthers.
    eapply (step_updateMany app_step); eauto using app_step_refl.
    intros i x (_ & _ & Hopen). by apply rejected_step.
  - intros j m Hj. unfold Chats.declineOthers.
    eapply (step_updateMany message_step); eauto using message_step_refl.
    intros i x (Hp & _). by eapply declined_step.
  - by apply prefix_app_r.
  - by apply prefix_app_r.
Qed.

Lemma Writes_evolves s s' : Writes s s' → evolves s s'.
Proof.
  induction 1; eauto using evolves_refl, evolves_trans, Write_evolves.
Qed.

Lemma run_evolves rs s : evolves s (run rs s).
Proof. apply Writes_evolves, run_writes. Qed.

Section Keys.
Context {A K : Type} (key : A → K).
Implicit Types (l : list A) (x : A).

Lemma keys_saveAt l i x x' :
  l !! i = Some x → key x' = key x → key <$> saveAt i x' l = key <$> l.
Proof.
  intros Hi Hk. unfold saveAt. rewrite list_fmap_insert, Hk.
  apply list_insert_id. by rewrite list_lookup_fmap, Hi.
Qed.

Lemma keys_updateMany (P : nat → A → Prop) `{∀ i x, Decision (P i x)}
    (f : A → A) l :
  (∀ x, key (f x) = key x) → key <$> updateMany P f l = key <$> l.
Proof.
  intros Hf. apply list_eq. intros i.
  rewrite !list_lookup_fmap, updateMany_lookup.
  destruct (l !! i) as [x|]; [simpl|done]. by case_decide; rewrite ?Hf.
Qed.

Lemma keys_fresh l x :
  (∀ y, y ∈ l → key y ≠ key x) →
  NoDup (key <$> l) → NoDup (key <$> (l ++ [x])).
Proof.
  intros Hnone Hnd. rewrite fmap_app. apply NoDup_app. split_and!; [done| |].
  - intros k Hk Hx. simpl in Hx. apply list_elem_of_singleton in Hx as ->.
    apply list_elem_of_fmap in Hk as (y & Hy & Hin). by apply (Hnone y).
  - apply NoDup_singleton.
Qed.
End Keys.

Lemma findOne_None {A} (P : A → Prop) `{∀ x, Decision (P x)} (l : list A) y :
  findOne P l = None → y ∈ l → ¬ P y.
Proof.
  unfold findOne. rewrite list_find_None, Forall_forall. auto.
Qed.

(** Every write keeps the look-up keys unique: a document is created only
    after a look-up under its key found nothing, and no write changes the
    key of a stored document. *)
Lemma Write_Unique s s' : Write s s' → Unique s → Unique s'.
Proof.
  destruct 1 as [i p p' Hi Hstep|i b b' Hi Hstep|pid aid|a Hst Hnone
                |i c c' Hi Hstep|c Hnone|i m m' Hi Hstep|cid mid|m|w Hnone|n];
    intros [Ha Hc Hw]; split; try done;
    unfold applicationKeys, chatKeys, workspaceKeys in *; simpl.
  - erewrite keys_saveAt; [done..|]. destruct Hstep. congruence.
  - unfold Applications.rejectOthers. by rewrite keys_updateMany.
  - apply keys_fresh; [|done]. intros y Hy Heq.
    apply (findOne_None _ _ _ Hnone Hy). by simplify_eq.
  - erewrite keys_saveAt; [done..|]. by destruct Hstep.
  - apply keys_fresh; [|done]. intros y Hy Heq.
    by apply (findOne_None _ _ _ Hnone Hy).
  - apply keys_fresh; [|done]. intros y Hy Heq.
    by apply (findOne_None _ _ _ Hnone Hy).
Qed.

Lemma Writes_Unique s s' : Writes s s' → Unique s → Unique s'.
Proof. induction 1; eauto using Write_Unique. Qed.

(** ** Stored documents over any sequence of requests *)

(** X1.  Whatever requests are served, an application that is stored stays
    stored under its id, with its project, freelancer, client and cover
    letter; its status only moves forward (pending to accepted, awarded,
    rejected or withdrawn; accepted to awarded or rejected), so that an
    awarded, rejected or withdrawn application keeps its status for good. *)
Theorem application_status_moves_forward rs s i b :
  applications s !! i = Some b →
  ∃ b', applications (run rs s) !! i = Some b'
    ∧ a_project b' = a_project b ∧ a_freelancer b' = a_freelancer b
    ∧ a_client b' = a_client b ∧ a_coverLetter b' = a_coverLetter b
    ∧ app_moves (a_status b) (a_status b')
    ∧ (¬ Applications.open_for_decision b → a_status b' = a_status b).
Proof.
  intros Hi. destruct (ev_applications _ _ (run_evolves rs s) i b Hi)
    as (b' & Hi' & [Hp Hf Hc Hl Hst]).
  exists b'. split_and!; try done.
  intros Hdecided. destruct Hst as [?|[[Hst _]|[Hst _]]]; [done|..];
    destruct Hdecided; [by left|by right].
Qed.

(** Bob's rejected application stays rejected, whichever route tries to
    decide it again. *)
Lemma application_status_moves_forward_witness :
  ∃ b', applications (run SampleAward.retries SampleAward.decided) !! 1 = Some b'
        ∧ a_status b' = AsRejected.
Proof.
  destruct (application_status_moves_forward SampleAward.retries
              SampleAward.decided 1
              (Applications.with_status AsRejected
                 {| a_project := 0; a_freelancer := 2; a_client := 0;
                    a_coverLetter := "I can do this";
                    a_proposedRate := Some 950%float;
                    a_proposedTimeline := Some Sample.weeks;
                    a_status := AsPending;
                    a_respondedAt := None; a_negotiatedAt := None |}))
    as (b' & Hb' & _ & _ & _ & _ & _ & Hfinal); [reflexivity|].
  exists b'. split; [exact Hb'|].
  rewrite Hfinal; [reflexivity|]. intros [Hst|Hst]; discriminate Hst.
Defined.

(** X2.  Whatever requests are served, a stored project stays stored under
    its id with its client, title and deadline; its status stays or becomes
    awarded or in progress, so a project that is no longer open never
    becomes open again. *)
Theorem project_never_reopens rs s i p :
  projects s !! i = Some p →
  ∃ p', projects (run rs s) !! i = Some p'
    ∧ p_client p' = p_client p ∧ p_title p' = p_title p
    ∧ p_deadline p' = p_deadline p
    ∧ (p_status p' = p_status p ∨ p_status p' = PsAwarded
       ∨ p_status p' = PsInProgress)
    ∧ (p_status p ≠ PsOpen → p_status p' ≠ PsOpen).
Proof.
  intros Hi. destruct (ev_projects _ _ (run_evolves rs s) i p Hi)
    as (p' & Hi' & [Hc Ht Hd Hst Hh]).
  exists p'. split_and!; try done.
  intros Hclosed. destruct Hst as [->|[->| ->]]; done.
Qed.

(** The project awarded to Alice is still not open after the retries. *)
Lemma project_never_reopens_witness :
  ∃ p', projects (run SampleAward.retries SampleAward.decided) !! 0 = Some p'
        ∧ p_status p' ≠ PsOpen.
Proof.
  edestruct (project_never_reopens SampleAward.retries SampleAward.decided 0)
    as (p' & Hp' & _ & _ & _ & _ & Hclosed); [reflexivity|].
  exists p'. split; [exact Hp'|]. apply Hclosed. discriminate.
Defined.

(** X3.  The negotiation history of a project is an append-only log:
    whatever requests are served, the history a project had is a prefix of
    the history it has afterwards. *)
Theorem negotiation_history_is_append_only rs s i p :
  projects s !! i = Some p →
  ∃ p', projects (run rs s) !! i = Some p'
    ∧ p_negotiationHistory p `prefix_of` p_negotiationHistory p'.
Proof.
  intros Hi. destruct (ev_projects _ _ (run_evolves rs s) i p Hi)
    as (p' & Hi' & [Hc Ht Hd Hst Hh]).
  eauto.
Qed.

(** The entry of Alice's declined offer stays first in the history when a
    second offer is accepted. *)
Lemma negotiation_history_is_append_only_witness :
  ∃ p', projects (run SampleHistory.closing SampleHistory.declined) !! 0 = Some p'
        ∧ (ne_status <$> p_negotiationHistory p') !! 0 = Some OsDeclined
        ∧ length (p_negotiationHistory p') = 2.
Proof.
  edestruct (negotiation_history_is_append_only SampleHistory.closing
               SampleHistory.declined 0)
    as (p' & Hp' & _); [reflexivity|].
  exists p'. split; [exact Hp'|].
  vm_compute in Hp'. injection Hp' as <-. split; reflexivity.
Defined.

(** X4.  No request edits or deletes a stored message: whatever requests
    are served, a message keeps its id, chat, sender, content, type, offer
    details and time; only the status of a pending offer may change, to
    accepted or declined, and the status of an answered offer is final. *)
Theorem messages_are_never_edited rs s i m :
  messages s !! i = Some m →
  ∃ m', messages (run rs s) !! i = Some m'
    ∧ m_chat m' = m_chat m ∧ m_sender m' = m_sender m
    ∧ m_content m' = m_content m ∧ m_messageType m' = m_messageType m
    ∧ m_offerDetails m' = m_offerDetails m ∧ m_createdAt m' = m_createdAt m
    ∧ (m_offerStatus m' = m_offerStatus m
       ∨ (m_messageType m = MtOffer ∧ m_offerStatus m = Some OsPending
          ∧ (m_offerStatus m' = Some OsAccepted
             ∨ m_offerStatus m' = Some OsDeclined)))
    ∧ (m_offerStatus m ≠ Some OsPending → m' = m).
Proof.
  intros Hi. destruct (ev_messages _ _ (run_evolves rs s) i m Hi)
    as (m' & Hi' & Hstep).
  exists m'. split; [done|].
  destruct Hstep as [->|(Ht & Hp & [-> | ->])]; simpl; split_and!; auto;
    try (right; by auto); done.
Qed.

(** Alice's declined offer is the same message after the client's offer was
    accepted and the chat closed. *)
Lemma messages_are_never_edited_witness :
  messages (run SampleHistory.closing SampleHistory.declined) !! 1
  = messages SampleHistory.declined !! 1
  ∧ (m_offerStatus <$> messages SampleHistory.declined !! 1)
    = Some (Some OsDeclined).
Proof.
  edestruct (messages_are_never_edited SampleHistory.closing
               SampleHistory.declined 1)
    as (m' & Hm' & _ & _ & _ & _ & _ & _ & _ & Hsame); [reflexivity|].
  split; [|reflexivity].
  rewrite Hm'. rewrite Hsame; [reflexivity|]. discriminate.
Defined.

Lemma sendMessage_closed u cid body now s chat :
  chats s !! cid = Some chat → c_status chat = CsClosed →
  ∃ c why, Chats.sendMessage u cid body now s = (Failure c why, s).
Proof.
  intros Hc Hclosed. unfold Chats.sendMessage. rewrite Hc.
  repeat case_match; eauto; done.
Qed.

(** X5.  Closing a chat is final.  Whatever requests are served, a stored
    chat keeps its id, project, application and participants, and a closed
    chat stays closed: every later attempt to send a message to it is
    refused and stores nothing. *)
Theorem closed_chat_stays_closed rs s i c :
  chats s !! i = Some c →
  ∃ c', chats (run rs s) !! i = Some c'
    ∧ c_project c' = c_project c ∧ c_application c' = c_application c
    ∧ c_participants c' = c_participants c
    ∧ (c_status c = CsClosed →
       c_status c' = CsClosed
       ∧ ∀ u body now, ∃ code why,
           handle (SendMessage u i body now) (run rs s)
           = (Failure code why, run rs s)).
Proof.
  intros Hi. destruct (ev_chats _ _ (run_evolves rs s) i c Hi)
    as (c' & Hi' & [Hp Ha Hps Hst]).
  exists c'. split_and!; try done.
  intros Hclosed. assert (c_status c' = CsClosed) as Hclosed'.
  { destruct Hst as [->|]; done. }
  split; [done|]. intros u body now. simpl.
  by eapply sendMessage_closed.
Qed.

(** The chat the client closed is still closed after Alice tried to reopen
    it by asking for the chat of her application again, and her message is
    refused. *)
Lemma closed_chat_stays_closed_witness :
  let rs := [CreateChat Sample.alice 0 3%Z] in
  (c_status <$> chats (run rs SampleClosed.closed) !! 0) = Some CsClosed
  ∧ ∃ code why,
      handle (SendMessage Sample.alice 0 SampleClosed.hello 4%Z)
             (run rs SampleClosed.closed)
      = (Failure code why, run rs SampleClosed.closed).
Proof.
  intros rs.
  edestruct (closed_chat_stays_closed rs SampleClosed.closed 0)
    as (c' & Hc' & _ & _ & _ & Hclosed); [reflexivity|].
  destruct Hclosed as [Hst Hsend]; [reflexivity|].
  split; [by rewrite Hc', <- Hst|apply Hsend].
Defined.

(** ** Look-ups before creation *)

Lemma NoDup_keys {A K} (key : A → K) (l : list A) i j x y :
  NoDup (key <$> l) → l !! i = Some x → l !! j = Some y → key x = key y → i = j.
Proof.
  intros Hnd Hi Hj Hk. eapply NoDup_lookup; [exact Hnd|..].
  - by rewrite list_lookup_fmap, Hi.
  - by rewrite list_lookup_fmap, Hj, Hk.
Qed.

Lemma run_Unique rs s : Unique s → Unique (run rs s).
Proof. apply Writes_Unique, run_writes. Qed.

Lemma Unique_empty s :
  applications s = [] → chats s = [] → workspaces s = [] → Unique s.
Proof.
  intros Ha Hc Hw. split; unfold applicationKeys, chatKeys, workspaceKeys;
    rewrite ?Ha, ?Hc, ?Hw; apply NoDup_nil_2.
Qed.

(** Solves [l !! i = Some ?x] for a closed [l] by evaluation. *)
Ltac stored :=
  match goal with
  | |- ?l !! ?i = Some ?x =>
      let v := eval vm_compute in (l !! i) in
      match v with
      | Some ?y => unify x y; vm_compute; reflexivity
      end
  end.

(** X6.  A freelancer has at most one application per project.  Starting
    from a store where the look-up keys are unique (any store without
    applications, chats and workspaces), after every sequence of requests
    two different stored applications differ in their project or in their
    freelancer. *)
Theorem one_application_per_freelancer_and_project rs s0 i j a b :
  Unique s0 →
  applications (run rs s0) !! i = Some a →
  applications (run rs s0) !! j = Some b →
  i ≠ j →
  ¬ (a_project a = a_project b ∧ a_freelancer a = a_freelancer b).
Proof.
  intros HU Hi Hj Hne [Hp Hf]. apply (run_Unique rs) in HU as [Hnd _ _].
  apply Hne. eapply (NoDup_keys (λ a, (a_project a, a_freelancer a))); eauto.
Qed.

(** Alice could not apply to the first project twice: the three
    applications stored are hers to the first project, Bob's to the second
    and hers to the second. *)
Lemma one_application_per_freelancer_and_project_witness :
  let s := run SampleUnique.requests SampleUnique.twoProjects in
  length (applications s) = 3
  ∧ ∃ a b, applications s !! 0 = Some a ∧ applications s !! 2 = Some b
      ∧ ¬ (a_project a = a_project b ∧ a_freelancer a = a_freelancer b).
Proof.
  intros s. split; [vm_compute; reflexivity|]. eexists _, _. split_and!.
  - stored.
  - stored.
  - eapply (one_application_per_freelancer_and_project SampleUnique.requests
              SampleUnique.twoProjects 0 2).
    + by apply Unique_empty.
    + vm_compute; reflexivity.
    + vm_compute; reflexivity.
    + discriminate.
Defined.

(** X7.  An application has at most one chat.  Starting from a store where
    the look-up keys are unique, after every sequence of requests (chats are
    opened by both parties, and found or created by the three award routes)
    two different stored chats belong to different applications. *)
Theorem one_chat_per_application rs s0 i j c d :
  Unique s0 →
  chats (run rs s0) !! i = Some c →
  chats (run rs s0) !! j = Some d →
  i ≠ j →
  c_application c ≠ c_application d.
Proof.
  intros HU Hi Hj Hne Ha. apply (run_Unique rs) in HU as [_ Hnd _].
  apply Hne. eapply (NoDup_keys c_application); eauto.
Qed.

(** Three chats are stored, one per application, although the parties and
    the status route asked for a chat seven times. *)
Lemma one_chat_per_application_witness :
  let s := run SampleUnique.requests SampleUnique.twoProjects in
  length (chats s) = 3
  ∧ ∃ c d, chats s !! 0 = Some c ∧ chats s !! 1 = Some d
      ∧ c_application c ≠ c_application d.
Proof.
  intros s. split; [vm_compute; reflexivity|]. eexists _, _. split_and!.
  - stored.
  - stored.
  - eapply (one_chat_per_application SampleUnique.requests
              SampleUnique.twoProjects 0 1).
    + by apply Unique_empty.
    + vm_compute; reflexivity.
    + vm_compute; reflexivity.
    + discriminate.
Defined.

(** X8.  A project has at most one workspace.  Starting from a store where
    the look-up keys are unique, after every sequence of requests two
    different stored workspaces belong to different projects. *)
Theorem one_workspace_per_project rs s0 i j w v :
  Unique s0 →
  workspaces (run rs s0) !! i = Some w →
  workspaces (run rs s0) !! j = Some v →
  i ≠ j →
  w_project w ≠ w_project v.
Proof.
  intros HU Hi Hj Hne Hp. apply (run_Unique rs) in HU as [_ _ Hnd].
  apply Hne. eapply (NoDup_keys w_project); eauto.
Qed.

(** Two workspaces are stored, one per awarded project. *)
Lemma one_workspace_per_project_witness :
  let s := run SampleUnique.requests SampleUnique.twoProjects in
  length (workspaces s) = 2
  ∧ ∃ w v, workspaces s !! 0 = Some w ∧ workspaces s !! 1 = Some v
      ∧ w_project w ≠ w_project v.
Proof.
  intros s. split; [vm_compute; reflexivity|]. eexists _, _. split_and!.
  - stored.
  - stored.
  - eapply (one_workspace_per_project SampleUnique.requests
              SampleUnique.twoProjects 0 1).
    + by apply Unique_empty.
    + vm_compute; reflexivity.
    + vm_compute; reflexivity.
    + discriminate.
Defined.

(** ** Refusals *)

(** Settles a route: every branch that answers with the code asked for. *)
Ltac by_cases_of route :=
  unfold route, insertOne, crash;
  repeat (case_match; simplify_eq/=); try by intros; simplify_eq.

(** X9.  A request that is refused (any answer other than success and the
    500 of a failure while serving it) changes nothing: the store after it
    is the store before it.  This holds for each of the ten routes. *)
Theorem refusal_changes_nothing r s code why :
  (handle r s).1 = Failure code why → code ≠ 500 → (handle r s).2 = s.
Proof.
  destruct r; simpl.
  - by_cases_of Applications.submit.
  - by_cases_of Applications.respond.
  - by_cases_of Applications.updateStatus.
  - by_cases_of Applications.withdraw.
  - by_cases_of Applications.award.
  - by_cases_of Chats.sendMessage.
  - by_cases_of Chats.close.
  - by_cases_of Chats.award.
  - by_cases_of Chats.createForApplication.
  - by_cases_of Chats.respondToOffer.
Qed.

(** Alice applies a second time to the same project: 400, and the store is
    as it was. *)
Lemma refusal_changes_nothing_witness :
  let s := SampleOffer.chatting in
  let r := Submit Sample.alice (Sample.proposal 800%float) in
  (handle r s).1 = Failure 400 AlreadyApplied ∧ (handle r s).2 = s.
Proof.
  intros s r. split; [vm_compute; reflexivity|].
  apply (refusal_changes_nothing r s 400 AlreadyApplied);
    [vm_compute; reflexivity|discriminate].
Defined.

(** ** Which requests award *)

Section NotAwarding.
Import Applications.

Lemma respond_reject_benign u aid action now s :
  action ≠ "accept" → benign s (respond u aid action now s).2.
Proof.
  intros Hne. unfold respond.
  rewrite (bool_decide_eq_false_2 (action = "accept")) by done.
  repeat case_match; simpl; try apply benign_refl.
  name_core. simpl in *.
  match goal with H : negb (bool_decide (open_for_decision _)) = false |- _ =>
    apply negb_false_iff, bool_decide_eq_true in H end.
  eapply benign_save_application; eauto using quiet_reject.
Qed.

Lemma updateStatus_reject_benign u aid status now s :
  status ≠ "accepted" → benign s (updateStatus u aid status now s).2.
Proof.
  intros Hne. unfold updateStatus.
  rewrite (bool_decide_eq_false_2 (status = "accepted")) by done.
  repeat case_match; simpl; try apply benign_refl.
  name_core. simpl in *.
  match goal with H : negb (bool_decide (open_for_decision _)) = false |- _ =>
    apply negb_false_iff, bool_decide_eq_true in H end.
  eapply benign_save_application; eauto using quiet_reject.
Qed.

End NotAwarding.

Lemma benign_not_awarding s s' j b' :
  benign s s' → applications s' !! j = Some b' → a_status b' = AsAwarded →
  ∃ b, applications s !! j = Some b ∧ a_status b = AsAwarded.
Proof.
  intros [_ _ Ha] Hj Hst. destruct (Ha j b' Hj) as (b & Hb & _ & _ & _ & Hq).
  exists b. split; [done|].
  destruct Hq as [<-|(_ & [?|[?|?]])]; congruence.
Qed.

(** X10.  Only the award route and the two respond routes with an
    acceptance make an application awarded.  After any other request
    (submission, withdrawal, rejection, a message, an offer and its answer,
    closing a chat, the award made in a chat) an awarded application was
    awarded before. *)
Theorem only_award_requests_award r s j b' :
  ¬ awards r →
  applications (handle r s).2 !! j = Some b' → a_status b' = AsAwarded →
  ∃ b, applications s !! j = Some b ∧ a_status b = AsAwarded.
Proof.
  intros Hr. destruct r; simpl in *.
  - destruct (submit_effect u body s) as [->|Hsub]; [eauto|].
    destruct Hsub as [_ _ (a & p & -> & Hst & _)]. intros Hj Haw.
    apply lookup_app_Some in Hj as [Hj|[_ Hj]]; [eauto|].
    apply list_lookup_singleton_Some in Hj as [_ <-]. congruence.
  - eauto using benign_not_awarding, respond_reject_benign.
  - eauto using benign_not_awarding, updateStatus_reject_benign.
  - eauto using benign_not_awarding, withdraw_effect.
  - done.
  - eauto using benign_not_awarding, benign_same_core, sendMessage_core.
  - eauto using benign_not_awarding, benign_same_core, close_core.
  - eauto using benign_not_awarding, chatAward_effect.
  - eauto using benign_not_awarding, benign_same_core, createForApplication_core.
  - eauto using benign_not_awarding, respondToOffer_effect.
Qed.

(** The award the client makes in the chat puts the project in progress
    and awards no application: the only awarded application is the one
    that was. *)
Lemma only_award_requests_award_witness :
  let r := ChatAward Sample.client 0
             {| Chats.ab_finalRate := Some 900%float;
                Chats.ab_finalTimeline := Some Sample.weeks;
                Chats.ab_terms := "" |} 11%Z in
  (p_status <$> projects (handle r SampleAward.decided).2 !! 0)
  = Some PsInProgress
  ∧ ∃ b, applications SampleAward.decided !! 0 = Some b ∧ a_status b = AsAwarded.
Proof.
  intros r. split; [vm_compute; reflexivity|].
  eapply (only_award_requests_award r SampleAward.decided 0).
  - simpl. tauto.
  - stored.
  - reflexivity.
Defined.

(** ** The two respond routes *)

Section TwoRoutes.
Import Applications.

(** X11.  The respond route and the status route are two versions of one
    operation.  A rejection is served identically by both.  An acceptance
    gets the same answer code from both, and both leave the same users,
    projects, applications, messages and notifications, and chats for the
    same applications; the respond route stores no workspace, and the chats
    are equal when the client recorded on the application is the client of
    its project (the respond route takes the client participant of a new
    chat from the application, the status route from the project). *)
Theorem respond_routes_agree u aid now s :
  respond u aid "reject" now s = updateStatus u aid "rejected" now s
  ∧ let a := respond u aid "accept" now s in
    let b := updateStatus u aid "accepted" now s in
    http_code a.1 = http_code b.1
    ∧ users a.2 = users b.2 ∧ projects a.2 = projects b.2
    ∧ applications a.2 = applications b.2 ∧ messages a.2 = messages b.2
    ∧ notifications a.2 = notifications b.2
    ∧ chatKeys a.2 = chatKeys b.2
    ∧ workspaces a.2 = workspaces s
    ∧ ((∀ loaded p, applications s !! aid = Some loaded →
          projects s !! a_project loaded = Some p →
          a_client loaded = p_client p) →
       chats a.2 = chats b.2).
Proof.
  split.
  - unfold respond, updateStatus. simpl.
    repeat case_match; simplify_eq/=; done.
  - unfold respond, updateStatus, ChatModel.findOrCreate,
      ChatModel.postSystemMessage, findOrCreateWorkspace, notifyStatus,
      notify, insertOne, chatKeys.
    simpl.
    repeat (case_match; simplify_eq/=); split_and!; try done.
    all: try (intros Hsame; by erewrite Hsame by done).
    all: unfold saveAt; by rewrite !list_fmap_insert, !fmap_app.
Qed.

End TwoRoutes.

(** ** The guards of a submission *)

Section SubmitGuards.
Import Applications.

Lemma submit_already_applied u body s pid i a :
  sb_projectId body = Some pid →
  applications s !! i = Some a → a_project a = pid → a_freelancer a = userId u →
  ∃ code why, submit u body s = (Failure code why, s) ∧ code ≠ 500.
Proof.
  intros Hpid Hi Hp Hf. unfold submit. rewrite Hpid.
  repeat case_match; simplify_eq/=; eauto.
  all: match goal with H : findOne _ _ = None |- _ =>
         exfalso; eapply (findOne_None _ _ _ H);
           [by eapply list_elem_of_lookup_2|done] end.
Qed.

Lemma submit_not_open u body s pid p :
  sb_projectId body = Some pid →
  projects s !! pid = Some p → p_status p ≠ PsOpen →
  ∃ code why, submit u body s = (Failure code why, s) ∧ code ≠ 500.
Proof.
  intros Hpid Hi Hst. unfold submit. rewrite Hpid.
  repeat case_match; simplify_eq/=; eauto; contradiction.
Qed.

Lemma submit_at_capacity u body s :
  5 ≤ countDocuments (λ a, a_freelancer a = userId u ∧ ongoing a) (applications s) →
  ∃ code why, submit u body s = (Failure code why, s) ∧ code ≠ 500.
Proof.
  intros Hcap%Nat.leb_le. unfold submit. cbv zeta. rewrite Hcap.
  repeat case_match; simplify_eq/=; eauto.
Qed.

End SubmitGuards.

(** X12.  A freelancer applies to a project once, for good.  Once an
    application of a freelancer for a project is stored, whatever its status
    (withdrawn and rejected included) and whatever requests are served in
    between, every later submission of that freelancer for that project is
    refused and stores nothing. *)
Theorem no_second_application rs s i a u body :
  applications s !! i = Some a →
  a_freelancer a = userId u →
  Applications.sb_projectId body = Some (a_project a) →
  ∃ code why,
    handle (Submit u body) (run rs s) = (Failure code why, run rs s)
    ∧ code ≠ 500.
Proof.
  intros Hi Hf Hpid.
  destruct (ev_applications _ _ (run_evolves rs s) i a Hi)
    as (a' & Hi' & [Hp' Hf' _ _ _]).
  simpl. eapply submit_already_applied; eauto. congruence.
Qed.

(** Alice withdrew her application; she cannot apply to the project
    again. *)
Lemma no_second_application_witness :
  let s := SampleWithdrawn.withdrawn in
  (a_status <$> applications s !! 0) = Some AsWithdrawn
  ∧ handle (Submit Sample.alice (Sample.proposal 800%float)) s
    = (Failure 400 AlreadyApplied, s).
Proof.
  intros s. split; [vm_compute; reflexivity|].
  edestruct (no_second_application [] s 0) with
    (u := Sample.alice) (body := Sample.proposal 800%float)
    as (code & why & Hr & _); [stored|reflexivity|reflexivity|].
  simpl run in Hr. rewrite Hr. f_equal.
  assert ((handle (Submit Sample.alice (Sample.proposal 800%float)) s).1
          = Failure 400 AlreadyApplied) as Hc by (vm_compute; reflexivity).
  rewrite Hr in Hc. exact Hc.
Defined.

(** X13.  A project that is no longer open takes no applications, ever.
    Once the status of a project is not open (awarded, in progress,
    completed, cancelled), whatever requests are served in between, every
    later submission for it is refused and stores nothing. *)
Theorem no_application_once_not_open rs s pid p u body :
  projects s !! pid = Some p →
  p_status p ≠ PsOpen →
  Applications.sb_projectId body = Some pid →
  ∃ code why,
    handle (Submit u body) (run rs s) = (Failure code why, run rs s)
    ∧ code ≠ 500.
Proof.
  intros Hi Hst Hpid.
  destruct (ev_projects _ _ (run_evolves rs s) pid p Hi)
    as (p' & Hi' & [_ _ _ Hst' _]).
  simpl. eapply submit_not_open; eauto.
  destruct Hst' as [->|[->| ->]]; done.
Qed.

(** The project was awarded to Alice; after the retries Bob still cannot
    apply to it. *)
Lemma no_application_once_not_open_witness :
  let s := run SampleAward.retries SampleAward.decided in
  handle (Submit Sample.bob (Sample.proposal 700%float)) s
  = (Failure 400 NotAcceptingApplications, s).
Proof.
  intros s.
  edestruct (no_application_once_not_open SampleAward.retries
               SampleAward.decided 0)
    with (u := Sample.bob) (body := Sample.proposal 700%float)
    as (code & why & Hr & _);
    [stored|vm_compute; discriminate|reflexivity|].
  fold s in Hr. rewrite Hr. f_equal.
  assert ((handle (Submit Sample.bob (Sample.proposal 700%float)) s).1
          = Failure 400 NotAcceptingApplications) as Hc by (vm_compute; reflexivity).
  rewrite Hr in Hc. exact Hc.
Defined.

(** X14.  A freelancer with five ongoing (accepted or awarded) applications
    cannot apply: every submission is refused and stores nothing. *)
Theorem no_application_at_capacity u body s :
  5 ≤ countDocuments (λ a, a_freelancer a = userId u ∧ Applications.ongoing a)
        (applications s) →
  ∃ code why, handle (Submit u body) s = (Failure code why, s) ∧ code ≠ 500.
Proof. apply submit_at_capacity. Qed.

(** Alice holds five awarded projects; her application to the sixth is
    refused. *)
Lemma no_application_at_capacity_witness :
  let s := SampleCapacity.busy in
  handle (Submit Sample.alice (SampleUnique.proposalFor 5 900%float)) s
  = (Failure 400 (TooManyOngoing 5), s).
Proof.
  intros s.
  destruct (no_application_at_capacity Sample.alice
              (SampleUnique.proposalFor 5 900%float) s)
    as (code & why & Hr & _); [vm_compute; lia|].
  rewrite Hr. f_equal.
  assert ((handle (Submit Sample.alice (SampleUnique.proposalFor 5 900%float)) s).1
          = Failure 400 (TooManyOngoing 5)) as Hc by (vm_compute; reflexivity).
  rewrite Hr in Hc. exact Hc.
Defined.

(** ** Asking for the chat of an application *)

Section ChatRequests.
Import Chats.

Lemma findOne_created {A} (P : A → Prop) `{∀ x, Decision (P x)} (l : list A) x x' :
  findOne P l = None → P x' →
  findOne P (saveAt (length l) x' (l ++ [x])) = Some (length l, x').
Proof.
  unfold findOne, saveAt. intros Hnone HP.
  rewrite insert_app_r_alt, Nat.sub_diag by done. simpl.
  rewrite list_find_app_r by done. simpl.
  by rewrite decide_True by done.
Qed.

(** X15.  Asking for the chat of an application is idempotent.  Once the
    request has succeeded (it found the chat, 200, or created it, 201), the
    same request by either party of the application is answered 200 with
    the same chat and changes nothing. *)
Theorem chat_request_is_idempotent u v aid now now' s code d s' a :
  handle (CreateChat u aid now) s = (Success code d, s') →
  applications s !! aid = Some a →
  auth [RClient; RFreelancer] v = true →
  a_client a = userId v ∨ a_freelancer a = userId v →
  ∃ d', handle (CreateChat v aid now') s' = (Success 200 d', s')
        ∧ r_chatId d' = r_chatId d ∧ is_Some (r_chatId d).
Proof.
  simpl. unfold createForApplication, insertOne.
  intros Hfirst Ha Hauth Hparty. rewrite Ha in Hfirst.
  assert (negb (bool_decide (a_client a = userId v))
          && negb (bool_decide (a_freelancer a = userId v)) = false) as Hv.
  { destruct Hparty as [Hp|Hp]; rewrite (bool_decide_eq_true_2 _ Hp); simpl;
      [done|apply andb_false_r]. }
  destruct (negb (auth _ u)); [done|].
  destruct (users s !! a_client a) eqn:Hc; [|done].
  destruct (users s !! a_freelancer a) eqn:Hf; [|done].
  destruct (_ && _); [done|].
  destruct (findOne _ (chats s)) as [[cid chat]|] eqn:Hfind.
  - injection Hfirst as <- <- <-.
    rewrite Ha, Hauth, Hc, Hf, Hv, Hfind. simpl. eauto.
  - destruct (projects s !! a_project a); [|done].
    injection Hfirst as <- <- <-. simpl.
    rewrite Ha, Hauth, Hc, Hf, Hv. simpl.
    erewrite (findOne_created (λ c, c_application c = aid)) by done.
    eauto.
Qed.

End ChatRequests.

(** Alice opened the chat of her application; the client asks for it and
    gets the same chat, and nothing is stored. *)
Lemma chat_request_is_idempotent_witness :
  let s := run [Submit Sample.alice (Sample.proposal 900%float)]
               (Sample.store 1000%float) in
  let s' := (handle (CreateChat Sample.alice 0 1%Z) s).2 in
  ∃ d', handle (CreateChat Sample.client 0 2%Z) s' = (Success 200 d', s')
        ∧ r_chatId d' = Some 0.
Proof.
  intros s s'.
  edestruct (chat_request_is_idempotent Sample.alice Sample.client 0 1%Z 2%Z s)
    as (d' & Hr & Hd & _).
  - vm_compute. reflexivity.
  - stored.
  - reflexivity.
  - left. reflexivity.
  - exists d'. split; [exact Hr|]. rewrite Hd. reflexivity.
Defined.

(** ** Answering an offer *)

Section OfferAnswers.
Import Chats.

(** What a successful answer to an offer went through. *)
Lemma respondToOffer_success u mid action now s code d s' :
  respondToOffer u mid action now s = (Success code d, s') →
  ∃ loaded chat,
    auth [RClient; RFreelancer] u = true
    ∧ (action = "accept" ∨ action = "decline")
    ∧ messages s !! mid = Some loaded
    ∧ m_messageType loaded = MtOffer
    ∧ m_offerStatus loaded = Some OsPending
    ∧ chats s !! m_chat loaded = Some chat
    ∧ ChatModel.isParticipant chat (userId u) = true
    ∧ m_sender loaded ≠ userId u
    ∧ let accept := bool_decide (action = "accept") in
      let message :=
        with_offerStatus (if accept then OsAccepted else OsDeclined) loaded in
      let s1 := set_messages (saveAt mid message (messages s)) s in
      ∃ s2 notice,
        match m_offerDetails loaded with
        | Some od =>
            if accept then acceptOffer u chat mid message od now s1 = Some s2
            else s2 = declineOffer u chat message od now s1
        | None => accept = false ∧ s2 = s1
        end
        ∧ s' = set_messages (messages s2 ++ [notice]) s2
        ∧ m_messageType notice = MtSystem
        ∧ code = 200.
Proof.
  unfold respondToOffer. intros Hrun.
  destruct (negb (auth _ u)) eqn:Hauth; [done|].
  apply negb_false_iff in Hauth.
  destruct (negb _) eqn:Haction; [done|].
  apply negb_false_iff, orb_true_iff in Haction.
  destruct (messages s !! mid) as [loaded|] eqn:Hld; [|done].
  destruct (decide _) as [|Htype%dec_stable]; [done|].
  destruct (decide _) as [|Hpending%dec_stable]; [done|].
  destruct (chats s !! m_chat loaded) as [chat|] eqn:Hchat; [|done].
  destruct (negb _) eqn:Hpart; [done|]. apply negb_false_iff in Hpart.
  destruct (users s !! m_sender loaded); [|done].
  destruct (decide _) as [|Hother]; [done|].
  exists loaded, chat. split_and!; try done.
  { destruct Haction as [?%bool_decide_eq_true|?%bool_decide_eq_true]; auto. }
  simpl in *. unfold insertOne in Hrun.
  destruct (m_offerDetails loaded) as [od|] eqn:Hod.
  - destruct (bool_decide (action = "accept")).
    + destruct (acceptOffer _ _ _ _ _ _ _) as [s2|] eqn:Hacc; [|done].
      injection Hrun as <- <- <-. eexists _, _. split_and!; eauto.
    + injection Hrun as <- <- <-. eexists _, _. split_and!; eauto.
  - destruct (bool_decide (action = "accept")); [done|].
    injection Hrun as <- <- <-. eexists _, _. split_and!; eauto.
Qed.

Lemma acceptOffer_project u chat mid message od now s s2 p :
  acceptOffer u chat mid message od now s = Some s2 →
  projects s !! c_project chat = Some p →
  projects s2 !! c_project chat
  = Some (lockPrice p (historyEntry chat message od OsAccepted (userId u) now)
                    od now).
Proof.
  unfold acceptOffer. destruct (c_participants chat) as [|p0 [|p1 rest]]; try done.
  intros [= <-] Hp. simpl.
  set (s1 := match findOne _ (applications s) with
             | Some (aid, application) => _
             | None => s
             end).
  assert (projects s1 = projects s) as Hs1.
  { subst s1. by destruct (findOne _ _) as [[??]|]. }
  rewrite Hs1, Hp. simpl. rewrite ?Hs1. by eapply saveAt_lookup_eq.
Qed.

(** The send route turns down every offer with a rate on a project whose
    agreed price is set. *)
Lemma sendMessage_price_locked v cid body now s chat p rate :
  chats s !! cid = Some chat →
  projects s !! c_project chat = Some p →
  Js.truthy_opt (p_agreedPrice p) = true →
  mb_messageType body = Some "offer" →
  offeredRate (mb_offerDetails body) = Some rate → Js.truthy rate = true →
  ∃ code why, sendMessage v cid body now s = (Failure code why, s) ∧ code ≠ 500.
Proof.
  intros Hchat Hp Hlocked Htype Hrate Htruthy.
  unfold sendMessage. rewrite Hchat, Htype. simpl.
  unfold offerGuard. rewrite Hrate, Htruthy, Hp. simpl. rewrite Hlocked.
  repeat case_match; simplify_eq/=; eauto.
Qed.

End OfferAnswers.

(** X16.  An accepted offer locks the price for the whole project.  Right
    after an offer with a non-zero rate has been accepted, every offer with
    a non-zero rate sent to any chat of the same project, by anyone, is
    refused and stores nothing. *)
Theorem accepted_offer_locks_the_project u mid now s d s' m od rate chat p :
  handle (RespondToOffer u mid "accept" now) s = (Success 200 d, s') →
  messages s !! mid = Some m →
  m_offerDetails m = Some od → od_proposedRate od = Some rate →
  Js.truthy rate = true →
  chats s !! m_chat m = Some chat →
  projects s !! c_project chat = Some p →
  ∀ v cid chat' body now' rate',
    chats s' !! cid = Some chat' → c_project chat' = c_project chat →
    Chats.mb_messageType body = Some "offer" →
    Chats.offeredRate (Chats.mb_offerDetails body) = Some rate' →
    Js.truthy rate' = true →
    ∃ code why,
      handle (SendMessage v cid body now') s' = (Failure code why, s')
      ∧ code ≠ 500.
Proof.
  simpl. intros Hrun Hm Hod Hrate Htruthy Hchat Hp.
  apply respondToOffer_success in Hrun
    as (loaded & chat0 & _ & _ & Hld & _ & _ & Hchat0 & _ & _ & Hrest).
  simplify_eq. rewrite Hod in Hrest. simpl in Hrest.
  destruct Hrest as (s2 & notice & Hacc & -> & _).
  eapply acceptOffer_project in Hacc; [|exact Hp].
  intros v cid chat' body now' rate' Hchat' Hsame Htype Hrate' Htruthy'.
  eapply sendMessage_price_locked; eauto.
  - simpl. rewrite Hsame. exact Hacc.
  - simpl. by rewrite Hrate.
Qed.

(** The client accepts Alice's offer of 800; Bob's new offer of 850 in his
    own chat of the project is refused. *)
Lemma accepted_offer_locks_the_project_witness :
  ∃ code why,
    handle (SendMessage Sample.bob 1 (Sample.offer 850%float Sample.weeks) 6%Z)
           SamplePrice.locked
    = (Failure code why, SamplePrice.locked)
    ∧ code ≠ 500.
Proof.
  set (s := run [ Submit Sample.alice (Sample.proposal 900%float);
                  Submit Sample.bob (Sample.proposal 950%float);
                  CreateChat Sample.alice 0 1%Z;
                  CreateChat Sample.bob 1 2%Z;
                  SendMessage Sample.alice 0 (Sample.offer 800%float Sample.weeks) 3%Z;
                  SendMessage Sample.bob 1 (Sample.offer 900%float Sample.weeks) 4%Z ]
                (Sample.store 1000%float)).
  edestruct (accepted_offer_locks_the_project Sample.client 2 5%Z s) with
    (rate := 800%float) (v := Sample.bob) (cid := 1) (now' := 6%Z)
    (body := Sample.offer 850%float Sample.weeks) (rate' := 850%float)
    as (code & why & Hr & Hcode).
  - vm_compute. reflexivity.
  - stored.
  - reflexivity.
  - reflexivity.
  - reflexivity.
  - stored.
  - stored.
  - stored.
  - reflexivity.
  - reflexivity.
  - reflexivity.
  - reflexivity.
  - exists code, why. split; [exact Hr|exact Hcode].
Defined.

(** ** Access control *)

(** Puts the guards a route has passed in the form the properties use. *)
Ltac passed_guards :=
  repeat match goal with
  | H : negb _ = false |- _ => apply negb_false_iff in H
  | H : negb _ && negb _ = false |- _ => apply andb_false_iff in H
  | H : _ ∨ _ |- _ => destruct H
  | H : bool_decide _ = true |- _ => apply bool_decide_eq_true in H
  | H : decide (_ ≠ _) = right ?n |- _ => clear H; apply dec_stable in n
  end.

(** Goes through the branches of a route: one that neither succeeds nor
    writes is set aside, and in any other the guards passed entitle the
    caller. *)
Ltac entitled route :=
  unfold route, insertOne, crash;
  repeat (case_match; simplify_eq/=);
  (intros [(? & ? & ?)|?]; [|try done]); simplify_eq; passed_guards; eauto 10.

(** X17.  Only an entitled caller gets a request served or changes the
    store.  When a request succeeds, or leaves the store other than it
    found it (a failure while serving it included), the caller had a role
    of the route and was the party the route serves. *)
Theorem only_entitled_callers_are_served r s :
  (∃ code d, (handle r s).1 = Success code d) ∨ (handle r s).2 ≠ s →
  authorised r s.
Proof.
  destruct r; simpl;
    [ entitled Applications.submit | entitled Applications.respond
    | entitled Applications.updateStatus | entitled Applications.withdraw
    | entitled Applications.award | entitled Chats.sendMessage
    | entitled Chats.close | entitled Chats.award
    | entitled Chats.createForApplication | entitled Chats.respondToOffer ].
Qed.

(** The client of the project answers Alice's offer: a participant of the
    chat, and not the sender of the offer. *)
Lemma only_entitled_callers_are_served_witness :
  authorised (RespondToOffer Sample.client 1 "accept" 5%Z) SampleChat.negotiating.
Proof.
  apply only_entitled_callers_are_served. left. eexists _, _.
  vm_compute. reflexivity.
Defined.

(** ** The chat window and the routes *)

Section Window.
Import Chats.

(** X18.  An offer the chat window posts passes the offer block of the send
    route.  When the window, with the price-lock flag it derives from the
    project, lets an offer through, the route's price-lock and cap checks
    let it through as well, for a sender whose role in the chat is the role
    the window knows: the checks of the route are among those of the
    window. *)
Theorem window_offer_passes_the_route userRole p form body u chat s :
  ChatInterface.handleSendOffer userRole (ChatWindow.priceLocked (Some p))
    (Some p) form = inr body →
  projects s !! c_project chat = Some p →
  (∀ sender, ChatModel.findParticipant chat (userId u) = Some sender →
             pt_role sender = userRole) →
  mb_messageType body = Some "offer"
  ∧ offerGuard u chat "offer" (mb_offerDetails body) s = None.
Proof.
  unfold ChatInterface.handleSendOffer, ChatWindow.priceLocked.
  intros Hsend Hp Hrole.
  destruct (_ || _); [done|].
  destruct (Js.truthy_opt (p_agreedPrice p)) eqn:Hlocked; [done|].
  simpl in Hsend.
  destruct (bool_decide (p_status p = PsAwarded) || _); [done|].
  destruct (p_budgetAmount p) as [budget|] eqn:Hbudget; simpl in Hsend.
  - destruct (bool_decide (userRole = RFreelancer) && Js.truthy budget
              && Js.gt (ChatInterface.of_rate form) _) eqn:Hcap; [done|].
    repeat case_match; simplify_eq/=; (split; [done|]);
      unfold offerGuard; simpl; rewrite Hp; simpl; rewrite Hlocked, ?Hbudget;
      repeat case_match; simplify_eq/=; try done.
    all: exfalso.
    all: match goal with
         | H : pt_role <$> ChatModel.findParticipant _ _ = Some RFreelancer |- _ =>
             apply fmap_Some in H as (sender & Hsender & Hfreelancer);
             apply Hrole in Hsender; rewrite Hsender in Hfreelancer;
             subst userRole
         end.
    all: rewrite bool_decide_eq_true_2 in Hcap by done.
    all: unfold maxAllowed in *; simpl in Hcap; congruence.
  - repeat case_match; simplify_eq/=; (split; [done|]);
      unfold offerGuard; simpl; rewrite Hp; simpl; rewrite Hlocked, ?Hbudget;
      repeat case_match; simplify_eq/=; done.
Qed.

(** X19.  A text the chat window posts is stored.  The window trims the
    text and posts it only when it is not empty and at most 10000
    characters long; the send route then stores it, as a text message with
    the trimmed content, for every participant of a chat that is not
    closed. *)
Theorem window_text_is_stored newMessage body u cid chat now s :
  ChatWindow.handleSendMessage newMessage = inr body →
  auth [RClient; RFreelancer] u = true →
  chats s !! cid = Some chat →
  ChatModel.isParticipant chat (userId u) = true →
  c_status chat ≠ CsClosed →
  ∃ d s',
    handle (SendMessage u cid body now) s = (Success 201 d, s')
    ∧ messages s'
      = messages s ++
        [ChatModel.newMessage cid (userId u) (Typed (Js.trim newMessage))
           MtText None None now].
Proof.
  unfold ChatWindow.handleSendMessage, ChatWindow.MAX_MESSAGE_LENGTH.
  intros Hsend Hauth Hchat Hpart Hopen.
  destruct (negb (Js.nonempty _)) eqn:Hne; [done|].
  destruct (_ <? _)%Z eqn:Hlen; [done|].
  injection Hsend as <-. simpl. unfold sendMessage. simpl.
  rewrite Hauth, Hne, Hlen, Hchat, Hpart. simpl.
  apply negb_false_iff in Hne. rewrite Hne. simpl.
  rewrite decide_False by done. simpl. eauto.
Qed.

End Window.

(** Alice's offer of 5000 by a date before the deadline goes through the
    window and through the offer block of the route. *)
Lemma window_offer_passes_the_route_witness :
  ∃ body,
    ChatInterface.handleSendOffer RFreelancer false
      (Some (Sample.project 10000%float)) SampleWindow.form = inr body
    ∧ Chats.offerGuard Sample.alice SampleWindow.chat "offer"
        (Chats.mb_offerDetails body) SampleOffer.chatting = None.
Proof.
  eexists. split; [vm_compute; reflexivity|].
  eapply (window_offer_passes_the_route RFreelancer
            (Sample.project 10000%float) SampleWindow.form _ Sample.alice
            SampleWindow.chat SampleOffer.chatting).
  - vm_compute. reflexivity.
  - vm_compute. reflexivity.
  - intros sender Hsender. vm_compute in Hsender. by injection Hsender as <-.
Defined.

(** Alice types a greeting with blanks around it; the trimmed text is
    stored in her chat. *)
Lemma window_text_is_stored_witness :
  ∃ d s',
    handle (SendMessage Sample.alice 0 SampleWindow.hello 2%Z) SampleOffer.chatting
    = (Success 201 d, s')
    ∧ (m_content <$> messages s' !! 1) = Some (Typed "hello").
Proof.
  destruct (window_text_is_stored "  hello  " SampleWindow.hello Sample.alice 0
              SampleWindow.chat 2%Z SampleOffer.chatting)
    as (d & s' & Hr & Hm).
  - vm_compute. reflexivity.
  - reflexivity.
  - vm_compute. reflexivity.
  - reflexivity.
  - discriminate.
  - exists d, s'. split; [exact Hr|]. rewrite Hm. vm_compute. reflexivity.
Defined.

Section Mirror.
Import Chats.

Lemma declineOffer_messages u chat message od now s :
  messages (declineOffer u chat message od now s) = messages s.
Proof. unfold declineOffer. by destruct (projects s !! _). Qed.

(** X20.  The chat window mirrors the store after an answer.  When the
    route has served an answer to an offer, the update the window makes to
    each message it shows (the messages of the chat of that offer) gives
    the very message the store now holds under that id: the answered offer
    with its new status and, after an acceptance, every other pending offer
    of the chat declined. *)
Theorem window_mirrors_the_answer u mid action now s code d s' loaded i m :
  handle (RespondToOffer u mid action now) s = (Success code d, s') →
  messages s !! mid = Some loaded →
  messages s !! i = Some m → m_chat m = m_chat loaded →
  messages s' !! i = Some (ChatWindow.answered mid action i m).
Proof.
  simpl. intros Hrun Hld Hi Hchat.
  apply respondToOffer_success in Hrun
    as (loaded' & chat & _ & Haction & Hld' & _ & _ & _ & _ & _ & Hrest).
  rewrite Hld in Hld'. injection Hld' as <-. simpl in Hrest. destruct Hrest as (s2 & notice & Hs2 & -> & _).
  simpl. unfold ChatWindow.answered.
  assert (i < length (messages s)) as Hlt by by eapply lookup_lt_Some.
  assert (messages s2 !! i = Some (ChatWindow.answered mid action i m)) as Hgoal.
  { unfold ChatWindow.answered.
    destruct (bool_decide (action = "accept")) eqn:Haccept.
    - destruct (m_offerDetails loaded) as [od|]; [|by destruct Hs2].
      apply acceptOffer_messages in Hs2. rewrite Hs2. simpl.
      unfold declineOthers. rewrite updateMany_lookup.
      destruct (decide (i = mid)) as [->|Hne].
      + erewrite saveAt_lookup_eq by done. simpl.
        rewrite decide_False by naive_solver. by simplify_eq.
      + rewrite saveAt_lookup_ne by done. rewrite Hi. simpl. f_equal.
        unfold isPendingOffer. simpl.
        destruct (bool_decide (m_messageType m = MtOffer)) eqn:Ht;
          destruct (bool_decide (m_offerStatus m = Some OsPending)) eqn:Hp;
          simpl;
          [apply bool_decide_eq_true in Ht; apply bool_decide_eq_true in Hp;
           by rewrite decide_True
          |apply bool_decide_eq_false in Hp; rewrite decide_False; naive_solver
          |apply bool_decide_eq_false in Ht; rewrite decide_False; naive_solver
          |apply bool_decide_eq_false in Ht; rewrite decide_False; naive_solver].
    - assert (messages s2 = saveAt mid (with_offerStatus OsDeclined loaded)
                                   (messages s)) as ->.
      { destruct (m_offerDetails loaded) as [od|].
        - rewrite Hs2. apply declineOffer_messages.
        - by destruct Hs2 as [_ ->]. }
      destruct (decide (i = mid)) as [->|Hne].
      + erewrite saveAt_lookup_eq by done. by simplify_eq.
      + by rewrite saveAt_lookup_ne. }
  unfold ChatWindow.answered in Hgoal. by apply lookup_app_l_Some.
Qed.

(** X21.  Declining an offer changes no terms.  When a decline is served,
    the users, applications and chats are as they were; the declined offer
    is marked declined and a notice is added to the messages; and on the
    projects nothing changes but the negotiation history of the project of
    the chat, which gets one entry: the offer, declined by the caller.  (The
    entry is written when the offer carries its details and the project is
    stored; the projects are unchanged otherwise.) *)
Theorem declining_changes_no_terms u mid now s d s' :
  handle (RespondToOffer u mid "decline" now) s = (Success 200 d, s') →
  users s' = users s ∧ applications s' = applications s ∧ chats s' = chats s
  ∧ ∃ m chat,
      messages s !! mid = Some m ∧ chats s !! m_chat m = Some chat
      ∧ (∃ notice,
           messages s'
           = saveAt mid (with_offerStatus OsDeclined m) (messages s) ++ [notice])
      ∧ projects s'
        = match m_offerDetails m, projects s !! c_project chat with
          | Some od, Some p =>
              saveAt (c_project chat)
                (pushHistory p
                   {| ne_offeredBy := m_sender m;
                      ne_offeredByRole :=
                        pt_role <$> ChatModel.findParticipant chat (m_sender m);
                      ne_amount := od_proposedRate od;
                      ne_timeline := od_timeline od;
                      ne_status := OsDeclined;
                      ne_respondedBy := userId u;
                      ne_respondedAt := now |})
                (projects s)
          | _, _ => projects s
          end.
Proof.
  simpl. intros Hrun.
  apply respondToOffer_success in Hrun
    as (loaded & chat & _ & _ & Hld & _ & _ & Hchat & _ & _ & Hrest).
  simpl in Hrest. destruct Hrest as (s2 & notice & Hs2 & -> & _). simpl.
  destruct (m_offerDetails loaded) as [od|] eqn:Hod.
  - subst s2. unfold declineOffer. simpl.
    destruct (projects s !! c_project chat) as [p|] eqn:Hp; simpl;
      (split_and!; [done..|]); exists loaded, chat; rewrite Hod, Hp;
      split_and!; eauto.
  - destruct Hs2 as [_ ->]. simpl. split_and!; [done..|].
    exists loaded, chat. rewrite Hod. split_and!; eauto.
Qed.
End Mirror.

(** The window declines, by an acceptance, the client's pending offer when
    the client accepts Alice's: message 2 is shown, and stored, as
    declined. *)
Lemma window_mirrors_the_answer_witness :
  let s' := (handle (RespondToOffer Sample.client 1 "accept" 5%Z)
                    SampleChat.negotiating).2 in
  (m_offerStatus <$> messages s' !! 2) = Some (Some OsDeclined)
  ∧ (m_offerStatus <$> messages s' !! 1) = Some (Some OsAccepted).
Proof.
  intros s'. split.
  - edestruct (window_mirrors_the_answer Sample.client 1 "accept" 5%Z
                 SampleChat.negotiating) with (i := 2) as [];
      [vm_compute; reflexivity|stored|stored|reflexivity|].
    vm_compute. reflexivity.
  - edestruct (window_mirrors_the_answer Sample.client 1 "accept" 5%Z
                 SampleChat.negotiating) with (i := 1) as [];
      [vm_compute; reflexivity|stored|stored|reflexivity|].
    vm_compute. reflexivity.
Defined.

(** The client declines Alice's offer of 800: her application and the
    chats are as they were, and the history of the project, empty before,
    holds the declined offer. *)
Lemma declining_changes_no_terms_witness :
  applications SampleHistory.declined = applications SampleChat.negotiating
  ∧ chats SampleHistory.declined = chats SampleChat.negotiating
  ∧ (p_negotiationHistory <$> projects SampleHistory.declined !! 0)
    = Some [ {| ne_offeredBy := 1; ne_offeredByRole := Some RFreelancer;
                ne_amount := Some 800%float;
                ne_timeline := Some Sample.weeks; ne_status := OsDeclined;
                ne_respondedBy := 0; ne_respondedAt := 5%Z |} ].
Proof.
  edestruct (declining_changes_no_terms Sample.client 1 5%Z
               SampleChat.negotiating)
    as (_ & Ha & Hc & m & chat & Hm & Hchat & _ & Hp);
    [vm_compute; reflexivity|].
  vm_compute in Hm. injection Hm as <-.
  vm_compute in Hchat. injection Hchat as <-.
  split; [exact Ha|]. split; [exact Hc|].
  apply (f_equal (λ ps, p_negotiationHistory <$> ps !! 0)) in Hp.
  vm_compute in Hp. vm_compute. exact Hp.
Defined.

(** ** The terms of an award *)

Section AwardTerms.
Import Applications.

Lemma respond_accept_project u aid now s d s' a p :
  respond u aid "accept" now s = (Success 200 d, s') →
  applications s !! aid = Some a → projects s !! a_project a = Some p →
  projects s' !! a_project a
  = Some (awardProject p (with_respondedAt now (with_status AsAwarded a)) aid now).
Proof.
  unfold respond. intros Hrun Ha Hp. rewrite Ha, Hp in Hrun. simpl in Hrun.
  revert Hrun.
  destruct (negb (auth _ u)); [done|].
  destruct (decide _); [done|].
  destruct (negb _); [done|]. simpl.
  destruct (users s !! a_freelancer a); [|done].
  repeat name_core. simpl in *. intros [= <- <-]. simpl.
  repeat match goal with H : projects _ = _ |- _ => rewrite H end.
  simpl. by eapply saveAt_lookup_eq.
Qed.

Lemma updateStatus_accepted_project u aid now s d s' a p :
  updateStatus u aid "accepted" now s = (Success 200 d, s') →
  applications s !! aid = Some a → projects s !! a_project a = Some p →
  projects s' !! a_project a
  = Some (awardProject p (with_respondedAt now (with_status AsAwarded a)) aid now).
Proof.
  unfold updateStatus. intros Hrun Ha Hp. rewrite Ha, Hp in Hrun. simpl in Hrun.
  revert Hrun.
  destruct (negb (auth _ u)); [done|].
  destruct (decide _); [done|].
  destruct (negb _); [done|]. simpl.
  destruct (users s !! a_freelancer a); [|done].
  repeat name_core. simpl in *. intros [= <- <-]. simpl.
  repeat match goal with H : projects _ = _ |- _ => rewrite H end.
  simpl. by eapply saveAt_lookup_eq.
Qed.

Lemma award_project u aid now s d s' a p :
  award u aid now s = (Success 200 d, s') →
  applications s !! aid = Some a → projects s !! a_project a = Some p →
  projects s' !! a_project a
  = Some (awardProject p (with_status AsAwarded a) aid now).
Proof.
  unfold award. intros Hrun Ha Hp. rewrite Ha, Hp in Hrun.
  revert Hrun.
  destruct (negb (auth _ u)); [done|].
  destruct (users s !! a_client a); [|done].
  destruct (decide _); [done|].
  destruct (negb _); [done|]. simpl.
  destruct (_ || _); [done|].
  destruct (users s !! a_freelancer a); [|done].
  repeat name_core. simpl in *. intros [= <- <-]. simpl.
  repeat match goal with H : projects _ = _ |- _ => rewrite H end.
  simpl. by eapply saveAt_lookup_eq.
Qed.

End AwardTerms.

(** X22.  An award settles the project on the negotiated terms.  When one
    of the three award requests for an application succeeds, the project of
    the application is awarded to its freelancer, with the application as
    the awarded one and its timeline as the final timeline; the agreed
    price is kept, and the final rate is the agreed price when one is set
    (the budget is then aligned to it), and the rate of the application
    otherwise. *)
Theorem award_settles_the_terms r u aid now s d s' a p :
  r = Award u aid now ∨ r = UpdateStatus u aid "accepted" now
  ∨ r = Respond u aid "accept" now →
  handle r s = (Success 200 d, s') →
  applications s !! aid = Some a → projects s !! a_project a = Some p →
  ∃ p', projects s' !! a_project a = Some p'
    ∧ p_status p' = PsAwarded
    ∧ p_awardedTo p' = Some (a_freelancer a)
    ∧ p_awardedApplication p' = Some aid
    ∧ p_awardedAt p' = Some now
    ∧ p_finalTimeline p' = a_proposedTimeline a
    ∧ p_agreedPrice p' = p_agreedPrice p
    ∧ (Js.truthy_opt (p_agreedPrice p) = true →
       p_finalRate p' = p_agreedPrice p ∧ p_budgetAmount p' = p_agreedPrice p)
    ∧ (Js.truthy_opt (p_agreedPrice p) = false →
       p_finalRate p' = a_proposedRate a ∧ p_budgetAmount p' = p_budgetAmount p).
Proof.
  intros Hr Hrun Ha Hp.
  assert (∃ a', projects s' !! a_project a
                = Some (Applications.awardProject p a' aid now)
                ∧ a_freelancer a' = a_freelancer a
                ∧ a_proposedTimeline a' = a_proposedTimeline a
                ∧ a_proposedRate a' = a_proposedRate a) as (a' & Hp' & Hf & Ht & Hrate).
  { destruct Hr as [->|[->| ->]]; simpl in Hrun.
    - eexists. split; [by eapply award_project|done].
    - eexists. split; [by eapply updateStatus_accepted_project|done].
    - eexists. split; [by eapply respond_accept_project|done]. }
  eexists. split; [exact Hp'|]. simpl. unfold Js.or_else.
  split_and!; try done; [by rewrite Hf|..];
    intros Hprice; rewrite Hprice, ?Hrate; (split; [done|]);
    (destruct (p_agreedPrice p) as [agreed|]; [|done]); simpl in Hprice;
    by rewrite Hprice.
Qed.

(** The client accepts Alice's offer of 5000 and then awards her the
    project: the final rate and the budget are 5000. *)
Lemma award_settles_the_terms_witness :
  let s := run [ SendMessage Sample.alice 0 SampleOffer.offer5000 2%Z;
                 RespondToOffer Sample.client 1 "accept" 3%Z ]
               SampleOffer.chatting in
  let s' := (handle (Award Sample.client 0 4%Z) s).2 in
  ∃ p', projects s' !! 0 = Some p'
        ∧ p_status p' = PsAwarded ∧ p_finalRate p' = Some 5000%float
        ∧ p_budgetAmount p' = Some 5000%float.
Proof.
  intros s s'.
  edestruct (award_settles_the_terms (Award Sample.client 0 4%Z) Sample.client 0
               4%Z s) as (p' & Hp' & Hst & _ & _ & _ & _ & _ & Hlocked & _).
  - left. reflexivity.
  - vm_compute. reflexivity.
  - stored.
  - stored.
  - exists p'. split; [exact Hp'|]. split; [exact Hst|].
    destruct Hlocked as [-> ->]; [vm_compute; reflexivity|].
    split; vm_compute; reflexivity.
Defined.

(** ** The real-time hub *)

Section FilterFacts.
Context {A : Type}.
Implicit Types (l : list A).

Lemma filter_ext_in (P Q : A → Prop) `{∀ x, Decision (P x)}
    `{∀ x, Decision (Q x)} l :
  (∀ x, x ∈ l → (P x ↔ Q x)) → filter P l = filter Q l.
Proof.
  induction l as [|x l IH]; [done|]. intros Hext. rewrite !filter_cons.
  rewrite IH by (intros y Hy; apply Hext; by right).
  destruct (decide (P x)) as [HP|HP], (decide (Q x)) as [HQ|HQ]; try done;
    exfalso; apply (Hext x) in HP || apply (Hext x) in HQ; try done; by left.
Qed.

Lemma filter_all (P : A → Prop) `{∀ x, Decision (P x)} l :
  (∀ x, x ∈ l → P x) → filter P l = l.
Proof.
  induction l as [|x l IH]; [done|]. intros Hall.
  rewrite filter_cons, decide_True by (apply Hall; by left).
  rewrite IH; [done|]. intros y Hy. apply Hall. by right.
Qed.
End FilterFacts.

Section MapFacts.
Import Realtime.
Context {V : Type}.
Implicit Types (m : list (string * V)) (k : string) (v : V).

Lemma mkeys_mdelete k m : mkeys (mdelete k m) = filter (λ k', k' ≠ k) (mkeys m).
Proof.
  unfold mkeys, mdelete. induction m as [|[k' v'] m IH]; [done|].
  rewrite fmap_cons, !filter_cons. simpl.
  destruct (decide (k' ≠ k)); simpl; by rewrite <- IH.
Qed.

Lemma NoDup_mdelete k m : NoDup (mkeys m) → NoDup (mkeys (mdelete k m)).
Proof. rewrite mkeys_mdelete. apply NoDup_filter. Qed.

Lemma elem_of_mkeys_mset k' k v m :
  k' ∈ mkeys (mset k v m) ↔ k' = k ∨ k' ∈ mkeys m.
Proof.
  unfold mkeys. induction m as [|[k0 v0] m IH]; simpl.
  - rewrite list_elem_of_singleton, elem_of_nil. tauto.
  - destruct (decide (k0 = k)) as [->|Hne]; simpl;
      rewrite !elem_of_cons; [tauto|]. rewrite IH. tauto.
Qed.

Lemma NoDup_mset k v m : NoDup (mkeys m) → NoDup (mkeys (mset k v m)).
Proof.
  unfold mkeys. induction m as [|[k0 v0] m IH]; simpl.
  - intros _. apply NoDup_singleton.
  - rewrite NoDup_cons. intros [Hnin Hnd].
    destruct (decide (k0 = k)) as [->|Hne]; simpl; rewrite NoDup_cons.
    + done.
    + split; [|by apply IH]. intros Hin.
      apply (elem_of_mkeys_mset k0 k v m) in Hin as [?|?]; done.
Qed.

Lemma NoDup_mkeys_filter (P : string * V → Prop) `{∀ e, Decision (P e)} m :
  NoDup (mkeys m) → NoDup (mkeys (filter P m)).
Proof.
  intros Hnd. eapply sublist_NoDup; [exact Hnd|].
  unfold mkeys. apply fmap_sublist, sublist_filter.
Qed.

Lemma mdelete_fresh k m : k ∉ mkeys m → mdelete k m = m.
Proof.
  unfold mkeys, mdelete. induction m as [|[k' v'] m IH]; [done|].
  rewrite fmap_cons, not_elem_of_cons. intros [Hne Hnin]. simpl in Hne.
  rewrite filter_cons, decide_True by (simpl; congruence).
  by rewrite IH.
Qed.

Lemma mdelete_mset_fresh k v m : k ∉ mkeys m → mdelete k (mset k v m) = m.
Proof.
  unfold mkeys, mdelete. induction m as [|[k' v'] m IH]; simpl.
  - intros _. rewrite filter_cons, decide_False by (simpl; tauto). done.
  - rewrite not_elem_of_cons. intros [Hne Hnin].
    rewrite decide_False by done.
    rewrite filter_cons, decide_True by (simpl; congruence).
    by rewrite IH.
Qed.

Lemma mhas_mdelete k m : mhas k (mdelete k m) = false.
Proof.
  unfold mhas, mget, mdelete. apply bool_decide_eq_false. intros [v Hv].
  apply fmap_Some in Hv as ([i e] & Hfind & _).
  apply list_find_Some in Hfind as (Hin%list_elem_of_lookup_2 & He & _).
  apply list_elem_of_filter in Hin as [Hne _]. done.
Qed.

(** A loop that deletes the key of every entry satisfying [P] keeps the
    entries that do not satisfy it. *)
Lemma delete_loop (P : string * V → bool) m :
  NoDup (mkeys m) →
  foldl (λ acc e, if P e then mdelete e.1 acc else acc) m m
  = filter (λ e, P e = false) m.
Proof.
  intros Hnd.
  assert (∀ l acc,
            foldl (λ acc e, if P e then mdelete e.1 acc else acc) acc l
            = filter (λ x : string * V,
                        Forall (λ e : string * V, P e = true → e.1 ≠ x.1) l) acc)
    as Hloop.
  { induction l as [|e l IH]; intros acc; simpl.
    - symmetry. apply filter_all. intros x _. apply Forall_nil_2.
    - rewrite IH. destruct (P e) eqn:HP.
      + unfold mdelete. rewrite list_filter_filter. apply filter_ext_in.
        intros x _. rewrite Forall_cons. split.
        * intros [Hl He]. split; [intros _; congruence|done].
        * intros [He Hl]. split; [done|]. intros Heq. by apply He.
      + apply filter_ext_in. intros x _. rewrite Forall_cons. split.
        * intros Hl. split; [congruence|done].
        * by intros [_ Hl]. }
  rewrite Hloop. apply filter_ext_in. intros x Hx.
  rewrite Forall_forall. split.
  - intros Hall. destruct (P x) eqn:HP; [|done]. by destruct (Hall x Hx HP).
  - intros HP e He HPe Heq.
    assert (e = x) as ->; [|congruence].
    apply list_elem_of_lookup in He as [i Hi], Hx as [j Hj].
    assert (i = j) as ->; [|congruence].
    eapply NoDup_lookup; [exact Hnd|..]; unfold mkeys;
      rewrite list_lookup_fmap; [by rewrite Hi|by rewrite Hj, Heq].
Qed.

End MapFacts.

Section HubFacts.
Import Realtime.

Lemma loop_split {V E} (P : string * V → bool) (emit : string * V → list E)
    (l : list (string * V)) (acc : list (string * V) * list E) :
  foldl (λ acc e, if P e then (mdelete e.1 acc.1, acc.2 ++ emit e) else acc)
        acc l
  = (foldl (λ m e, if P e then mdelete e.1 m else m) acc.1 l,
     acc.2 ++ flat_map (λ e, if P e then emit e else []) l).
Proof.
  revert acc. induction l as [|e l IH]; intros [m es]; simpl.
  - by rewrite app_nil_r.
  - rewrite IH. destruct (P e); simpl; [|done]. by rewrite <- app_assoc.
Qed.

Lemma stopTypingOf_spec socket t :
  NoDup (mkeys t) →
  stopTypingOf socket t
  = (markersOfOthers socket t,
     flat_map (λ e, if bool_decide (td_socketId e.2 = socket)
                    then [(ToOthers,
                           UserTyping (td_userId e.2) (td_chatId e.2) false)]
                    else []) t).
Proof.
  intros Hnd. unfold stopTypingOf.
  rewrite (loop_split (λ e, bool_decide (td_socketId e.2 = socket))
             (λ e, [(ToOthers, UserTyping (td_userId e.2) (td_chatId e.2) false)])).
  simpl. f_equal. rewrite delete_loop by done.
  unfold markersOfOthers. apply filter_ext_in. intros e _.
  by rewrite bool_decide_eq_false.
Qed.

Lemma endCallsOf_spec userId online calls :
  NoDup (mkeys calls) →
  endCallsOf userId online calls
  = (callsWithout userId calls,
     flat_map (λ e, if involves userId e.2 then
                      match socketOf (if bool_decide (cd_caller e.2 = userId)
                                      then cd_callee e.2 else cd_caller e.2)
                                     online with
                      | Some target =>
                          [(ToSocket target,
                            CallEnded e.1 "disconnect" (cd_workspaceId e.2))]
                      | None => []
                      end
                    else []) calls).
Proof.
  intros Hnd. unfold endCallsOf.
  rewrite (loop_split (λ e, involves userId e.2)
             (λ e, match socketOf (if bool_decide (cd_caller e.2 = userId)
                                   then cd_callee e.2 else cd_caller e.2)
                                  online with
                   | Some target =>
                       [(ToSocket target,
                         CallEnded e.1 "disconnect" (cd_workspaceId e.2))]
                   | None => []
                   end)).
  simpl. f_equal. by rewrite delete_loop.
Qed.

Lemma keys_nonempty_delete k (m : list (string * Presence.UserData)) :
  (∀ k', k' ∈ Presence.keys m → Js.nonempty k' = true) →
  ∀ k', k' ∈ Presence.keys (Presence.delete k m) → Js.nonempty k' = true.
Proof.
  intros Hne k'. rewrite keys_delete. intros [_ Hin]%list_elem_of_filter. auto.
Qed.

Lemma wellFormed_start : wellFormed start.
Proof. split; simpl; try apply NoDup_nil_2. by intros k ?%elem_of_nil. Qed.

Lemma wellFormed_on e h : wellFormed h → wellFormed (on e h).1.
Proof.
  intros [Ho Hn Ht Hc].
  destruct e as [socket uid now|uid|socket uid cid now|uid cid|caller callee ws
                |callId callerId responderId ws accepted now
                |callId target endedBy ws|socket]; simpl.
  - unfold userOnline. destruct (Js.nonempty uid) eqn:Hid; [|done].
    split; simpl; try done.
    + apply (NoDup_step _ (Presence.UserOnline socket uid now)), Ho.
    + unfold Presence.userOnline. rewrite Hid. simpl. intros k.
      rewrite elem_of_keys_set. intros [->|Hin]; [done|].
      destruct (dropStale_cases socket uid (onlineUsers h)) as [Hd|Hd];
        rewrite Hd in Hin; [auto|]. by eapply keys_nonempty_delete.
  - unfold userOffline. destruct (Presence.has _ _); [|done].
    split; simpl; try done; [by apply NoDup_delete|by apply keys_nonempty_delete].
  - split; simpl; try done. by apply NoDup_mset.
  - split; simpl; try done. by apply NoDup_mdelete.
  - unfold videoCallRequest. repeat case_match; done.
  - unfold videoCallResponse. destruct accepted; simpl; [|done].
    split; simpl; try done. by apply NoDup_mset.
  - unfold videoCallEnded. destruct (mhas _ _); simpl; [|done].
    split; simpl; try done. by apply NoDup_mdelete.
  - unfold disconnect.
    rewrite (stopTypingOf_spec _ _ Ht).
    assert (NoDup (Presence.keys (Presence.disconnect socket (onlineUsers h)).1))
      as Ho' by apply (NoDup_step _ (Presence.Disconnect socket)), Ho.
    assert (∀ k, k ∈ Presence.keys (Presence.disconnect socket (onlineUsers h)).1
                 → Js.nonempty k = true) as Hn'.
    { unfold Presence.disconnect.
      destruct (list_find _ _) as [[i [u d]]|]; simpl; [|done].
      by apply keys_nonempty_delete. }
    destruct (list_find _ _) as [[i [u d]]|]; simpl.
    + destruct (Js.nonempty u); simpl.
      * rewrite (endCallsOf_spec _ _ _ Hc). simpl. split; simpl; try done.
        -- by apply NoDup_mkeys_filter.
        -- by apply NoDup_mkeys_filter.
      * split; simpl; try done.
        by apply NoDup_mkeys_filter.
    + split; simpl; try done.
      by apply NoDup_mkeys_filter.
Qed.

Lemma wellFormed_after es : wellFormed (after es).
Proof.
  unfold after. generalize wellFormed_start. generalize start.
  induction es as [|e es IH]; intros h Hwf; [done|].
  simpl. by apply IH, wellFormed_on.
Qed.

End HubFacts.

Section HubProperties.
Import Realtime.

(** X23.  A disconnect clears the typing markers of the socket.  After any
    events, when a socket disconnects, the typing markers that remain are
    exactly those of the other sockets, in their order; none of the socket
    is left; and for each marker removed the other sockets are told that
    the typing stopped. *)
Theorem disconnect_clears_typing es socket :
  let h := after es in
  let r := disconnect socket h in
  typingUsers r.1 = markersOfOthers socket (typingUsers h)
  ∧ markersOf socket (typingUsers r.1) = []
  ∧ ∀ e, e ∈ markersOf socket (typingUsers h) →
         (ToOthers, UserTyping (td_userId e.2) (td_chatId e.2) false) ∈ r.2.
Proof.
  intros h r. destruct (wellFormed_after es) as [_ _ Ht _]. fold h in Ht.
  assert (typingUsers r.1 = markersOfOthers socket (typingUsers h)
          ∧ ∃ emits1, r.2 = emits1 ++ (stopTypingOf socket (typingUsers h)).2)
    as [Htyping (emits1 & Hemits)].
  { subst r. unfold disconnect. rewrite (stopTypingOf_spec _ _ Ht).
    repeat case_match; simpl; eauto. }
  split; [done|]. split.
  - rewrite Htyping. unfold markersOf, markersOfOthers.
    rewrite list_filter_filter. apply filter_none.
    intros i x _ [? ?]. done.
  - intros e [He Hin]%list_elem_of_filter. rewrite Hemits.
    apply elem_of_app. right. rewrite (stopTypingOf_spec _ _ Ht). simpl.
    apply list_elem_of_In, in_flat_map. exists e.
    split; [by apply list_elem_of_In|].
    rewrite bool_decide_eq_true_2 by done. by left.
Qed.

(** X24.  Stopping undoes starting.  After [typing-stop] for a user and a
    chat no marker is kept for them; and when none was kept before the
    [typing-start], start followed by stop leaves the typing markers as
    they were. *)
Theorem typing_stop_undoes_start socket userId chatId now h :
  let key := typingKey chatId userId in
  let h1 := (on (TypingStart socket userId chatId now) h).1 in
  let h2 := (on (TypingStop userId chatId) h1).1 in
  mhas key (typingUsers h1) = true
  ∧ mhas key (typingUsers h2) = false
  ∧ (key ∉ mkeys (typingUsers h) → typingUsers h2 = typingUsers h).
Proof.
  intros key h1 h2. simpl. split_and!.
  - unfold mhas. apply bool_decide_eq_true.
    assert (key ∈ mkeys (mset key
              {| td_userId := userId; td_chatId := chatId;
                 td_socketId := socket; td_timestamp := now |}
              (typingUsers h))) as Hin by (apply elem_of_mkeys_mset; by left).
    unfold mkeys in Hin. apply list_elem_of_fmap in Hin as ([k v] & Hk & Hin).
    simpl in Hk. subst k. unfold mget.
    destruct (list_find (λ e, e.1 = key) _) as [[i e]|] eqn:Hfind; [by eexists|].
    apply list_find_None in Hfind. rewrite Forall_forall in Hfind.
    by destruct (Hfind _ Hin).
  - apply mhas_mdelete.
  - apply mdelete_mset_fresh.
Qed.

(** X25.  A disconnect ends the calls of the user who left.  After any
    events, when a socket registered for a user disconnects, the active
    calls that remain are exactly those that do not involve that user; and
    for each call ended, the other party, when still online, is told on
    its socket that the call ended. *)
Theorem disconnect_ends_calls es socket i userId d :
  let h := after es in
  let r := disconnect socket h in
  list_find (λ e, Presence.socketId e.2 = socket) (onlineUsers h)
    = Some (i, (userId, d)) →
  activeCalls r.1 = callsWithout userId (activeCalls h)
  ∧ ∀ callId c target,
      (callId, c) ∈ activeCalls h → involves userId c = true →
      socketOf (if bool_decide (cd_caller c = userId)
                then cd_callee c else cd_caller c)
               (onlineUsers r.1) = Some target →
      (ToSocket target, CallEnded callId "disconnect" (cd_workspaceId c)) ∈ r.2.
Proof.
  intros h r Hfind. destruct (wellFormed_after es) as [_ Hn Ht Hc].
  fold h in Hn, Ht, Hc.
  assert (Js.nonempty userId = true) as Hid.
  { apply Hn. apply list_find_Some in Hfind as (Hin%list_elem_of_lookup_2 & _).
    unfold Presence.keys. apply list_elem_of_fmap. by exists (userId, d). }
  subst r. unfold disconnect. rewrite Hfind. simpl. rewrite Hid.
  rewrite (endCallsOf_spec _ _ _ Hc), (stopTypingOf_spec _ _ Ht). simpl.
  unfold Presence.disconnect. rewrite Hfind. simpl.
  split; [done|]. intros callId c target Hin Hinv Htarget.
  rewrite <- !app_assoc. apply elem_of_app. left.
  apply list_elem_of_In, in_flat_map. exists (callId, c).
  split; [by apply list_elem_of_In|]. simpl. rewrite Hinv.
  rewrite Htarget. by left.
Qed.

End HubProperties.

(** The first user's socket drops during the call: the call is removed and
    the second user is told on its socket. *)
Lemma disconnect_ends_calls_witness :
  let h := Realtime.after SampleHub.calling in
  let r := Realtime.disconnect "socketA" h in
  length (Realtime.activeCalls h) = 1
  ∧ Realtime.activeCalls r.1 = []
  ∧ (Realtime.ToSocket "socketB", Realtime.CallEnded "call_1" "disconnect" "w1")
    ∈ r.2.
Proof.
  intros h r. split; [vm_compute; reflexivity|].
  destruct (disconnect_ends_calls SampleHub.calling "socketA" 0 "u1"
              {| Presence.socketId := "socketA"; Presence.ud_userId := "u1";
                 Presence.lastSeen := 1%Z |}) as [Hcalls Htold].
  { vm_compute. reflexivity. }
  split.
  - fold h r in Hcalls. rewrite Hcalls. vm_compute. reflexivity.
  - apply (Htold "call_1"
             {| Realtime.cd_caller := "u1"; Realtime.cd_callee := "u2";
                Realtime.cd_workspaceId := "w1"; Realtime.cd_startTime := 3%Z |}
             "socketB").
    + apply list_elem_of_In. vm_compute. by left.
    + vm_compute. reflexivity.
    + vm_compute. reflexivity.
Defined.

(** ** The presence list when sockets come and go *)

Section PresenceMore.
Import Presence.
Implicit Types (m : list (string * UserData)) (k : string) (v : UserData).

Lemma get_delete_ne k k' m : k ≠ k' → get k (delete k' m) = get k m.
Proof.
  intros Hne. unfold get, delete. induction m as [|[k0 v0] m IH]; [done|].
  rewrite filter_cons. simpl.
  destruct (decide (k0 ≠ k')) as [Hk|Hk]; simpl.
  - destruct (decide (k0 = k)); [done|].
    destruct (list_find _ (filter _ m)) as [[i e]|],
             (list_find _ m) as [[j e']|]; simpl in *; congruence.
  - apply dec_stable in Hk. subst k0. rewrite decide_False by done.
    destruct (list_find _ (filter _ m)) as [[i e]|],
             (list_find _ m) as [[j e']|]; simpl in *; congruence.
Qed.

Lemma get_unique k v m : NoDup (keys m) → (k, v) ∈ m → get k m = Some v.
Proof.
  unfold get, keys. induction m as [|[k0 v0] m IH]; [by intros _ ?%elem_of_nil|].
  rewrite fmap_cons, NoDup_cons. simpl. intros [Hnin Hnd] Hin.
  apply elem_of_cons in Hin as [[= <- <-]|Hin].
  - by rewrite decide_True.
  - rewrite decide_False.
    + specialize (IH Hnd Hin).
      destruct (list_find _ m) as [[i e]|]; simpl in *; congruence.
    + intros ->. apply Hnin. apply list_elem_of_fmap. by exists (k, v).
Qed.

(** X26.  A late disconnect of a replaced socket does not take the user
    offline.  When a user has come online again from a new socket, after
    any earlier events, the disconnect of any other socket (the old one
    included) leaves the user online, on the new socket. *)
Theorem stale_disconnect_keeps_the_user_online es old new userId now :
  Js.nonempty userId = true → old ≠ new →
  let m := after (es ++ [UserOnline new userId now]) in
  get userId (disconnect old m).1
  = Some {| socketId := new; ud_userId := userId; lastSeen := now |}.
Proof.
  intros Hid Hne m.
  assert (NoDup (keys m)) as Hnd.
  { apply NoDup_foldl_step. apply NoDup_nil_2. }
  assert (get userId m
          = Some {| socketId := new; ud_userId := userId; lastSeen := now |})
    as Hget.
  { subst m. unfold after. rewrite foldl_app. simpl. unfold userOnline.
    rewrite Hid. simpl. apply get_set. }
  unfold disconnect.
  destruct (list_find _ m) as [[i [removed d]]|] eqn:Hfind; simpl; [|done].
  apply list_find_Some in Hfind as (Hin%list_elem_of_lookup_2 & Hsock & _).
  simpl in Hsock. rewrite get_delete_ne; [done|].
  intros <-. rewrite (get_unique _ _ _ Hnd Hin) in Hget.
  injection Hget as ->. simpl in Hsock. congruence.
Qed.

(** The user of socket A comes back on socket B; the disconnect of socket
    A, arriving late, leaves the user online on socket B. *)
Lemma stale_disconnect_keeps_the_user_online_witness :
  let m := after [UserOnline "socketA" "U" 1%Z; UserOnline "socketB" "U" 2%Z] in
  get "U" (disconnect "socketA" m).1
  = Some {| socketId := "socketB"; ud_userId := "U"; lastSeen := 2%Z |}.
Proof.
  apply (stale_disconnect_keeps_the_user_online [UserOnline "socketA" "U" 1%Z]
           "socketA" "socketB" "U" 2%Z); [reflexivity|discriminate].
Defined.

Lemma delete_at k v m i :
  NoDup (keys m) → m !! i = Some (k, v) → delete k m = take i m ++ drop (S i) m.
Proof.
  intros Hnd Hi. rewrite <- (take_drop_middle m i (k, v) Hi) at 1.
  rewrite <- (take_drop_middle m i (k, v) Hi) in Hnd.
  unfold keys in Hnd. rewrite fmap_app, fmap_cons in Hnd. simpl in Hnd.
  apply NoDup_app in Hnd as (_ & Hl & [Hr _]%NoDup_cons).
  unfold delete. rewrite filter_app, filter_cons.
  rewrite decide_False by (simpl; tauto).
  rewrite !filter_all; [done|..].
  - intros [k' v'] Hin. simpl. intros ->. apply Hr.
    apply list_elem_of_fmap. by exists (k, v').
  - intros [k' v'] Hin. simpl. intros ->. apply (Hl k).
    + apply list_elem_of_fmap. by exists (k, v').
    + by left.
Qed.

(** X27.  A disconnect removes one registration of the socket, not all.
    After any events, the disconnect of a socket lowers by one the number
    of users the socket is registered for (when there is one), and leaves
    the registrations of every other socket as they were: a socket that
    registered several users leaves all but the first online. *)
Theorem disconnect_drops_one_registration es socket :
  let m := after es in
  let m' := (disconnect socket m).1 in
  registrations socket m' = pred (registrations socket m)
  ∧ ∀ other, other ≠ socket → registrations other m' = registrations other m.
Proof.
  intros m m'.
  assert (NoDup (keys m)) as Hnd.
  { apply NoDup_foldl_step. apply NoDup_nil_2. }
  subst m'. unfold disconnect.
  destruct (list_find _ m) as [[i [removed d]]|] eqn:Hfind; simpl.
  - apply list_find_Some in Hfind as (Hi & Hsock & _). simpl in Hsock.
    rewrite (delete_at _ _ _ _ Hnd Hi). unfold registrations.
    pose proof (take_drop_middle m i (removed, d) Hi) as Hm.
    set (l1 := take i m) in *. set (l2 := drop (S i) m) in *.
    clearbody l1 l2. rewrite <- Hm.
    split.
    + rewrite !filter_app, filter_cons, !length_app. simpl.
      rewrite decide_True by done. simpl. lia.
    + intros other Hother. rewrite !filter_app, filter_cons, !length_app.
      simpl. rewrite decide_False by congruence. done.
  - split; [|done]. apply list_find_None in Hfind. unfold registrations.
    rewrite filter_none; [done|]. intros i x Hx.
    rewrite Forall_forall in Hfind. apply Hfind. by eapply list_elem_of_lookup_2.
Qed.

End PresenceMore.

(** ** The profile gate of a submission *)

Section Trim.
Import Js.

Lemma length_trim_start s : String.length (trim_start s) ≤ String.length s.
Proof.
  induction s as [|c s IH]; simpl; [done|]. destruct (is_space c); simpl; lia.
Qed.

Lemma length_rev_onto s acc :
  String.length (rev_onto s acc) = String.length s + String.length acc.
Proof.
  revert acc. induction s as [|c s IH]; intros acc; simpl; [done|].
  rewrite IH. simpl. lia.
Qed.

Lemma length_rev s : String.length (rev s) = String.length s.
Proof. unfold rev. rewrite length_rev_onto. simpl. lia. Qed.

Lemma length_trim s : String.length (trim s) ≤ String.length s.
Proof.
  unfold trim. rewrite length_rev.
  etrans; [apply length_trim_start|]. rewrite length_rev.
  apply length_trim_start.
Qed.

Lemma trim_start_blank s : blank s = true → trim_start s = EmptyString.
Proof.
  induction s as [|c s IH]; simpl; [done|].
  intros [Hc Hs]%andb_true_iff. rewrite Hc. auto.
Qed.

Lemma trim_blank s : blank s = true → trim s = EmptyString.
Proof. intros Hs. unfold trim. rewrite (trim_start_blank s Hs). reflexivity. Qed.

End Trim.

(** X28.  An incomplete profile cannot apply.  A freelancer's profile is
    incomplete when the bio, white space at its ends apart, has fewer than
    50 characters (so when the bio itself has, and when it is white space
    only, however long) or when there are fewer than 3 skills; and every
    submission by a freelancer whose stored profile is incomplete is
    answered 400 and stores nothing. *)
Theorem incomplete_profile_cannot_apply u body s freelancer :
  role u = RFreelancer →
  users s !! userId u = Some freelancer →
  u_role freelancer = RFreelancer →
  String.length (u_bio freelancer) < 50 ∨ blank (u_bio freelancer) = true
  ∨ length (u_skills freelancer) < 3 →
  isFreelancerProfileComplete freelancer = false
  ∧ handle (Submit u body) s = (Failure 400 ProfileIncomplete, s).
Proof.
  intros Hrole Hu Hfr Hwhy.
  assert (isFreelancerProfileComplete freelancer = false) as Hinc.
  { unfold isFreelancerProfileComplete. rewrite decide_False by tauto.
    destruct Hwhy as [Hshort|[Hblank|Hskills]].
    - pose proof (length_trim (u_bio freelancer)).
      rewrite (proj2 (Nat.leb_gt 50 _)) by lia. apply andb_false_iff. left.
      apply andb_false_r.
    - rewrite (trim_blank _ Hblank). simpl. apply andb_false_iff. left.
      apply andb_false_r.
    - rewrite (proj2 (Nat.leb_gt 3 _)) by lia. apply andb_false_r. }
  split; [done|]. simpl. unfold Applications.submit, auth.
  rewrite Hrole. rewrite bool_decide_eq_true_2 by (by left). simpl.
  by rewrite Hu, Hinc.
Qed.

(** A freelancer whose bio is two hundred blanks has an incomplete profile
    and cannot apply. *)
Lemma incomplete_profile_cannot_apply_witness :
  let blanks := String.concat "" (replicate 200 " ") in
  let s := {| users := [Sample.clientUser; withBio blanks Sample.freelancerUser];
              projects := [Sample.project 1000%float];
              applications := []; chats := []; messages := []; workspaces := [];
              notifications := [] |} in
  String.length blanks = 200
  ∧ handle (Submit Sample.alice (Sample.proposal 900%float)) s
    = (Failure 400 ProfileIncomplete, s).
Proof.
  intros blanks s. split; [vm_compute; reflexivity|].
  apply (incomplete_profile_cannot_apply Sample.alice
           (Sample.proposal 900%float) s (withBio blanks Sample.freelancerUser));
    [reflexivity|reflexivity|reflexivity|].
  right; left. vm_compute. reflexivity.
Defined.

Section CallRouting.
Import Realtime.

Lemma socketOf_get k (m : list (string * Presence.UserData)) :
  socketOf k m = Presence.socketId <$> Presence.get k m.
Proof.
  unfold socketOf, Presence.get. by destruct (list_find _ m) as [[i e]|].
Qed.

Lemma get_None k (m : list (string * Presence.UserData)) :
  k ∉ Presence.keys m → Presence.get k m = None.
Proof.
  intros Hnin. unfold Presence.get.
  destruct (list_find _ m) as [[i [k' v]]|] eqn:Hfind; [|done].
  apply list_find_Some in Hfind as (Hin%list_elem_of_lookup_2 & Hk & _).
  simpl in Hk. subst k'. destruct Hnin. unfold Presence.keys.
  apply list_elem_of_fmap. by exists (k, v).
Qed.

(** X29.  A call request goes to the socket the callee is on now.  When
    the callee has come online on a socket, after any earlier events (an
    older socket of the same user included), a call request from another
    user is delivered to that socket and confirmed to the caller.  A
    request to call oneself is refused, and a request for a user who is not
    online fails; no request changes the hub. *)
Theorem call_request_reaches_the_current_socket es socket callee now caller
    workspaceId :
  Js.nonempty callee = true → caller ≠ callee →
  let h := after (es ++ [UserOnline socket callee now]) in
  on (VideoCallRequest caller callee workspaceId) h
  = (h, [ (ToSocket socket, IncomingVideoCall caller workspaceId);
          (ToSender, CallRequestSent callee) ])
  ∧ on (VideoCallRequest caller caller workspaceId) h = (h, [(ToSender, CallError)])
  ∧ ∀ absent, absent ≠ caller →
      absent ∉ Presence.keys (onlineUsers h) →
      on (VideoCallRequest caller absent workspaceId) h
      = (h, [(ToSender, CallRequestFailed absent)]).
Proof.
  intros Hid Hne h. simpl. unfold videoCallRequest. split_and!.
  - rewrite bool_decide_eq_false_2 by done.
    assert (socketOf callee (onlineUsers h) = Some socket) as ->; [|done].
    rewrite socketOf_get. subst h. unfold after. rewrite foldl_app. simpl.
    unfold userOnline. rewrite Hid. simpl. unfold Presence.userOnline.
    rewrite Hid. simpl. by rewrite get_set.
  - by rewrite bool_decide_eq_true_2.
  - intros absent Hother Habsent. rewrite bool_decide_eq_false_2 by done.
    by rewrite socketOf_get, get_None.
Qed.

End CallRouting.

(** The second user moved from socket B to socket C; the call of the first
    user rings on socket C. *)
Lemma call_request_reaches_the_current_socket_witness :
  let h := Realtime.after (SampleHub.calling
                           ++ [Realtime.UserOnline "socketC" "u2" 5%Z]) in
  (Realtime.on (Realtime.VideoCallRequest "u1" "u2" "w1") h).2
  = [ (Realtime.ToSocket "socketC", Realtime.IncomingVideoCall "u1" "w1");
      (Realtime.ToSender, Realtime.CallRequestSent "u2") ].
Proof.
  intros h.
  destruct (call_request_reaches_the_current_socket SampleHub.calling "socketC"
              "u2" 5%Z "u1" "w1") as [Hr _]; [reflexivity|discriminate|].
  fold h in Hr. by rewrite Hr.
Defined.

(** ** Featured badges *)

Section BadgeFacts.
Import Badges.

Lemma count_saveAt {A} (P : A → Prop) `{∀ x, Decision (P x)} (l : list A) i x y :
  l !! i = Some x →
  countDocuments P (saveAt i y l) + (if decide (P x) then 1 else 0)
  = countDocuments P l + (if decide (P y) then 1 else 0).
Proof.
  intros Hi. unfold countDocuments, saveAt.
  rewrite insert_take_drop by by eapply lookup_lt_Some.
  rewrite <- (take_drop_middle l i x Hi) at 3.
  rewrite !filter_app, !filter_cons, !length_app.
  destruct (decide (P x)), (decide (P y)); simpl; lia.
Qed.

(** X30.  A user features at most five badges.  Starting from badges of
    which no user features more than five, after any sequence of feature
    requests (the sixth badge of a user is turned down) no user features
    more than five; and the requests add and remove no badge document. *)
Theorem at_most_five_featured_badges rs badges :
  (∀ user, featuredCount user badges ≤ 5) →
  (∀ user, featuredCount user (featureAll rs badges) ≤ 5)
  ∧ length (featureAll rs badges) = length badges.
Proof.
  revert badges. induction rs as [|[[u id] body] rs IH]; intros badges Hcap;
    [done|].
  simpl.
  assert ((∀ user, featuredCount user (feature u id body badges).2 ≤ 5)
          ∧ length (feature u id body badges).2 = length badges) as [Hcap' Hlen].
  { unfold feature.
    destruct (negb (auth _ u)); [done|].
    destruct (badges !! id) as [userBadge|] eqn:Hid; [|done].
    destruct (decide _) as [|Hown%dec_stable]; [done|].
    destruct (_ && _) eqn:Hfull; [done|]. simpl.
    split; [|apply saveAt_length]. intros user.
    match goal with |- featuredCount user (saveAt id ?b _) ≤ 5 =>
      pose proof (count_saveAt (featuredBy user) badges id userBadge b Hid) as Hcount
    end.
    specialize (Hcap user). unfold featuredCount in *.
    unfold featuredBy in Hcount at 2 4. simpl in Hcount.
    repeat case_decide; try lia.
    match goal with H : featuredBy _ _ |- _ => destruct H as [Huser Hnow] end.
    simpl in Huser, Hnow.
    destruct (ub_isFeatured userBadge) eqn:Hwas; [naive_solver|].
    rewrite Hnow in Hfull. cbn [andb negb] in Hfull.
    rewrite andb_true_r in Hfull.
    apply Nat.leb_gt in Hfull.
    assert (user = userId u) as -> by congruence. lia. }
  destruct (IH _ Hcap') as [Hall Hlen']. split; [done|]. by rewrite Hlen'.
Qed.

End BadgeFacts.

(** Alice asks to feature her six badges one after the other: five of them
    are featured and the sixth request is turned down. *)
Lemma at_most_five_featured_badges_witness :
  let after := Badges.featureAll SampleBadges.featureEach SampleBadges.six in
  featuredCount 1 after = 5
  ∧ featuredCount 1 after ≤ 5
  ∧ (Badges.feature Sample.alice 5
       {| Badges.fb_featured := true; Badges.fb_order := None |} after).1
    = Badges.Refused 400 Badges.TooManyFeatured.
Proof.
  intros after. split; [vm_compute; reflexivity|]. split.
  - apply (at_most_five_featured_badges SampleBadges.featureEach SampleBadges.six).
    intros user. assert (featuredCount user SampleBadges.six = 0) as ->; [|lia].
    apply count_0. intros i x Hx [_ Hf].
    apply list_lookup_fmap_Some in Hx as (b & -> & _). done.
  - vm_compute. reflexivity.
Defined.
